(** * auth0-deploy-cli: the context loader ([src/context.js])

    A shallow embedding of the directory scanner that turns a repository
    tree into the deployment context, and the properties its specification
    states about it.  The text of the loader is the second part of
    [test/context.tests.js], after the tests.

    The JavaScript is modelled as it is written:
    - JavaScript values are a small inductive type; plain objects are
      association lists kept in insertion order, because [Object.keys]
      decides the order of the loaded entities;
    - a promise is the outcome it settles with; the order in which pending
      file-system operations complete is not fixed by the program, so every
      concurrent step takes an explicit list of scheduling choices;
    - [Promise.map] with a concurrency limit is a small machine whose states
      record which mapper calls are queued, running or done and which reads
      are still in flight;
    - the [fs] module, the constants and the transform functions of the
      extension-tools package, [JSON.parse] and [path.resolve] are
      parameters. *)

From Stdlib Require Import Ascii String ZArith NArith DecimalString Lia.
From stdpp Require Import list strings.

#[local] Set Warnings "-clear-no-such-hyp".

(** ** Strings and paths *)

(** [rsplit c s] cuts [s] at the last occurrence of [c]; the separator is in
    neither half. *)
Fixpoint rsplit (c : ascii) (s : string) : option (string * string) :=
  match s with
  | EmptyString => None
  | String a r =>
      match rsplit c r with
      | Some (pre, suf) => Some (String a pre, suf)
      | None => if Ascii.eqb a c then Some (EmptyString, r) else None
      end
  end.

Fixpoint contains (c : ascii) (s : string) : bool :=
  match s with
  | EmptyString => false
  | String a r => Ascii.eqb a c || contains c r
  end.

Definition lower (a : ascii) : ascii :=
  let n := nat_of_ascii a in
  if (65 <=? n) && (n <=? 90) then ascii_of_nat (n + 32) else a.

Fixpoint lowercase (s : string) : string :=
  match s with
  | EmptyString => EmptyString
  | String a r => String (lower a) (lowercase r)
  end.

(** [String.prototype.endsWith]: some tail of [s] is [suffix]. *)
Fixpoint endsWith (s suffix : string) : bool :=
  String.eqb s suffix
  || match s with
     | EmptyString => false
     | String _ r => endsWith r suffix
     end.

(** [/<suffix>$/i.test(s)] for a literal, lower-case ASCII suffix. *)
Definition test_suffix_i (suffix s : string) : bool :=
  endsWith (lowercase s) suffix.

(** The part of node's posix [path] module the loader relies on.  Directory
    paths descend from [path.resolve], so they are absolute and normalised;
    entry names come from [readdir], so they hold no separator. *)
Definition basename (p : string) : string :=
  match rsplit "/" p with
  | Some (_, suf) => suf
  | None => p
  end.

Definition dirname (p : string) : string :=
  match rsplit "/" p with
  | Some (pre, _) => if String.eqb pre "" then "/" else pre
  | None => "."
  end.

Definition path_join (dir entry : string) : string :=
  if String.eqb dir "/" then "/" +:+ entry else dir +:+ "/" +:+ entry.

(** [path.parse(p)]: the [name] and [ext] fields.  The extension starts at
    the last dot of the base name, unless that dot is its first character or
    the base name is [..]. *)
Record parsed_path := { name : string; ext : string }.

Definition path_parse (p : string) : parsed_path :=
  let base := basename p in
  match rsplit "." base with
  | None => {| name := base; ext := "" |}
  | Some (pre, suf) =>
      if String.eqb pre "" || String.eqb base ".."
      then {| name := base; ext := "" |}
      else {| name := pre; ext := "." +:+ suf |}
  end.

(** An entry name as [readdir] returns them. *)
Definition plain_name (s : string) : bool :=
  negb (contains "/" s) && negb (String.eqb s "").

(** [Array.prototype.indexOf(x) >= 0]. *)
Definition includes (x : string) (l : list string) : bool :=
  existsb (String.eqb x) l.

(** ** JavaScript values *)

#[local] Set Warnings "-register-all".

Inductive value : Type :=
| VUndefined
| VNull
| VBool (b : bool)
| VNum (n : Z)
| VStr (s : string)
| VArr (items : list value)
| VObj (props : list (string * value)).

(** A plain object: own enumerable properties in insertion order.  What an
    object inherits from [Object.prototype] is not part of it: [get], [has],
    [set] and [member] below are [o[k]], [k in o] and [o[k] = v] for every
    name [k] that is not [inherited], and the properties of the entities of
    a scan are stated for listings that give the accumulator no such name
    (see [indexed]). *)
Definition obj := list (string * value).

(** The names every object inherits from [Object.prototype]. *)
Definition inherited (k : string) : bool :=
  includes k ["__proto__"; "constructor"; "hasOwnProperty"; "isPrototypeOf";
              "propertyIsEnumerable"; "toLocaleString"; "toString"; "valueOf";
              "__defineGetter__"; "__defineSetter__"; "__lookupGetter__";
              "__lookupSetter__"]%string.

(** None of the names is one that objects inherit. *)
Definition uninherited (names : list string) : bool :=
  forallb (fun k => negb (inherited k)) names.

Definition truthy (v : value) : bool :=
  match v with
  | VUndefined | VNull => false
  | VBool b => b
  | VNum n => negb (Z.eqb n 0)
  | VStr s => negb (String.eqb s "")
  | VArr _ | VObj _ => true
  end.

(** [a || b] and [a && b]. *)
Definition js_or (a b : value) : value := if truthy a then a else b.
Definition js_and (a b : value) : value := if truthy a then b else a.

(** [o[k]]. *)
Fixpoint get (k : string) (o : obj) : value :=
  match o with
  | [] => VUndefined
  | (k', v) :: r => if String.eqb k k' then v else get k r
  end.

(** [k in o]. *)
Fixpoint has (k : string) (o : obj) : bool :=
  match o with
  | [] => false
  | (k', _) :: r => String.eqb k k' || has k r
  end.

(** [o[k] = v]: an existing property keeps its place, a new one goes last. *)
Fixpoint set (k : string) (v : value) (o : obj) : obj :=
  match o with
  | [] => [(k, v)]
  | (k', v') :: r => if String.eqb k k' then (k, v) :: r else (k', v') :: set k v r
  end.

(** [v.k] for a value that is known not to be null or undefined. *)
Definition member (k : string) (v : value) : value :=
  match v with
  | VObj o => get k o
  | _ => VUndefined
  end.

(** [o[k].f = v], for [o[k]] an object. *)
Definition set_in (k f : string) (v : value) (o : obj) : obj :=
  match get k o with
  | VObj inner => set k (VObj (set f v inner)) o
  | _ => o
  end.

(** [o[k].f.push(v)], for [o[k].f] an array. *)
Definition push_in (k f : string) (v : value) (o : obj) : obj :=
  match member f (get k o) with
  | VArr items => set_in k f (VArr (items ++ [v])) o
  | _ => o
  end.

(** [o.f.push(v)]. *)
Definition push (f : string) (v : value) (o : obj) : obj :=
  match get f o with
  | VArr items => set f (VArr (items ++ [v])) o
  | _ => o
  end.

(** Array-index property names: canonical decimal numerals below 2^32 - 1. *)
Definition digit (a : ascii) : option N :=
  let n := nat_of_ascii a in
  if (48 <=? n) && (n <=? 57) then Some (N.of_nat (n - 48)) else None.

Fixpoint numeral (acc : N) (s : string) : option N :=
  match s with
  | EmptyString => Some acc
  | String a r =>
      match digit a with
      | Some d => numeral (acc * 10 + d)%N r
      | None => None
      end
  end.

Definition array_index (s : string) : option N :=
  match s with
  | EmptyString => None
  | String a r =>
      if Ascii.eqb a "0" && negb (String.eqb r "") then None
      else match numeral 0%N s with
           | Some n => if (n <? 4294967295)%N then Some n else None
           | None => None
           end
  end.

Fixpoint insert_index (k : N * string) (l : list (N * string)) : list (N * string) :=
  match l with
  | [] => [k]
  | k' :: r => if (k.1 <=? k'.1)%N then k :: l else k' :: insert_index k r
  end.

Definition index_key (k : string) : option (N * string) :=
  match array_index k with
  | Some n => Some (n, k)
  | None => None
  end.

Definition is_index (k : string) : bool :=
  match array_index k with Some _ => true | None => false end.

(** [Object.keys(o)]: array indices in ascending order, then the other
    names in insertion order. *)
Definition keys (o : obj) : list string :=
  let ks := map fst o in
  map snd (foldr insert_index [] (omap index_key ks))
    ++ filter (fun k => is_index k = false) ks.

(** ** Errors, promises and the log *)

(** An error object: [e.code] (absent on errors made with [new Error]) and
    [e.message]. *)
Record js_error := { code : option string; message : string }.

Definition Error (msg : string) : js_error := {| code := None; message := msg |}.

Definition is_ENOENT (e : js_error) : bool :=
  match code e with
  | Some c => String.eqb c "ENOENT"
  | None => false
  end.

Inductive level := debug | info | warn.

Definition log_line := (level * string)%type.

(** How a call ends: a promise that resolves, a promise that rejects, or an
    exception thrown before any promise was returned. *)
Inductive outcome (A : Type) : Type :=
| Resolved (a : A)
| Rejected (e : js_error)
| Thrown (e : js_error).

Arguments Resolved {A} a.
Arguments Rejected {A} e.
Arguments Thrown {A} e.

(** A promise, seen from its caller: the lines written to the logger on the
    way and the outcome. *)
Record promise (A : Type) : Type := { logged : list log_line; settled : outcome A }.

Arguments logged {A} p.
Arguments settled {A} p.

Definition Promise_resolve {A} (a : A) : promise A :=
  {| logged := []; settled := Resolved a |}.

Definition Promise_reject {A} (e : js_error) : promise A :=
  {| logged := []; settled := Rejected e |}.

(** [logger.<level>(msg)] followed by [p]. *)
Definition logging {A} (lines : list log_line) (p : promise A) : promise A :=
  {| logged := lines ++ logged p; settled := settled p |}.

(** [p.then(k)]. *)
Definition then_ {A B} (p : promise A) (k : A -> promise B) : promise B :=
  match settled p with
  | Resolved a => logging (logged p) (k a)
  | Rejected e => {| logged := logged p; settled := Rejected e |}
  | Thrown e => {| logged := logged p; settled := Thrown e |}
  end.

(** [p.catch(h)]. *)
Definition catch_ {A} (p : promise A) (h : js_error -> promise A) : promise A :=
  match settled p with
  | Rejected e => logging (logged p) (h e)
  | _ => p
  end.

(** ** The file system *)

Inductive stats := IsDirectory | IsFile | IsSymbolicLink | IsOther.

(** The three [fs] calls of the loader.  [lstatSync] does not follow
    symbolic links.  A failure carries node's error object. *)
Record filesystem := {
  lstatSync : string -> js_error + stats;
  readdir : string -> js_error + list string;
  readFile : string -> js_error + string
}.

Definition readdirAsync (fs : filesystem) (p : string) : promise (list string) :=
  match readdir fs p with
  | inl e => Promise_reject e
  | inr names => Promise_resolve names
  end.

(** ** Completion order *)

(** Operations issued together complete in an order the program does not
    control.  A list of choices fixes one order: the k-th choice places the
    k-th operation among those issued after it.  The empty list is
    completion in issue order. *)
Fixpoint insert_at {A} (n : nat) (x : A) (l : list A) : list A :=
  match n, l with
  | 0, _ => x :: l
  | S n', y :: r => y :: insert_at n' x r
  | S _, [] => [x]
  end.

Fixpoint completion_order {A} (choices : list nat) (l : list A) : list A :=
  match l with
  | [] => []
  | x :: r =>
      let rest := completion_order (tl choices) r in
      insert_at (Nat.modulo (hd 0 choices) (S (length rest))) x rest
  end.

(** ** [Promise.map] with a concurrency limit *)

(** One [fs.readFileAsync(path, 'utf8').then(k)]: the path and what the
    callback does to the object under construction. *)
Definition file_read := (string * (string -> obj -> obj))%type.

(** What one mapper call sets up: the object it will resolve with and the
    reads it has issued, all at once, under [Promise.all]. *)
Record job := { current : obj; reads : list file_read }.

Inductive status := Queued | Running | Done.

Record slot := { st : status; work : job }.

(** Something that can happen next: the [j]-th pending read of mapper call
    [i] completes, or call [i], with no read pending, resolves. *)
Inductive event := ReadDone (i j : nat) | Settles (i : nat).

Definition slot_events (i : nat) (s : slot) : list event :=
  match st s with
  | Running =>
      match reads (work s) with
      | [] => [Settles i]
      | rs => map (ReadDone i) (seq 0 (length rs))
      end
  | _ => []
  end.

Definition events (m : list slot) : list event := concat (imap slot_events m).

(** The number of file reads in flight. *)
Definition in_flight (m : list slot) : nat :=
  sum_list_with (fun s => match st s with Running => length (reads (work s)) | _ => 0 end) m.

(** The number of mapper calls that have started and not yet resolved. *)
Definition running (m : list slot) : nat :=
  sum_list_with (fun s => match st s with Running => 1 | _ => 0 end) m.

(** A freed place goes to the call queued last. *)
Fixpoint start_last (m : list slot) : option (list slot) :=
  match m with
  | [] => None
  | s :: r =>
      match start_last r with
      | Some r' => Some (s :: r')
      | None =>
          match st s with
          | Queued => Some ({| st := Running; work := work s |} :: r)
          | _ => None
          end
      end
  end.

Definition step (fs : filesystem) (ev : event) (m : list slot) : js_error + list slot :=
  match ev with
  | ReadDone i j =>
      match m !! i with
      | Some s =>
          match reads (work s) !! j with
          | Some (path, k) =>
              match readFile fs path with
              | inl e => inl e
              | inr contents =>
                  inr (<[i := {| st := Running;
                                 work := {| current := k contents (current (work s));
                                            reads := delete j (reads (work s)) |} |}]> m)
              end
          | None => inr m
          end
      | None => inr m
      end
  | Settles i =>
      match m !! i with
      | Some s =>
          let m' := <[i := {| st := Done; work := work s |}]> m in
          inr (default m' (start_last m'))
      | None => inr m
      end
  end.

Definition results (m : list slot) : value :=
  VArr (map (fun s => VObj (current (work s))) m).

Definition pick (choices : list nat) (evs : list event) (ev0 : event) : event :=
  nth (Nat.modulo (hd 0 choices) (length evs)) evs ev0.

Fixpoint run (fs : filesystem) (fuel : nat) (choices : list nat) (m : list slot)
  : outcome value :=
  match fuel with
  | 0 => Resolved (results m)
  | S n =>
      match events m with
      | [] => Resolved (results m)
      | (ev0 :: _) as evs =>
          match step fs (pick choices evs ev0) m with
          | inl e => Rejected e
          | inr m' => run fs n (tl choices) m'
          end
      end
  end.

(** The states the machine passes through, first to last. *)
Fixpoint states (fs : filesystem) (fuel : nat) (choices : list nat) (m : list slot)
  : list (list slot) :=
  match fuel with
  | 0 => [m]
  | S n =>
      match events m with
      | [] => [m]
      | (ev0 :: _) as evs =>
          match step fs (pick choices evs ev0) m with
          | inl e => [m]
          | inr m' => m :: states fs n (tl choices) m'
          end
      end
  end.

(** The mapper is called at once for the first [limit] elements; the others
    wait.  A limit below 1 is no limit. *)
Definition launch (limit : nat) (jobs : list job) : list slot :=
  let n := if limit =? 0 then length jobs else limit in
  ((fun j => {| st := Running; work := j |}) <$> take n jobs)
    ++ ((fun j => {| st := Queued; work := j |}) <$> drop n jobs).

(** Every step completes a read or resolves a call. *)
Definition steps_needed (jobs : list job) : nat :=
  sum_list_with (fun j => S (length (reads j))) jobs.

(** [Promise.map(items, mapper, { concurrency: limit })], for the jobs the
    mapper sets up on the items.  The result keeps the order of the items. *)
Definition Promise_map (fs : filesystem) (choices : list nat) (jobs : list job)
    (limit : nat) : promise value :=
  {| logged := []; settled := run fs (steps_needed jobs) choices (launch limit jobs) |}.

Definition load_states (fs : filesystem) (choices : list nat) (jobs : list job)
    (limit : nat) : list (list slot) :=
  states fs (steps_needed jobs) choices (launch limit jobs).

(** The object a mapper call resolves with when its reads complete in the
    given order. *)
Definition loaded_in (fs : filesystem) (order : list file_read) (o : obj) : obj :=
  fold_left (fun o r => match readFile fs r.1 with
                        | inr contents => r.2 contents o
                        | inl _ => o
                        end) order o.

(** The steps a state still has to take. *)
Definition steps_left (m : list slot) : nat :=
  sum_list_with (fun s => match st s with Done => 0 | _ => S (length (reads (work s))) end) m.

(** A job of the start and what has become of it: some of its reads have
    completed, in some order, and the others are pending. *)
Definition evolved (fs : filesystem) (j0 j : job) : Prop :=
  ∃ completed, completed ++ reads j ≡ₚ reads j0
               ∧ current j = loaded_in fs completed (current j0).

Definition readable (fs : filesystem) (r : file_read) : bool :=
  match readFile fs r.1 with
  | inr _ => true
  | inl _ => false
  end.

(** Every read the jobs issue succeeds. *)
Definition all_readable (fs : filesystem) (jobs : list job) : bool :=
  forallb (fun j => forallb (readable fs) (reads j)) jobs.

Definition queued (m : list slot) : nat :=
  sum_list_with (fun s => match st s with Queued => 1 | _ => 0 end) m.

(** What holds of every state the machine reaches from [launch limit jobs]:
    each slot holds what has become of its job, a call that is done has no
    read pending, and while a call is queued another one is running. *)
Definition reached (fs : filesystem) (jobs : list job) (m : list slot) : Prop :=
  Forall2 (evolved fs) jobs (work <$> m)
  ∧ Forall (fun s => st s = Done → reads (work s) = []) m
  ∧ (queued m = 0 ∨ 0 < running m).

(** What [Promise.map] may settle with: the objects of the jobs, each after
    its reads completed in some order, or the failure of one read. *)
Definition settles_well (fs : filesystem) (jobs : list job) (o : outcome value) : Prop :=
  match o with
  | Resolved v =>
      ∃ objs, v = VArr (VObj <$> objs)
              ∧ Forall2 (fun j o => ∃ order, order ≡ₚ reads j
                                            ∧ o = loaded_in fs order (current j)) jobs objs
  | Rejected e => ∃ j r, j ∈ jobs ∧ r ∈ reads j ∧ readFile fs r.1 = inl e
  | Thrown _ => False
  end.

(** The read an event completes, under the index of the mapper call that
    issued it. *)
Definition completed_read (m : list slot) (ev : event) : list (nat * file_read) :=
  match ev with
  | ReadDone i j =>
      match m !! i with
      | Some s =>
          match reads (work s) !! j with
          | Some r => [(i, r)]
          | None => []
          end
      | None => []
      end
  | Settles _ => []
  end.

(** The reads that complete while the machine runs, first to last: the
    steps are those of [run]. *)
Fixpoint completions (fs : filesystem) (fuel : nat) (choices : list nat) (m : list slot)
  : list (nat * file_read) :=
  match fuel with
  | 0 => []
  | S n =>
      match events m with
      | [] => []
      | (ev0 :: _) as evs =>
          match step fs (pick choices evs ev0) m with
          | inl _ => []
          | inr m' => completed_read m (pick choices evs ev0) ++ completions fs n (tl choices) m'
          end
      end
  end.

(** The reads of the mapper call [i] among them. *)
Definition completed_by (i : nat) (trace : list (nat * file_read)) : list file_read :=
  map snd (List.filter (fun c => Nat.eqb c.1 i) trace).

(** The order in which the reads of a [Promise.map] complete. *)
Definition map_completions (fs : filesystem) (choices : list nat) (jobs : list job)
    (limit : nat) : list (nat * file_read) :=
  completions fs (steps_needed jobs) choices (launch limit jobs).

(** What has become of each job once the reads of [past] have completed. *)
Definition traced (fs : filesystem) (jobs : list job) (past : list (nat * file_read))
    (m : list slot) : Prop :=
  ∀ i s j, m !! i = Some s → jobs !! i = Some j →
           current (work s) = loaded_in fs (completed_by i past) (current j)
           ∧ completed_by i past ++ reads (work s) ≡ₚ reads j.

(** ** Constants and schedules *)

(** The constants the loader takes from the extension-tools package. *)
Record constants := {
  RULES_DIRECTORY : string;
  PAGES_DIRECTORY : string;
  PAGE_NAMES : list string;
  DATABASE_CONNECTIONS_DIRECTORY : string;
  DATABASE_SCRIPTS : list string;
  CLIENTS_DIRECTORY : string;
  RESOURCE_SERVERS_DIRECTORY : string;
  EMAIL_TEMPLATES_DIRECTORY : string;
  EMAIL_TEMPLATE_FILENAMES : list string;
  EMAIL_PROVIDERS_DIRECTORY : string;
  EMAIL_PROVIDER_FILENAME : string
}.

(** One run's completion orders: of the file reads of the collector that
    scans a given directory, of the listings of the connection directories,
    and of the seven collectors. *)
Record schedule := {
  reads_of : string -> list nat;
  listings : list nat;
  settling : list nat
}.

(** Completion in issue order throughout. *)
Definition in_order : schedule :=
  {| reads_of := fun _ => []; listings := []; settling := [] |}.

Definition to_string (v : value) : string :=
  match v with
  | VStr s => s
  | _ => "undefined"
  end.

Definition elements (v : value) : list value :=
  match v with
  | VArr items => items
  | _ => []
  end.

(** [target.k = v] on a value that is an object. *)
Definition assign (k : string) (v : value) (target : value) : value :=
  match target with
  | VObj o => VObj (set k v o)
  | _ => target
  end.

(** [l.indexOf(x)]. *)
Fixpoint indexOf (x : string) (l : list string) : Z :=
  match l with
  | [] => (-1)%Z
  | y :: r =>
      if String.eqb x y then 0%Z
      else let i := indexOf x r in if (i <? 0)%Z then (-1)%Z else (i + 1)%Z
  end.

Definition show_Z (z : Z) : string := NilZero.string_of_int (Z.to_int z).

(** [l.forEach(f)] over a callback that logs and updates an accumulator. *)
Definition forEach {A S : Type} (l : list A) (f : A -> S -> list log_line * S) (s : S)
  : list log_line * S :=
  fold_left (fun acc x => let r := f x acc.2 in (acc.1 ++ r.1, r.2)) l ([], s).

(** The first rejection in completion order, if any. *)
Fixpoint first_rejection {A} (l : list (outcome A)) : option js_error :=
  match l with
  | [] => None
  | Rejected e :: _ => Some e
  | Thrown e :: _ => Some e
  | Resolved _ :: r => first_rejection r
  end.

Definition resolved_value (o : outcome value) : value :=
  match o with
  | Resolved v => v
  | _ => VUndefined
  end.

(** [Promise.props(promises)]: rejects with the first of the promises to
    reject, and resolves with the object of their values otherwise.  The
    lines the promises log are kept promise by promise. *)
Definition Promise_props (choices : list nat) (promises : list (string * promise value))
  : promise obj :=
  {| logged := concat (map (fun kp => logged kp.2) promises);
     settled :=
       match first_rejection (completion_order choices (map (fun kp => settled kp.2) promises)) with
       | Some e => Rejected e
       | None => Resolved (map (fun kp => (kp.1, resolved_value (settled kp.2))) promises)
       end |}.

(** ** The loader *)

Section Loader.

Variable K : constants.
Variable fs : filesystem.
Variable sched : schedule.

(** The transform functions of the extension-tools package. *)
Variable unifyScripts : value -> value -> value.
Variable unifyDatabases : value -> value -> value.

(** [JSON.parse] and [path.resolve]. *)
Variable JSON_parse : string -> js_error + value.
Variable path_resolve : string -> string.

Definition isPage (file : string) : list log_line * bool :=
  let directory := basename (dirname file) in
  let fileName := basename file in
  let nameIndex := indexOf fileName (PAGE_NAMES K) in
  ([(debug, "directory: " +:+ directory +:+ ", nameIndex: " +:+ show_Z nameIndex)],
   String.eqb directory (PAGES_DIRECTORY K) && (0 <=? nameIndex)%Z).

Definition isEmailTemplate (file : string) : bool :=
  let directory := basename (dirname file) in
  let fileName := basename file in
  let nameIndex := indexOf fileName (EMAIL_TEMPLATE_FILENAMES K) in
  String.eqb directory (EMAIL_TEMPLATES_DIRECTORY K) && (0 <=? nameIndex)%Z.

Definition isEmailProvider (file : string) : bool :=
  let directory := basename (dirname file) in
  let fileName := basename file in
  String.eqb directory (EMAIL_PROVIDERS_DIRECTORY K)
  && String.eqb fileName (EMAIL_PROVIDER_FILENAME K).

(** *** Rules *)

Definition processRule (ruleName : string) (rule : value) : job :=
  let currentRule :=
    [("script", VBool false); ("metadata", VBool false); ("name", VStr ruleName)] in
  let script :=
    if truthy (member "script" rule)
    then [(to_string (member "scriptFileName" rule),
           fun contents currentRule =>
             set "scriptFile" (VStr contents) (set "script" (VBool true) currentRule))]
    else [] in
  let metadata :=
    if truthy (member "metadata" rule)
    then [(to_string (member "metadataFileName" rule),
           fun contents currentRule =>
             set "metadataFile" (VStr contents) (set "metadata" (VBool true) currentRule))]
    else [] in
  {| current := currentRule; reads := script ++ metadata |}.

(** The body of the [forEach] of [getRules]. *)
Definition rules_file (dirPath fileName : string) (rules : obj) : list log_line * obj :=
  let ruleName := name (path_parse fileName) in
  let ext := ext (path_parse fileName) in
  if negb (String.eqb ext ".js") && negb (String.eqb ext ".json")
  then ([(info, "Skipping non-rules file: " +:+ fileName)], rules)
  else
    let rules := set ruleName (js_or (get ruleName rules) (VObj [])) rules in
    if String.eqb ext ".js"
    then ([], set_in ruleName "scriptFileName" (VStr (path_join dirPath fileName))
                (set_in ruleName "script" (VBool true) rules))
    else ([], set_in ruleName "metadataFileName" (VStr (path_join dirPath fileName))
                (set_in ruleName "metadata" (VBool true) rules)).

Definition rules_jobs (rules : obj) : list job :=
  map (fun ruleName => processRule ruleName (get ruleName rules)) (keys rules).

Definition getRules (dirPath : string) : promise value :=
  catch_
    (then_ (readdirAsync fs dirPath) (fun files =>
       let scan := forEach files (rules_file dirPath) [] in
       logging scan.1 (Promise_map fs (reads_of sched dirPath) (rules_jobs scan.2) 2)))
    (fun e =>
       if is_ENOENT e
       then logging [(info, "No rules configured")] (Promise_resolve VUndefined)
       else Promise_reject
              (Error ("Couldn't process the rules directory because: " +:+ message e))).

(** *** Clients and resource servers *)

Definition processConfigurableConfig (configurableName : string) (configurableFiles : value)
  : job :=
  let configurable := [("name", VStr configurableName)] in
  let attributeNames := [("configFileName", "configFile"); ("metadataFileName", "metadataFile")] in
  let filePromises :=
    concat (map (fun names : string * string =>
                   match configurableFiles with
                   | VObj files =>
                       if has names.1 files
                       then [(to_string (get names.1 files),
                              fun contents configurable => set names.2 (VStr contents) configurable)]
                       else []
                   | _ => []
                   end) attributeNames) in
  {| current := configurable; reads := filePromises |}.

(** The body of the [forEach] of [getConfigurableConfigs]. *)
Definition configurable_file (dirPath type fileName : string) (configurables : obj)
  : list log_line * obj :=
  let found := (debug, "Found " +:+ type +:+ " file: " +:+ fileName) in
  let fullFileName := path_join dirPath fileName in
  let ext := ext (path_parse fileName) in
  if negb (String.eqb ext ".json")
  then ([found; (info, "Ignoring non-" +:+ type +:+ " file: " +:+ fullFileName)], configurables)
  else
    let configurableName := name (path_parse fileName) in
    let meta := endsWith configurableName ".meta" in
    let configurableName :=
      if meta then name (path_parse configurableName) else configurableName in
    let configurables :=
      set configurableName (js_or (get configurableName configurables) (VObj [])) configurables in
    ([found],
     if meta
     then set_in configurableName "metadataFileName" (VStr fullFileName) configurables
     else set_in configurableName "configFileName" (VStr fullFileName) configurables).

Definition configurable_jobs (configurables : obj) : list job :=
  map (fun configurableName =>
         processConfigurableConfig configurableName (get configurableName configurables))
      (keys configurables).

Definition getConfigurableConfigs (dirPath type : string) : promise value :=
  catch_
    (then_ (readdirAsync fs dirPath) (fun files =>
       let scan := forEach files (configurable_file dirPath type) [] in
       logging scan.1 (Promise_map fs (reads_of sched dirPath) (configurable_jobs scan.2) 2)))
    (fun e =>
       if is_ENOENT e
       then logging [(info, "No " +:+ type +:+ "s configured")] (Promise_resolve VUndefined)
       else Promise_reject
              (Error ("Couldn't process " +:+ type +:+ " directory because: " +:+ message e))).

(** *** Database connections *)

(** [databaseObject] is an entry of the accumulator of [getDatabases]: an
    object with an array of scripts.  (Under a name that is [inherited] the
    accumulator would give what every object inherits, which has no
    scripts.) *)
Definition readDatabaseFiles (databaseName : string) (databaseObject : value) : job :=
  let database := [("name", VStr databaseName); ("scripts", VArr [])] in
  let scripts :=
    map (fun script =>
           (to_string (member "scriptFileName" script),
            fun contents database =>
              push "scripts"
                   (VObj [("name", member "name" script); ("scriptFile", VStr contents)])
                   database))
        (elements (member "scripts" databaseObject)) in
  let configuration :=
    if truthy (member "configurationFileName" databaseObject)
    then [(to_string (member "configurationFileName" databaseObject),
           fun contents database =>
             set "configurationFileName" (member "configurationFileName" databaseObject)
                 (set "configurationFile" (VStr contents) database))]
    else [] in
  {| current := database; reads := scripts ++ configuration |}.

(** The details object, or [null] for a file that is skipped. *)
Definition getDatabaseFileDetails (filename : string) : list log_line * value :=
  let baseFileName := basename filename in
  let firstDirname := dirname filename in
  let thisConnectionDir := basename firstDirname in
  let allConnectionsDir := basename (dirname firstDirname) in
  let found :=
    (debug, "Found filename: " +:+ filename +:+ ", base: " +:+ baseFileName
            +:+ ", thisConn: " +:+ thisConnectionDir +:+ ", allConn: " +:+ allConnectionsDir) in
  if String.eqb allConnectionsDir (DATABASE_CONNECTIONS_DIRECTORY K)
     && (test_suffix_i ".js" baseFileName || test_suffix_i ".json" baseFileName)
  then
    let isScript := test_suffix_i ".js" baseFileName in
    let scriptName := name (path_parse baseFileName) in
    let skipped :=
      (warn, "Skipping bad database file: " +:+ filename
             +:+ " because: not a valid DB script or configuration file: " +:+ scriptName) in
    if isScript
    then
      if (-1 <? indexOf scriptName (DATABASE_SCRIPTS K))%Z
      then ([found],
            VObj [("database", VStr thisConnectionDir);
                  ("name", VStr (name (path_parse scriptName)));
                  ("isScript", VBool true)])
      else ([found; skipped], VNull)
    else
      if String.eqb scriptName "configuration"
      then ([found], VObj [("database", VStr thisConnectionDir); ("isScript", VBool false)])
      else ([found; skipped], VNull)
  else
    ([found;
      (warn, "Skipping bad database file: " +:+ filename +:+ " because: bad database dirname: "
             +:+ allConnectionsDir +:+ ", or basename: " +:+ baseFileName)],
     VNull).

(** The body of the inner [forEach] of [getDatabases], for a connection
    directory whose name is not [inherited]: [databases[name]] is then the
    entry of the connection or [undefined]. *)
Definition database_file (fullDir fileName : string) (databases : obj) : list log_line * obj :=
  let fullFileName := path_join fullDir fileName in
  let r := getDatabaseFileDetails fullFileName in
  let details := r.2 in
  (r.1,
   if truthy details
   then
     let database := to_string (member "database" details) in
     let databases :=
       set database (js_or (get database databases) (VObj [("scripts", VArr [])])) databases in
     if truthy (member "isScript" details)
     then push_in database "scripts" (assign "scriptFileName" (VStr fullFileName) details) databases
     else set_in database "configurationFileName" (VStr fullFileName) databases
   else databases).

(** What happens when the listing of one connection directory completes:
    its files are classified, or the failure is logged and swallowed. *)
Definition database_directory (dirPath dirName : string) (databases : obj)
  : list log_line * obj :=
  let fullDir := path_join dirPath dirName in
  match readdir fs fullDir with
  | inr files => forEach files (database_file fullDir) databases
  | inl err =>
      ([(warn, "Skipping bad database scripts directory " +:+ fullDir
               +:+ " because: " +:+ message err)],
       databases)
  end.

Definition database_jobs (databases : obj) : list job :=
  map (fun databaseName => readDatabaseFiles databaseName (get databaseName databases))
      (keys databases).

(** The accumulator after every connection directory has been listed; the
    listings are started together and complete in the scheduled order. *)
Definition scan_databases (dirPath : string) (dirs : list string) : list log_line * obj :=
  let looking :=
    map (fun dirName =>
           (info, "Looking for database-connections in :" +:+ path_join dirPath dirName)) dirs in
  let scan := forEach (completion_order (listings sched) dirs) (database_directory dirPath) [] in
  (looking ++ scan.1, scan.2).

Definition getDatabases (dirPath : string) : promise value :=
  catch_
    (then_ (readdirAsync fs dirPath) (fun dirs =>
       let scan := scan_databases dirPath dirs in
       logging scan.1 (Promise_map fs (reads_of sched dirPath) (database_jobs scan.2) 2)))
    (fun e =>
       if is_ENOENT e
       then logging [(info, "No database scripts configured")] (Promise_resolve VUndefined)
       else Promise_reject
              (Error ("Couldn't process database scripts directory because: " +:+ message e))).

(** *** Pages, email templates and email providers *)

Definition processPage (pageName : string) (page : value) : job :=
  let currentPage := [("metadata", VBool false); ("name", VStr pageName)] in
  let html :=
    if truthy (member "fileName" page)
    then [(to_string (member "fileName" page),
           fun contents currentPage => set "htmlFile" (VStr contents) currentPage)]
    else [] in
  let metadata :=
    if truthy (member "metaFileName" page)
    then [(to_string (member "metaFileName" page),
           fun contents currentPage =>
             set "metadataFile" (VStr contents) (set "metadata" (VBool true) currentPage))]
    else [] in
  {| current := currentPage; reads := html ++ metadata |}.

Definition processEmailProvider (providerName : string) (provider : value) : job :=
  let currentProvider := [("name", VStr providerName)] in
  let config :=
    if truthy (member "fileName" provider)
    then [(to_string (member "fileName" provider),
           fun contents currentProvider => set "configFile" (VStr contents) currentProvider)]
    else [] in
  {| current := currentProvider; reads := config |}.

(** The body of the [forEach] of [getPages]. *)
Definition pages_file (dirPath fileName : string) (pages : obj) : list log_line * obj :=
  let fullFileName := path_join dirPath fileName in
  let r := isPage fullFileName in
  if r.2
  then
    let pageName := name (path_parse fileName) in
    let ext := ext (path_parse fileName) in
    let pages := set pageName (js_or (get pageName pages) (VObj [])) pages in
    (r.1,
     if negb (String.eqb ext ".json")
     then set_in pageName "fileName" (VStr fullFileName) pages
     else set_in pageName "metaFileName" (VStr fullFileName) pages)
  else (r.1 ++ [(warn, "Skipping file that is not a page: " +:+ fullFileName)], pages).

Definition pages_jobs (pages : obj) : list job :=
  map (fun pageName => processPage pageName (get pageName pages)) (keys pages).

Definition getPages (dirPath : string) : promise value :=
  catch_
    (then_ (readdirAsync fs dirPath) (fun files =>
       let scan := forEach files (pages_file dirPath) [] in
       logging scan.1 (Promise_map fs (reads_of sched dirPath) (pages_jobs scan.2) 2)))
    (fun e =>
       if is_ENOENT e
       then logging [(info, "No pages configured")] (Promise_resolve VUndefined)
       else Promise_reject
              (Error ("Couldn't process pages directory because: " +:+ message e))).

(** The body of the [forEach] of [getEmailTemplates]. *)
Definition templates_file (dirPath fileName : string) (templates : obj)
  : list log_line * obj :=
  let fullFileName := path_join dirPath fileName in
  if isEmailTemplate fullFileName
  then
    let templateName := name (path_parse fileName) in
    let ext := ext (path_parse fileName) in
    let templates := set templateName (js_or (get templateName templates) (VObj [])) templates in
    ([],
     if negb (String.eqb ext ".json")
     then set_in templateName "fileName" (VStr fullFileName) templates
     else set_in templateName "metaFileName" (VStr fullFileName) templates)
  else ([(warn, "Skipping file that is not an email template: " +:+ fullFileName)], templates).

Definition templates_jobs (templates : obj) : list job :=
  map (fun templateName => processPage templateName (get templateName templates))
      (keys templates).

Definition getEmailTemplates (dirPath : string) : promise value :=
  catch_
    (then_ (readdirAsync fs dirPath) (fun files =>
       let scan := forEach files (templates_file dirPath) [] in
       logging scan.1 (Promise_map fs (reads_of sched dirPath) (templates_jobs scan.2) 2)))
    (fun e =>
       if is_ENOENT e
       then logging [(info, "No email templates configured")] (Promise_resolve VUndefined)
       else Promise_reject
              (Error ("Couldn't process the email templates directory because: " +:+ message e))).

(** The body of the [forEach] of [getEmailProviders]. *)
Definition providers_file (dirPath fileName : string) (providers : obj)
  : list log_line * obj :=
  let fullFileName := path_join dirPath fileName in
  if isEmailProvider fullFileName
  then
    let providerName := name (path_parse fileName) in
    let providers := set providerName (js_or (get providerName providers) (VObj [])) providers in
    ([], set_in providerName "fileName" (VStr fullFileName) providers)
  else ([(warn, "Skipping file that is not an email provider: " +:+ fullFileName)], providers).

Definition providers_jobs (providers : obj) : list job :=
  map (fun providerName => processEmailProvider providerName (get providerName providers))
      (keys providers).

Definition getEmailProviders (dirPath : string) : promise value :=
  catch_
    (then_ (readdirAsync fs dirPath) (fun files =>
       let scan := forEach files (providers_file dirPath) [] in
       logging scan.1 (Promise_map fs (reads_of sched dirPath) (providers_jobs scan.2) 2)))
    (fun e =>
       if is_ENOENT e
       then logging [(info, "No email providers configured")] (Promise_resolve VUndefined)
       else Promise_reject
              (Error ("Couldn't process the email providers directory because: " +:+ message e))).

(** *** The aggregation *)

(** The seven collectors as [getChanges] starts them, under the names of
    the object it hands to [Promise.props]. *)
Definition collectors (fullPath : string) : list (string * promise value) :=
  [("rules", getRules (path_join fullPath (RULES_DIRECTORY K)));
   ("pages", getPages (path_join fullPath (PAGES_DIRECTORY K)));
   ("databases", getDatabases (path_join fullPath (DATABASE_CONNECTIONS_DIRECTORY K)));
   ("clients", getConfigurableConfigs (path_join fullPath (CLIENTS_DIRECTORY K)) "client");
   ("resourceServers",
    getConfigurableConfigs (path_join fullPath (RESOURCE_SERVERS_DIRECTORY K)) "resource server");
   ("emailTemplates", getEmailTemplates (path_join fullPath (EMAIL_TEMPLATES_DIRECTORY K)));
   ("emailProviders", getEmailProviders (path_join fullPath (EMAIL_PROVIDERS_DIRECTORY K)))].

Definition getChanges (filePath : string) (mappings : value) : promise value :=
  let fullPath := path_resolve filePath in
  match lstatSync fs fullPath with
  | inl e =>
      Promise_reject (Error ("Can't process " +:+ fullPath +:+ " because: " +:+ message e))
  | inr IsDirectory =>
      logging [(info, "Processing " +:+ filePath +:+ " as directory " +:+ fullPath)]
        (then_ (Promise_props (settling sched) (collectors fullPath)) (fun result =>
           Promise_resolve
             (VObj [("rules", unifyScripts (get "rules" result) mappings);
                    ("databases", unifyDatabases (get "databases" result) mappings);
                    ("pages", unifyScripts (get "pages" result) mappings);
                    ("clients", unifyScripts (get "clients" result) mappings);
                    ("resourceServers", unifyScripts (get "resourceServers" result) mappings);
                    ("emailTemplates", unifyScripts (get "emailTemplates" result) mappings);
                    ("emailProviders", unifyScripts (get "emailProviders" result) mappings)])))
  | inr IsFile =>
      match readFile fs fullPath with
      | inl e => {| logged := []; settled := Thrown e |}
      | inr text =>
          match JSON_parse text with
          | inl e => {| logged := []; settled := Thrown e |}
          | inr document => Promise_resolve document
          end
      end
  | inr _ =>
      Promise_reject
        (Error ("Not sure what to do with, " +:+ fullPath +:+ ", it is not a file or directory..."))
  end.

(** *** The context *)

Record Context := {
  fileName : string;
  mappings : value;
  pages : value;
  rules : value;
  databases : value;
  clients : value;
  resourceServers : value;
  emailTemplates : value;
  emailProviders : value
}.

(** [new Context(fileName, mappings)]. *)
Definition new_Context (fileName : string) (mappings : value) : Context :=
  {| fileName := fileName; mappings := mappings;
     pages := VUndefined; rules := VUndefined; databases := VUndefined;
     clients := VUndefined; resourceServers := VUndefined;
     emailTemplates := VUndefined; emailProviders := VUndefined |}.

(** The mappings [init] goes on with:
    [me.mappings || (progress && progress.mappings)]. *)
Definition effective_mappings (me : Context) (progress : value) : value :=
  js_or (mappings me) (js_and progress (member "mappings" progress)).

(** [me.init(progress)]; the context it resolves with is [me] after the
    assignments. *)
Definition init (me : Context) (progress : value) : promise Context :=
  let mappings := effective_mappings me progress in
  then_ (getChanges (fileName me) mappings) (fun data =>
    match data with
    | VUndefined =>
        Promise_reject (Error "Cannot read property 'pages' of undefined")
    | VNull =>
        Promise_reject (Error "Cannot read property 'pages' of null")
    | _ =>
        Promise_resolve
          {| fileName := fileName me; mappings := mappings;
             pages := js_or (member "pages" data) (VObj []);
             rules := js_or (member "rules" data) (VObj []);
             databases := js_or (member "databases" data) (VArr []);
             clients := js_or (member "clients" data) (VObj []);
             resourceServers := js_or (member "resourceServers" data) (VObj []);
             emailTemplates := js_or (member "emailTemplates" data) (VObj []);
             emailProviders := js_or (member "emailProviders" data) (VObj []) |}
    end).

End Loader.

(** ** Concrete trees, constants and collaborators for the examples *)

(** A directory tree; [Link] is a symbolic link whose target is missing. *)
Inductive node : Type :=
| File (contents : string)
| Dir (entries : list (string * node))
| Link.

Fixpoint split_on (c : ascii) (s : string) : list string :=
  match s with
  | EmptyString => [EmptyString]
  | String a r =>
      if Ascii.eqb a c then EmptyString :: split_on c r
      else match split_on c r with
           | [] => [String a EmptyString]
           | w :: ws => String a w :: ws
           end
  end.

Definition components (p : string) : list string :=
  filter (fun w => w <> ""%string) (split_on "/" p).

Fixpoint entry (k : string) (es : list (string * node)) : option node :=
  match es with
  | [] => None
  | (k', n) :: r => if String.eqb k k' then Some n else entry k r
  end.

Inductive lookup_failure := Missing | NotADirectory.

Fixpoint walk (parts : list string) (n : node) : lookup_failure + node :=
  match parts with
  | [] => inr n
  | p :: r =>
      match n with
      | Dir es =>
          match entry p es with
          | Some child => walk r child
          | None => inl Missing
          end
      | File _ => inl NotADirectory
      | Link => inl Missing
      end
  end.

Definition ENOENT (syscall p : string) : js_error :=
  {| code := Some "ENOENT"%string;
     message := "ENOENT: no such file or directory, " +:+ syscall +:+ " '" +:+ p +:+ "'" |}.

Definition ENOTDIR (syscall p : string) : js_error :=
  {| code := Some "ENOTDIR"%string;
     message := "ENOTDIR: not a directory, " +:+ syscall +:+ " '" +:+ p +:+ "'" |}.

Definition EISDIR : js_error :=
  {| code := Some "EISDIR"%string;
     message := "EISDIR: illegal operation on a directory, read" |}.

Definition lookup_error (f : lookup_failure) (syscall p : string) : js_error :=
  match f with
  | Missing => ENOENT syscall p
  | NotADirectory => ENOTDIR syscall p
  end.

(** The file system that holds the tree [root] at [/]. *)
Definition tree_fs (root : node) : filesystem :=
  {| lstatSync := fun p =>
       match walk (components p) root with
       | inl f => inl (lookup_error f "lstat" p)
       | inr (File _) => inr IsFile
       | inr (Dir _) => inr IsDirectory
       | inr Link => inr IsSymbolicLink
       end;
     readdir := fun p =>
       match walk (components p) root with
       | inl f => inl (lookup_error f "scandir" p)
       | inr (File _) => inl (ENOTDIR "scandir" p)
       | inr (Dir es) => inr (map fst es)
       | inr Link => inl (ENOENT "scandir" p)
       end;
     readFile := fun p =>
       match walk (components p) root with
       | inl f => inl (lookup_error f "open" p)
       | inr (File contents) => inr contents
       | inr (Dir _) => inl EISDIR
       | inr Link => inl (ENOENT "open" p)
       end |}.

(** The constants as the package defines them. *)
Definition tools_constants : constants :=
  {| RULES_DIRECTORY := "rules";
     PAGES_DIRECTORY := "pages";
     PAGE_NAMES :=
       ["guardian_multifactor.html"; "guardian_multifactor.json";
        "password_reset.html"; "password_reset.json";
        "login.html"; "login.json"; "error_page.html"; "error_page.json"]%string;
     DATABASE_CONNECTIONS_DIRECTORY := "database-connections";
     DATABASE_SCRIPTS :=
       ["get_user"; "create"; "verify"; "login"; "change_password"; "delete";
        "change_email"]%string;
     CLIENTS_DIRECTORY := "clients";
     RESOURCE_SERVERS_DIRECTORY := "resource-servers";
     EMAIL_TEMPLATES_DIRECTORY := "email-templates";
     EMAIL_TEMPLATE_FILENAMES :=
       ["verify_email.html"; "verify_email.json"; "reset_email.html"; "reset_email.json";
        "welcome_email.html"; "welcome_email.json"]%string;
     EMAIL_PROVIDERS_DIRECTORY := "email-providers";
     EMAIL_PROVIDER_FILENAME := "default.json" |}.

(** A transform that keys the entities by name and substitutes nothing. *)
Definition keyed_by_name (data mappings : value) : value :=
  VObj (map (fun item => (to_string (member "name" item), item)) (elements data)).

(** A transform that keeps the connections as they are. *)
Definition connections_as_loaded (data mappings : value) : value :=
  VArr (elements data).

(** [JSON.parse] on the documents of the examples. *)
Definition parse_documents (documents : list (string * value)) (text : string)
  : js_error + value :=
  match list_find (fun d => d.1 = text) documents with
  | Some (_, d) => inr d.2
  | None => inl (Error "Unexpected token")
  end.

(** [path.resolve] on a path that is already absolute and normalised. *)
Definition resolve_absolute (p : string) : string := p.

(** The trees of the examples. *)
Definition repo_empty : node := Dir [("repo", Dir [])]%string.

Definition repo_pages_file : node :=
  Dir [("repo", Dir [("pages", File "junk")])]%string.

Definition repo_connections : node :=
  Dir [("repo",
        Dir [("database-connections",
              Dir [("db1", Dir [("login.js", File "function login() { }");
                                ("create.js", File "function create() { }");
                                ("junk.json", File "junk")]);
                   (".DSStore", File "junk");
                   ("db2", Dir [("login.js", File "function login2() { }")])])])]%string.

Definition repo_duplicate_scripts : node :=
  Dir [("repo",
        Dir [("database-connections",
              Dir [("db1", Dir [("login.js", File "function one() { }");
                                ("login.JS", File "function two() { }")])])])]%string.

Definition repo_clients : node :=
  Dir [("repo",
        Dir [("clients",
              Dir [("someClient.json", File "{ }");
                   ("someClient.meta.json", File "{ meta }");
                   ("README.md", File "something")])])]%string.

Definition repo_dot_meta : node :=
  Dir [("repo", Dir [("clients", Dir [(".meta.json", File "{ meta }")])])]%string.

Definition repo_meta_meta : node :=
  Dir [("repo",
        Dir [("clients",
              Dir [("a.meta.json", File "{ meta of a }");
                   ("a.meta.meta.json", File "{ meta of a.meta }")])])]%string.

Definition repo_rules : node :=
  Dir [("repo",
        Dir [("rules",
              Dir [("a.js", File "function a() { }"); ("a.json", File "{ }");
                   ("b.js", File "function b() { }"); ("b.json", File "{ }")])])]%string.

Definition repo_link : node := Dir [("link", Link)]%string.

Definition quote : string := String (ascii_of_nat 34) "".

(** The text [{QdatabasesQ:[{QnameQ:Qdb1Q}]}], with a double quote for
    every Q, and the document it stands for. *)
Definition descriptor_text : string :=
  "{" +:+ quote +:+ "databases" +:+ quote +:+ ":[{" +:+ quote +:+ "name" +:+ quote +:+ ":"
      +:+ quote +:+ "db1" +:+ quote +:+ "}]}".

Definition descriptor_document : obj :=
  [("databases", VArr [VObj [("name", VStr "db1")]])]%string.

Definition repo_descriptor : node := Dir [("asFile.json", File descriptor_text)]%string.

(** Two schedules that are not completion in issue order: the listings
    complete last to first, or the reads do. *)
Definition listings_reversed : schedule :=
  {| reads_of := fun _ => []; listings := [1; 1; 1; 1]; settling := [] |}.

Definition reads_reversed : schedule :=
  {| reads_of := fun _ => [1; 1; 1; 1]; listings := []; settling := [] |}.

(** ** The seven resource types *)

Inductive resource :=
| Rules | Pages | Databases | Clients | ResourceServers | EmailTemplates | EmailProviders.

#[global] Instance resource_eq_dec : EqDecision resource.
Proof. solve_decision. Defined.

Definition resources : list resource :=
  [Rules; Pages; Databases; Clients; ResourceServers; EmailTemplates; EmailProviders].

(** The subdirectory [getChanges] scans for a type. *)
Definition directory (K : constants) (t : resource) : string :=
  match t with
  | Rules => RULES_DIRECTORY K
  | Pages => PAGES_DIRECTORY K
  | Databases => DATABASE_CONNECTIONS_DIRECTORY K
  | Clients => CLIENTS_DIRECTORY K
  | ResourceServers => RESOURCE_SERVERS_DIRECTORY K
  | EmailTemplates => EMAIL_TEMPLATES_DIRECTORY K
  | EmailProviders => EMAIL_PROVIDERS_DIRECTORY K
  end.

(** The name of a type in the object of [getChanges] and in the context. *)
Definition key (t : resource) : string :=
  match t with
  | Rules => "rules"
  | Pages => "pages"
  | Databases => "databases"
  | Clients => "clients"
  | ResourceServers => "resourceServers"
  | EmailTemplates => "emailTemplates"
  | EmailProviders => "emailProviders"
  end.

(** The collector [getChanges] starts for a type. *)
Definition collect (K : constants) (fs : filesystem) (sched : schedule) (fullPath : string)
    (t : resource) : promise value :=
  let dirPath := path_join fullPath (directory K t) in
  match t with
  | Rules => getRules fs sched dirPath
  | Pages => getPages K fs sched dirPath
  | Databases => getDatabases K fs sched dirPath
  | Clients => getConfigurableConfigs fs sched dirPath "client"
  | ResourceServers => getConfigurableConfigs fs sched dirPath "resource server"
  | EmailTemplates => getEmailTemplates K fs sched dirPath
  | EmailProviders => getEmailProviders K fs sched dirPath
  end.

(** The transform [getChanges] applies to a type's raw collection. *)
Definition transform (unifyScripts unifyDatabases : value -> value -> value) (t : resource)
  : value -> value -> value :=
  match t with
  | Databases => unifyDatabases
  | _ => unifyScripts
  end.

(** The field of the context [init] assigns for a type, and the value it
    falls back to. *)
Definition field (t : resource) (me : Context) : value :=
  match t with
  | Rules => rules me
  | Pages => pages me
  | Databases => databases me
  | Clients => clients me
  | ResourceServers => resourceServers me
  | EmailTemplates => emailTemplates me
  | EmailProviders => emailProviders me
  end.

Definition empty_default (t : resource) : value :=
  match t with
  | Databases => VArr []
  | _ => VObj []
  end.

(** What each collector puts before the underlying message when it rejects. *)
Definition rejection_prefix (t : resource) : string :=
  match t with
  | Rules => "Couldn't process the rules directory because: "
  | Pages => "Couldn't process pages directory because: "
  | Databases => "Couldn't process database scripts directory because: "
  | Clients => "Couldn't process client directory because: "
  | ResourceServers => "Couldn't process resource server directory because: "
  | EmailTemplates => "Couldn't process the email templates directory because: "
  | EmailProviders => "Couldn't process the email providers directory because: "
  end.

(** The jobs a type's collector hands to [Promise.map] once its directory
    has been listed. *)
Definition scanned (K : constants) (fs : filesystem) (sched : schedule) (dirPath : string)
    (t : resource) (names : list string) : list job :=
  match t with
  | Rules => rules_jobs (forEach names (rules_file dirPath) []).2
  | Pages => pages_jobs (forEach names (pages_file K dirPath) []).2
  | Databases => database_jobs (scan_databases K fs sched dirPath names).2
  | Clients => configurable_jobs (forEach names (configurable_file dirPath "client") []).2
  | ResourceServers =>
      configurable_jobs (forEach names (configurable_file dirPath "resource server") []).2
  | EmailTemplates => templates_jobs (forEach names (templates_file K dirPath) []).2
  | EmailProviders => providers_jobs (forEach names (providers_file K dirPath) []).2
  end.

Definition jobs_of (K : constants) (fs : filesystem) (sched : schedule) (fullPath : string)
    (t : resource) : list job :=
  let dirPath := path_join fullPath (directory K t) in
  match readdir fs dirPath with
  | inr names => scanned K fs sched dirPath t names
  | inl _ => []
  end.

(** The states a type's collector passes through while it loads contents. *)
Definition loads (K : constants) (fs : filesystem) (sched : schedule) (fullPath : string)
    (t : resource) : list (list slot) :=
  let dirPath := path_join fullPath (directory K t) in
  match readdir fs dirPath with
  | inr names =>
      load_states fs (reads_of sched dirPath) (scanned K fs sched dirPath t names) 2
  | inl _ => []
  end.

(** What a collector's handler makes of the outcome of the load. *)
Definition handled (t : resource) (o : outcome value) : outcome value :=
  match o with
  | Rejected e =>
      if is_ENOENT e then Resolved VUndefined
      else Rejected (Error (rejection_prefix t +:+ message e))
  | _ => o
  end.

(** The largest number of reads one mapper call issues. *)
Definition most_reads (jobs : list job) : nat := max_list (length ∘ reads <$> jobs).

Definition reads_per_call (t : resource) (jobs : list job) : nat :=
  match t with
  | Databases => most_reads jobs
  | EmailProviders => 1
  | _ => 2
  end.

(** The update every scanner makes for a file it recognises:
    [acc[n] = acc[n] || {}; acc[n].attribute = v]. *)
Definition upsert (n attribute : string) (v : value) (acc : obj) : obj :=
  set_in n attribute v (set n (js_or (get n acc) (VObj [])) acc).

(** An accumulator of the scanners: every entry is an object. *)
Definition objects_only (acc : obj) : Prop :=
  Forall (fun kv => ∃ o, kv.2 = VObj o) acc.

(** How [getConfigurableConfigs] reads a file name: the entry it belongs to
    and the attribute that receives its path, or nothing when the file is
    ignored. *)
Definition configurable_role (fileName : string) : option (string * string) :=
  if negb (String.eqb (ext (path_parse fileName)) ".json") then None
  else
    let configurableName := name (path_parse fileName) in
    if endsWith configurableName ".meta"
    then Some (name (path_parse configurableName), "metadataFileName"%string)
    else Some (configurableName, "configFileName"%string).

(** The scan of a directory whose files each update one attribute of one
    entry. *)
Definition scan_roles (role : string -> option (string * string)) (dirPath : string)
    (names : list string) (acc : obj) : obj :=
  fold_left (fun acc fileName =>
               match role fileName with
               | Some (n, attribute) => upsert n attribute (VStr (path_join dirPath fileName)) acc
               | None => acc
               end) names acc.

(** How [getDatabaseFileDetails] reads the name of a file of a connection
    directory: a script with its name, the configuration, or nothing when
    the file is skipped. *)
Definition database_role (K : constants) (fileName : string) : option (option string) :=
  if test_suffix_i ".js" fileName || test_suffix_i ".json" fileName
  then
    let scriptName := name (path_parse fileName) in
    if test_suffix_i ".js" fileName
    then if (-1 <? indexOf scriptName (DATABASE_SCRIPTS K))%Z
         then Some (Some (name (path_parse scriptName)))
         else None
    else if String.eqb scriptName "configuration" then Some None else None
  else None.

Definition is_script (K : constants) (fileName : string) : bool :=
  match database_role K fileName with
  | Some (Some _) => true
  | _ => false
  end.

Definition recognized (K : constants) (fileName : string) : bool :=
  match database_role K fileName with
  | Some _ => true
  | None => false
  end.

(** The entry of a connection in the accumulator of [getDatabases], or the
    one a first file starts from. *)
Definition entry_or_default (v : value) : obj :=
  match v with
  | VObj entry => entry
  | _ => [("scripts", VArr [])]
  end.

(** What one file of the connection directory [fullDir] of the connection
    [database] does to the connection's entry. *)
Definition connection_file (K : constants) (database fullDir fileName : string) (entry : obj)
  : obj :=
  match database_role K fileName with
  | Some (Some scriptName) =>
      push "scripts"
           (VObj [("database", VStr database); ("name", VStr scriptName);
                  ("isScript", VBool true);
                  ("scriptFileName", VStr (path_join fullDir fileName))])
           entry
  | Some None => set "configurationFileName" (VStr (path_join fullDir fileName)) entry
  | None => entry
  end.

(** The entry of the connection [database] once the files of its directory
    have been classified, starting from [entry]. *)
Definition connection_files (K : constants) (dirPath database : string) (files : list string)
    (entry : obj) : obj :=
  fold_left (fun entry fileName =>
               connection_file K database (path_join dirPath database) fileName entry)
            files entry.

(** The details [getDatabases] keeps of the script file [fileName]. *)
Definition script_details (database fullDir fileName : string) : value :=
  VObj [("database", VStr database);
        ("name", VStr (name (path_parse (name (path_parse fileName)))));
        ("isScript", VBool true);
        ("scriptFileName", VStr (path_join fullDir fileName))].

(** The read [readDatabaseFiles] issues for the script file [fileName]. *)
Definition script_read (fullDir fileName : string) : file_read :=
  (path_join fullDir fileName,
   fun contents database =>
     push "scripts"
          (VObj [("name", VStr (name (path_parse (name (path_parse fileName)))));
                 ("scriptFile", VStr contents)])
          database).

(** A read of a job as a script file or as some other read. *)
Definition tagged_read (fullDir : string) (t : string + file_read) : file_read :=
  match t with
  | inl fileName => script_read fullDir fileName
  | inr r => r
  end.

Definition tagged_script (t : string + file_read) : option string :=
  match t with
  | inl fileName => Some fileName
  | inr _ => None
  end.

(** An accumulator of [getDatabases]: the names are distinct and every
    entry is an object with an array of scripts. *)
Definition connections_only (acc : obj) : Prop :=
  NoDup acc.*1
  ∧ Forall (fun kv => ∃ entry scripts, kv.2 = VObj entry ∧ get "scripts" entry = VArr scripts)
           acc.

(** The element of a connection's [scripts] that the script file
    [fileName] of the directory [fullDir] is loaded into. *)
Definition loaded_script (fs : filesystem) (fullDir fileName : string) : value :=
  VObj [("name", VStr (name (path_parse (name (path_parse fileName)))));
        ("scriptFile", VStr match readFile fs (path_join fullDir fileName) with
                            | inr contents => contents
                            | inl _ => ""
                            end)].

(** Every connection directory lists plain names. *)
Definition well_listed (fs : filesystem) (dirPath : string) (dirs : list string) : bool :=
  forallb (fun dirName => match readdir fs (path_join dirPath dirName) with
                          | inr files => forallb plain_name files
                          | inl _ => true
                          end) dirs.

(** Two values that differ at most in the order of the elements of an
    array. *)
Definition same_up_to_order (v1 v2 : value) : Prop :=
  match v1, v2 with
  | VArr l1, VArr l2 => l1 ≡ₚ l2
  | _, _ => v1 = v2
  end.

(** Two objects with the same properties, whatever the order of the
    properties and of the elements of a property that is an array. *)
Definition alike (o1 o2 : obj) : Prop :=
  ∀ k, same_up_to_order (get k o1) (get k o2).

(** The completion of one read: its callback runs on the contents. *)
Definition apply_read (fs : filesystem) (r : file_read) (o : obj) : obj :=
  match readFile fs r.1 with
  | inr contents => r.2 contents o
  | inl _ => o
  end.

(** Reads whose completion order shows at most in the order of properties
    and of array elements. *)
Definition orderless (fs : filesystem) (rs : list file_read) : Prop :=
  Forall (fun r => ∀ o1 o2, alike o1 o2 → alike (apply_read fs r o1) (apply_read fs r o2)) rs
  ∧ ∀ r1 r2 o, r1 ∈ rs → r2 ∈ rs →
               alike (apply_read fs r1 (apply_read fs r2 o))
                     (apply_read fs r2 (apply_read fs r1 o)).

(** Names in the order of the whitelist, each at most once. *)
Fixpoint subsequence (names whitelist : list string) {struct whitelist} : bool :=
  match names, whitelist with
  | [], _ => true
  | _ :: _, [] => false
  | n :: ns, w :: ws => if String.eqb n w then subsequence ns ws else subsequence names ws
  end.

(** The names of the scripts of a loaded connection, first to last. *)
Definition script_names (connection : value) : list string :=
  map (fun script => to_string (member "name" script))
      (elements (member "scripts" connection)).

(** The template the specification gives for every type. *)
Definition specified_message (resource_label underlying : string) : string :=
  "Couldn't process the " +:+ resource_label +:+ " directory because: " +:+ underlying.

(** ** What the scans find *)

(** The accumulator a type's collector has filled when its directory has
    been listed: one property for each entity found. *)
Definition found (K : constants) (fs : filesystem) (sched : schedule) (dirPath : string)
    (t : resource) (names : list string) : obj :=
  match t with
  | Rules => (forEach names (rules_file dirPath) []).2
  | Pages => (forEach names (pages_file K dirPath) []).2
  | Databases => (scan_databases K fs sched dirPath names).2
  | Clients => (forEach names (configurable_file dirPath "client") []).2
  | ResourceServers => (forEach names (configurable_file dirPath "resource server") []).2
  | EmailTemplates => (forEach names (templates_file K dirPath) []).2
  | EmailProviders => (forEach names (providers_file K dirPath) []).2
  end.

(** How [getRules] reads a file name: the rule the file belongs to and
    whether it is the rule's script, or nothing when the file is skipped. *)
Definition rules_role (fileName : string) : option (string * bool) :=
  let e := ext (path_parse fileName) in
  if negb (String.eqb e ".js") && negb (String.eqb e ".json") then None
  else Some (name (path_parse fileName), String.eqb e ".js").

(** What the body of the [forEach] of [getRules] assigns to the attribute
    [a] of the rule [k] on a file, if anything. *)
Definition rules_writes (dirPath fileName k a : string) : option value :=
  match rules_role fileName with
  | Some (n, isScript) =>
      if String.eqb k n
      then if String.eqb a (if isScript then "scriptFileName" else "metadataFileName")
           then Some (VStr (path_join dirPath fileName))
           else if String.eqb a (if isScript then "script" else "metadata")
                then Some (VBool true)
                else None
      else None
  | None => None
  end.

Definition rules_touches (fileName k : string) : bool :=
  match rules_role fileName with
  | Some (n, _) => String.eqb k n
  | None => false
  end.

(** How [getPages] and [getEmailTemplates] read the name of a file that
    passed their test: the entity it belongs to and the attribute that
    receives its path. *)
Definition page_role (accepted : bool) (fileName : string) : option (string * string) :=
  if accepted
  then Some (name (path_parse fileName),
             if negb (String.eqb (ext (path_parse fileName)) ".json")
             then "fileName"%string else "metaFileName"%string)
  else None.

Definition pages_role (K : constants) (dirPath fileName : string) : option (string * string) :=
  page_role (isPage K (path_join dirPath fileName)).2 fileName.

Definition templates_role (K : constants) (dirPath fileName : string)
  : option (string * string) :=
  page_role (isEmailTemplate K (path_join dirPath fileName)) fileName.

(** The same for [getEmailProviders]. *)
Definition providers_role (K : constants) (dirPath fileName : string)
  : option (string * string) :=
  if isEmailProvider K (path_join dirPath fileName)
  then Some (name (path_parse fileName), "fileName"%string)
  else None.

(** The line a collector logs when its directory does not exist. *)
Definition absent_line (t : resource) : log_line :=
  (info,
   match t with
   | Rules => "No rules configured"
   | Pages => "No pages configured"
   | Databases => "No database scripts configured"
   | Clients => "No clients configured"
   | ResourceServers => "No resource servers configured"
   | EmailTemplates => "No email templates configured"
   | EmailProviders => "No email providers configured"
   end%string).

(** More trees for the examples. *)
Definition repo_sparse_connections : node :=
  Dir [("repo",
        Dir [("database-connections",
              Dir [("db1", Dir [("configuration.json", File "{ }")]);
                   ("db2", Dir [("README.md", File "notes")]);
                   ("db3", Dir [])])])]%string.

Definition repo_configured_connection : node :=
  Dir [("repo",
        Dir [("database-connections",
              Dir [("db1", Dir [("login.js", File "function login() { }");
                                ("configuration.json", File "{ options }")])])])]%string.

Definition repo_dangling_rule : node :=
  Dir [("repo",
        Dir [("rules", Dir [("a.js", Link); ("b.js", File "function b() { }")])])]%string.

Definition repo_mixed_rules : node :=
  Dir [("repo",
        Dir [("rules",
              Dir [("a.js", File "function a() { }"); ("README.md", File "notes");
                   ("b.JS", File "function b() { }")])])]%string.

Definition repo_pages : node :=
  Dir [("repo",
        Dir [("pages",
              Dir [("login.html", File "<html>login</html>"); ("login.json", File "{ enabled }");
                   ("notes.txt", File "notes")])])]%string.

Definition repo_templates : node :=
  Dir [("repo",
        Dir [("email-templates",
              Dir [("verify_email.html", File "<html>verify</html>");
                   ("verify_email.json", File "{ enabled }");
                   ("junk.md", File "notes")])])]%string.

Definition repo_providers : node :=
  Dir [("repo",
        Dir [("email-providers",
              Dir [("default.json", File "{ smtp }"); ("other.json", File "{ other }")])])]%string.

(** The warning [getDatabaseFileDetails] logs for the file [fileName] of a
    connection directory when it skips it. *)
Definition skipped_line (K : constants) (fullDir fileName : string) : log_line :=
  (warn,
   "Skipping bad database file: " +:+ path_join fullDir fileName +:+ " because: "
   +:+ (if test_suffix_i ".js" fileName || test_suffix_i ".json" fileName
        then "not a valid DB script or configuration file: " +:+ name (path_parse fileName)
        else "bad database dirname: " +:+ DATABASE_CONNECTIONS_DIRECTORY K
             +:+ ", or basename: " +:+ fileName)).

(** [a in v], for [v] an entry of an accumulator. *)
Definition present (a : string) (v : value) : bool :=
  match v with
  | VObj entry => has a entry
  | _ => false
  end.

Definition repo_orphan_metadata : node :=
  Dir [("repo", Dir [("clients", Dir [("lonely.meta.json", File "{ meta }")])])]%string.

(** ** The names a scan gives its accumulator *)

(** The entity names a listing gives under a reading of file names. *)
Definition named {A : Type} (role : string -> option (string * A)) (names : list string)
  : list string :=
  omap (fun fileName => fst <$> role fileName) names.

(** The names a type's collector indexes its accumulator with on a listing:
    the entity of each file it accepts and, for the connections, the
    directory of each file. *)
Definition indexed (K : constants) (dirPath : string) (t : resource) (names : list string)
  : list string :=
  match t with
  | Rules => named rules_role names
  | Pages => named (pages_role K dirPath) names
  | Databases => names
  | Clients | ResourceServers => named configurable_role names
  | EmailTemplates => named (templates_role K dirPath) names
  | EmailProviders => named (providers_role K dirPath) names
  end.

(** ** The order in which the scripts of a connection are read *)

(** The reads of the contents of the connections, in the order in which
    they complete under a schedule, each under the position of its
    connection among the keys of the accumulator. *)
Definition reads_completed (K : constants) (fs : filesystem) (sched : schedule)
    (dirPath : string) (dirs : list string) : list (nat * file_read) :=
  map_completions fs (reads_of sched dirPath)
    (database_jobs (scan_databases K fs sched dirPath dirs).2) 2.

(** The script files among the paths read, first to last. *)
Definition script_files (K : constants) (order : list file_read) : list string :=
  map basename (List.filter (fun p => is_script K (basename p)) (map fst order)).

(** The script files of the connection at position [i], in the order in
    which their reads complete. *)
Definition scripts_completed (K : constants) (fs : filesystem) (sched : schedule)
    (dirPath : string) (dirs : list string) (i : nat) : list string :=
  script_files K (completed_by i (reads_completed K fs sched dirPath dirs)).

(** The tree of the test of two database connections: the files of each
    connection in the order in which the test writes them. *)
Definition repo_two_connections : node :=
  Dir [("connections1",
        Dir [("database-connections",
              Dir [("db1",
                    Dir [("login.js", File "function login() { var hello = @@hello@@; }");
                         ("create.js", File "function create() { }");
                         ("delete.js", File "function delete() { }");
                         ("change_email.js", File "function change_email() { }");
                         ("get_user.js", File "function get_user() { }")]);
                   ("db2",
                    Dir [("login.js", File "function login2() { }");
                         ("create.js", File "function create2() { }")])])])]%string.

(** Two metadata files of the entry named [.meta]. *)
Definition repo_two_metadata : node :=
  Dir [("repo",
        Dir [("clients",
              Dir [(".meta.meta.json", File "{ first }");
                   (".meta.json", File "{ second }")])])]%string.

(** A transform that keeps its data beside the mappings it is given. *)
Definition with_mappings (data mappings : value) : value :=
  VObj [("data", data); ("mappings", mappings)].

(** * Properties *)

(** ** Completion orders are permutations *)

Lemma insert_at_perm {A} (n : nat) (x : A) (l : list A) : insert_at n x l ≡ₚ x :: l.
Proof.
  revert n; induction l as [|y r IH]; intros [|n]; simpl; try reflexivity.
  rewrite IH. apply Permutation_swap.
Qed.

Lemma completion_order_perm {A} (choices : list nat) (l : list A) :
  completion_order choices l ≡ₚ l.
Proof.
  revert choices; induction l as [|x r IH]; intros choices; simpl; [reflexivity|].
  rewrite insert_at_perm. by rewrite IH.
Qed.

Lemma completion_order_in_order {A} (l : list A) : completion_order [] l = l.
Proof.
  induction l as [|x r IH]; [done|].
  cbn [completion_order hd tl]. rewrite IH, Nat.Div0.mod_0_l. done.
Qed.

(** ** Promise combinators *)

Lemma first_rejection_None {A} (l : list (outcome A)) :
  first_rejection l = None ↔ Forall (fun o => ∃ a, o = Resolved a) l.
Proof.
  induction l as [|o r IH]; simpl.
  - split; [constructor | done].
  - destruct o; split; intros H; try done.
    + constructor; [eauto | by apply IH].
    + inversion H; subst. by apply IH.
    + inversion H as [|? ? [a Ha]]; done.
    + inversion H as [|? ? [a Ha]]; done.
Qed.

Lemma first_rejection_Some {A} (l : list (outcome A)) (e : js_error) :
  first_rejection l = Some e → Rejected e ∈ l ∨ Thrown e ∈ l.
Proof.
  induction l as [|o r IH]; simpl; [done|].
  destruct o; intros H.
  - destruct (IH H); [left | right]; by constructor.
  - inversion H; subst. left. constructor.
  - inversion H; subst. right. constructor.
Qed.

Lemma Promise_props_settled (choices : list nat) (promises : list (string * promise value)) :
  match settled (Promise_props choices promises) with
  | Resolved result =>
      result = map (fun kp => (kp.1, resolved_value (settled kp.2))) promises
      ∧ Forall (fun kp => ∃ v, settled kp.2 = Resolved v) promises
  | Rejected e =>
      ∃ kp, kp ∈ promises ∧ (settled kp.2 = Rejected e ∨ settled kp.2 = Thrown e)
  | Thrown _ => False
  end.
Proof.
  unfold Promise_props; simpl.
  destruct (first_rejection _) as [e|] eqn:Hf.
  - apply first_rejection_Some in Hf.
    rewrite !completion_order_perm in Hf.
    rewrite !list_elem_of_fmap in Hf.
    destruct Hf as [(kp & ? & ?)|(kp & ? & ?)]; exists kp; eauto.
  - split; [done|].
    apply first_rejection_None in Hf. rewrite completion_order_perm in Hf.
    by rewrite Forall_fmap in Hf.
Qed.

Lemma run_not_thrown (fs : filesystem) (fuel : nat) (choices : list nat) (m : list slot)
    (e : js_error) :
  run fs fuel choices m ≠ Thrown e.
Proof.
  revert choices m; induction fuel as [|n IH]; intros choices m; simpl; [done|].
  destruct (events m); [done|].
  destruct (step fs _ m); [done | apply IH].
Qed.

(** A collector is a listing, a scan of the names and a bounded load, under
    one handler. *)
Lemma listing_failed {A} (fs : filesystem) (dirPath : string) (e : js_error)
    (k : list string → promise A) (h : js_error → promise A) :
  readdir fs dirPath = inl e →
  catch_ (then_ (readdirAsync fs dirPath) k) h = h e.
Proof.
  intros H. unfold catch_, then_, readdirAsync. rewrite H. simpl.
  unfold logging. simpl. by destruct (h e).
Qed.

Lemma listing_done {A} (fs : filesystem) (dirPath : string) (names : list string)
    (k : list string → promise A) (h : js_error → promise A) :
  readdir fs dirPath = inr names →
  catch_ (then_ (readdirAsync fs dirPath) k) h = catch_ (k names) h.
Proof.
  intros H. unfold then_, readdirAsync. rewrite H. simpl.
  unfold logging. simpl. by destruct (k names).
Qed.

Lemma resources_complete (t : resource) : t ∈ resources.
Proof.
  destruct t; unfold resources;
    repeat first [apply list_elem_of_here | apply list_elem_of_further].
Qed.

Section Aggregation.

Variable K : constants.
Variable fs : filesystem.
Variable sched : schedule.
Variable unifyScripts unifyDatabases : value → value → value.
Variable JSON_parse : string → js_error + value.
Variable path_resolve : string → string.

Lemma collectors_collect (fullPath : string) :
  collectors K fs sched fullPath
  = map (fun t => (key t, collect K fs sched fullPath t)) resources.
Proof. reflexivity. Qed.

Lemma collect_listing_failed (fullPath : string) (t : resource) (e : js_error) :
  readdir fs (path_join fullPath (directory K t)) = inl e →
  settled (collect K fs sched fullPath t)
  = if is_ENOENT e then Resolved VUndefined
    else Rejected (Error (rejection_prefix t +:+ message e)).
Proof.
  intros H.
  destruct t; unfold collect, getRules, getPages, getDatabases, getConfigurableConfigs,
    getEmailTemplates, getEmailProviders;
    rewrite (listing_failed _ _ _ _ _ H); by destruct (is_ENOENT e).
Qed.

Lemma collect_not_thrown (fullPath : string) (t : resource) (e : js_error) :
  settled (collect K fs sched fullPath t) ≠ Thrown e.
Proof.
  assert (G : ∀ dirPath (scan : list string → list log_line * list job)
                (h : js_error → promise value),
             (∀ e', settled (h e') ≠ Thrown e) →
             settled (catch_ (then_ (readdirAsync fs dirPath) (fun files =>
                        logging (scan files).1
                          (Promise_map fs (reads_of sched dirPath) (scan files).2 2))) h)
             ≠ Thrown e).
  { intros dirPath scan h Hh. unfold catch_, then_, readdirAsync.
    destruct (readdir fs dirPath) as [e'|names]; simpl; [apply Hh|].
    destruct (run fs _ _ _) eqn:Hr; simpl; rewrite ?Hr; try done.
    by apply run_not_thrown in Hr. }
  destruct t; unfold collect, getRules, getPages, getDatabases, getConfigurableConfigs,
    getEmailTemplates, getEmailProviders.
  - apply (G _ (fun files => let s := forEach files _ [] in (s.1, rules_jobs s.2))).
    intros e'. by destruct (is_ENOENT e').
  - apply (G _ (fun files => let s := forEach files _ [] in (s.1, pages_jobs s.2))).
    intros e'. by destruct (is_ENOENT e').
  - apply (G _ (fun dirs => let s := scan_databases K fs sched _ dirs in
                            (s.1, database_jobs s.2))).
    intros e'. by destruct (is_ENOENT e').
  - apply (G _ (fun files => let s := forEach files _ [] in (s.1, configurable_jobs s.2))).
    intros e'. by destruct (is_ENOENT e').
  - apply (G _ (fun files => let s := forEach files _ [] in (s.1, configurable_jobs s.2))).
    intros e'. by destruct (is_ENOENT e').
  - apply (G _ (fun files => let s := forEach files _ [] in (s.1, templates_jobs s.2))).
    intros e'. by destruct (is_ENOENT e').
  - apply (G _ (fun files => let s := forEach files _ [] in (s.1, providers_jobs s.2))).
    intros e'. by destruct (is_ENOENT e').
Qed.

(** [init] on a directory: the context holds, for each type, the transform
    of what the type's collector resolved with, or the type's empty value
    when that is falsy; a rejection is the rejection of one collector. *)
Lemma init_directory (me : Context) (progress : value) :
  lstatSync fs (path_resolve (fileName me)) = inr IsDirectory →
  let root := path_resolve (fileName me) in
  let m := effective_mappings me progress in
  match settled (init K fs sched unifyScripts unifyDatabases JSON_parse path_resolve
                   me progress) with
  | Resolved ctx =>
      mappings ctx = m
      ∧ ∀ t, ∃ v, settled (collect K fs sched root t) = Resolved v
                  ∧ field t ctx
                    = js_or (transform unifyScripts unifyDatabases t v m) (empty_default t)
  | Rejected e => ∃ t, settled (collect K fs sched root t) = Rejected e
  | Thrown _ => False
  end.
Proof.
  intros Hdir root m. unfold init, getChanges. rewrite Hdir. fold root m.
  pose proof (Promise_props_settled (settling sched) (collectors K fs sched root)) as Hp.
  unfold then_ at 1. unfold then_ at 1. cbn [settled logging].
  destruct (settled (Promise_props _ _)) as [result|e|e]; [|simpl|done].
  - destruct Hp as [-> Hall]. cbn [settled Promise_resolve logging].
    rewrite collectors_collect in *.
    rewrite Forall_fmap in Hall. rewrite Forall_forall in Hall.
    remember (collect K fs sched root) as c eqn:Hc. clear Hc.
    split; [done|]. intros t.
    destruct (Hall t) as [v Hv]; [apply resources_complete|].
    exists v. cbn in Hv. split; [done|].
    destruct t; cbn; by rewrite Hv.
  - destruct Hp as (kp & Hin & Hkp). rewrite collectors_collect in Hin.
    apply list_elem_of_fmap in Hin as (t & -> & _). exists t.
    destruct Hkp as [?|Hth]; [done|]. by apply collect_not_thrown in Hth.
Qed.

Lemma init_directory_resolves (me : Context) (progress : value) :
  lstatSync fs (path_resolve (fileName me)) = inr IsDirectory →
  (∀ t e, settled (collect K fs sched (path_resolve (fileName me)) t) ≠ Rejected e) →
  ∃ ctx, settled (init K fs sched unifyScripts unifyDatabases JSON_parse path_resolve
                    me progress) = Resolved ctx.
Proof.
  intros Hdir Hok. pose proof (init_directory me progress Hdir) as H. simpl in H.
  destruct (settled (init _ _ _ _ _ _ _ _ _)) as [ctx|e|e]; [eauto| |done].
  destruct H as [t Ht]. by apply Hok in Ht.
Qed.

Lemma is_ENOENT_true (e : js_error) : code e = Some "ENOENT"%string → is_ENOENT e = true.
Proof. unfold is_ENOENT. by intros ->. Qed.

Lemma is_ENOENT_false (e : js_error) : code e ≠ Some "ENOENT"%string → is_ENOENT e = false.
Proof.
  unfold is_ENOENT. destruct (code e) as [c|]; [|done].
  intros H. apply String.eqb_neq. congruence.
Qed.

Lemma has_false_get (k : string) (o : obj) : has k o = false → get k o = VUndefined.
Proof.
  induction o as [|[k' v] r IH]; simpl; [done|].
  destruct (String.eqb k k'); simpl; [done | apply IH].
Qed.

(** C1. When the subdirectory of a resource type does not exist (its listing
    fails with ENOENT), the type's collector resolves, with [undefined], and
    never rejects; the context that is built then holds the type's empty
    default, an empty object or, for databases, an empty array, given that
    the transform of the extension-tools package turns a missing collection
    into that empty value or into something falsy.  The build can only reject
    with the rejection of another type's collector, and it succeeds when no
    other collector rejects. *)
Theorem absent_directory_gives_empty_default
    (me : Context) (progress : value) (t : resource) (e : js_error) :
  lstatSync fs (path_resolve (fileName me)) = inr IsDirectory →
  readdir fs (path_join (path_resolve (fileName me)) (directory K t)) = inl e →
  code e = Some "ENOENT"%string →
  (∀ m, transform unifyScripts unifyDatabases t VUndefined m = empty_default t
        ∨ truthy (transform unifyScripts unifyDatabases t VUndefined m) = false) →
  let root := path_resolve (fileName me) in
  let built :=
    settled (init K fs sched unifyScripts unifyDatabases JSON_parse path_resolve
               me progress) in
  settled (collect K fs sched root t) = Resolved VUndefined
  ∧ match built with
    | Resolved ctx => field t ctx = empty_default t
    | Rejected e' => ∃ t', t' ≠ t ∧ settled (collect K fs sched root t') = Rejected e'
    | Thrown _ => False
    end
  ∧ ((∀ t' e', t' ≠ t → settled (collect K fs sched root t') ≠ Rejected e') →
     ∃ ctx, built = Resolved ctx ∧ field t ctx = empty_default t).
Proof.
  intros Hdir Hlist Hcode Hunify root built.
  assert (Ht : settled (collect K fs sched root t) = Resolved VUndefined).
  { unfold root. rewrite (collect_listing_failed _ _ _ Hlist).
    by rewrite is_ENOENT_true. }
  pose proof (init_directory me progress Hdir) as Hinit. cbn zeta in Hinit. fold root built in Hinit.
  assert (Hbuilt : match built with
    | Resolved ctx => field t ctx = empty_default t
    | Rejected e' => ∃ t', t' ≠ t ∧ settled (collect K fs sched root t') = Rejected e'
    | Thrown _ => False
    end).
  { destruct built as [ctx|e'|e']; [| |done].
    - destruct Hinit as [_ Hf]. destruct (Hf t) as (v & Hv & ->).
      rewrite Ht in Hv. inversion Hv; subst v.
      unfold js_or. destruct (Hunify (effective_mappings me progress)) as [->| ->]; [|done].
      by destruct t.
    - destruct Hinit as [t' Ht']. exists t'. split; [|done].
      intros ->. by rewrite Ht in Ht'. }
  split; [done|]. split; [done|].
  intros Hothers. destruct built as [ctx|e'|e']; [eauto| |done].
  destruct Hbuilt as (t' & Hne & Ht'). by apply Hothers in Ht'.
Qed.

(** C2, as amended.  When the listing of a type's subdirectory fails with
    anything but ENOENT, the type's collector rejects with an error whose
    message is the type's own fixed prefix followed by the underlying
    message, and the build rejects with the rejection of a collector: with
    this very error when no other collector rejects.  Three prefixes carry
    the article (rules, email templates, email providers); those of pages,
    database scripts, client and resource server do not. *)
Theorem listing_failure_rejects_with_prefix
    (me : Context) (progress : value) (t : resource) (e : js_error) :
  lstatSync fs (path_resolve (fileName me)) = inr IsDirectory →
  readdir fs (path_join (path_resolve (fileName me)) (directory K t)) = inl e →
  code e ≠ Some "ENOENT"%string →
  let root := path_resolve (fileName me) in
  let built :=
    settled (init K fs sched unifyScripts unifyDatabases JSON_parse path_resolve
               me progress) in
  settled (collect K fs sched root t) = Rejected (Error (rejection_prefix t +:+ message e))
  ∧ ∃ e', built = Rejected e'
          ∧ (∃ t', settled (collect K fs sched root t') = Rejected e')
          ∧ ((∀ t' e'', t' ≠ t → settled (collect K fs sched root t') ≠ Rejected e'') →
             e' = Error (rejection_prefix t +:+ message e)).
Proof.
  intros Hdir Hlist Hcode root built.
  assert (Ht : settled (collect K fs sched root t)
               = Rejected (Error (rejection_prefix t +:+ message e))).
  { unfold root. rewrite (collect_listing_failed _ _ _ Hlist).
    by rewrite is_ENOENT_false. }
  split; [done|].
  pose proof (init_directory me progress Hdir) as Hinit. cbn zeta in Hinit. fold root built in Hinit.
  destruct built as [ctx|e'|e']; [| |done].
  - destruct Hinit as [_ Hf]. destruct (Hf t) as (v & Hv & _). by rewrite Ht in Hv.
  - exists e'. split; [done|]. split; [done|].
    intros Hothers. destruct Hinit as [t' Ht'].
    destruct (decide (t' = t)) as [->|Hne]; [congruence|]. by apply Hothers in Ht'.
Qed.

(** C4. When the input path is a regular file, its content is parsed as one
    JSON document and the document is what [getChanges] resolves with: no
    directory is listed, no transform is applied and the mappings play no
    part.  Each of the seven fields of the context is the document's member
    of that name, and the type's empty value where the document has no such
    member (or a falsy one). *)
Theorem descriptor_file_is_taken_as_parsed
    (me : Context) (progress : value) (text : string) (document : obj) :
  lstatSync fs (path_resolve (fileName me)) = inr IsFile →
  readFile fs (path_resolve (fileName me)) = inr text →
  JSON_parse text = inr (VObj document) →
  (∀ m, getChanges K fs sched unifyScripts unifyDatabases JSON_parse path_resolve
          (fileName me) m = Promise_resolve (VObj document))
  ∧ ∃ ctx,
      init K fs sched unifyScripts unifyDatabases JSON_parse path_resolve me progress
      = Promise_resolve ctx
      ∧ (∀ t, field t ctx = js_or (get (key t) document) (empty_default t))
      ∧ (∀ t, has (key t) document = false → field t ctx = empty_default t)
      ∧ (∀ t, truthy (get (key t) document) = true → field t ctx = get (key t) document).
Proof.
  intros Hfile Hread Hparse.
  assert (Hg : ∀ m, getChanges K fs sched unifyScripts unifyDatabases JSON_parse
                      path_resolve (fileName me) m = Promise_resolve (VObj document)).
  { intros m. unfold getChanges. by rewrite Hfile, Hread, Hparse. }
  split; [done|].
  unfold init. rewrite Hg. unfold then_. cbn [settled Promise_resolve logged logging app].
  eexists. split; [reflexivity|].
  assert (Hf : ∀ t, field t
      {| fileName := fileName me; mappings := effective_mappings me progress;
         pages := js_or (member "pages" (VObj document)) (VObj []);
         rules := js_or (member "rules" (VObj document)) (VObj []);
         databases := js_or (member "databases" (VObj document)) (VArr []);
         clients := js_or (member "clients" (VObj document)) (VObj []);
         resourceServers := js_or (member "resourceServers" (VObj document)) (VObj []);
         emailTemplates := js_or (member "emailTemplates" (VObj document)) (VObj []);
         emailProviders := js_or (member "emailProviders" (VObj document)) (VObj []) |}
      = js_or (get (key t) document) (empty_default t)).
  { by intros []. }
  split; [done|]. split; intros t H; rewrite Hf; unfold js_or.
  - by rewrite (has_false_get _ _ H).
  - by rewrite H.
Qed.

(** C5. When the input path, looked at without following symbolic links, is
    neither a regular file nor a directory (so also when it is a symbolic
    link, whatever it points to), the build rejects with the fixed message
    that names the resolved path.  Nothing is logged and the outcome does not
    depend on any listing or read: no scan has begun. *)
Theorem unsupported_input_is_rejected (me : Context) (progress : value) (kind : stats) :
  lstatSync fs (path_resolve (fileName me)) = inr kind →
  kind ≠ IsDirectory →
  kind ≠ IsFile →
  init K fs sched unifyScripts unifyDatabases JSON_parse path_resolve me progress
  = Promise_reject
      (Error ("Not sure what to do with, " +:+ path_resolve (fileName me)
              +:+ ", it is not a file or directory...")).
Proof.
  intros Hstat Hd Hf. unfold init, getChanges. rewrite Hstat.
  by destruct kind.
Qed.

(** C10, as amended.  On a directory none of whose collectors rejects,
    [init] resolves, and the context it resolves with keeps the mappings
    that every transform was given: those of the constructor when they are
    truthy, as a dictionary is, even an empty one, whatever the argument of
    [init]; and [progress && progress.mappings] when the constructor got
    [undefined], [null] or another falsy value. *)
Theorem constructor_mappings_take_precedence
    (file : string) (given progress : value) :
  lstatSync fs (path_resolve file) = inr IsDirectory →
  (∀ t e, settled (collect K fs sched (path_resolve file) t) ≠ Rejected e) →
  let me := new_Context file given in
  let chosen := if truthy given then given else js_and progress (member "mappings" progress) in
  ∃ ctx,
    settled (init K fs sched unifyScripts unifyDatabases JSON_parse path_resolve me progress)
    = Resolved ctx
    ∧ mappings ctx = chosen
    ∧ (∀ t, ∃ v, settled (collect K fs sched (path_resolve file) t) = Resolved v
                 ∧ field t ctx
                   = js_or (transform unifyScripts unifyDatabases t v chosen)
                           (empty_default t))
    ∧ (truthy given = true →
       init K fs sched unifyScripts unifyDatabases JSON_parse path_resolve me progress
       = init K fs sched unifyScripts unifyDatabases JSON_parse path_resolve me VUndefined).
Proof.
  intros Hdir Hok me chosen.
  destruct (init_directory_resolves me progress Hdir Hok) as [ctx Hctx].
  pose proof (init_directory me progress Hdir) as H. cbn zeta in H. rewrite Hctx in H.
  destruct H as [Hm Ht].
  assert (Hchosen : effective_mappings me progress = chosen) by reflexivity.
  rewrite Hchosen in Hm, Ht.
  exists ctx. split; [done|]. split; [done|]. split; [done|].
  intros Hgiven. unfold init, effective_mappings, js_or. cbn [mappings me new_Context].
  by rewrite Hgiven.
Qed.

End Aggregation.

(** ** The machine of [Promise.map] *)

Lemma sum_list_with_insert {A} (f : A → nat) (l : list A) (i : nat) (x y : A) :
  l !! i = Some x → sum_list_with f (<[i:=y]> l) + f x = sum_list_with f l + f y.
Proof.
  revert i; induction l as [|a l IH]; intros [|i] H; simplify_eq/=; [lia|].
  specialize (IH i H). lia.
Qed.

Lemma slot_events_spec (i : nat) (s : slot) (ev : event) :
  ev ∈ slot_events i s ↔
  st s = Running
  ∧ ((∃ j, ev = ReadDone i j ∧ j < length (reads (work s)))
     ∨ (ev = Settles i ∧ reads (work s) = [])).
Proof.
  unfold slot_events. destruct (st s); try (split; [by intros ?%elem_of_nil | naive_solver]).
  destruct (reads (work s)) as [|r rs] eqn:Hr.
  - rewrite list_elem_of_singleton. simpl. naive_solver lia.
  - rewrite list_elem_of_fmap. setoid_rewrite elem_of_seq. split.
    + intros (j & -> & Hj). split; [done|]. left. exists j. split; [done|]. simpl in *. lia.
    + intros [_ [(j & -> & Hj)|[_ ?]]]; [|done]. exists j. split; [done|]. simpl in *. lia.
Qed.

Lemma events_spec (m : list slot) (ev : event) :
  ev ∈ events m ↔ ∃ i s, m !! i = Some s ∧ ev ∈ slot_events i s.
Proof.
  unfold events. rewrite list_elem_of_In, in_concat. split.
  - intros (l & Hl & Hev). apply list_elem_of_In, elem_of_lookup_imap in Hl as (i & s & -> & Hs).
    exists i, s. by rewrite list_elem_of_In.
  - intros (i & s & Hs & Hev). exists (slot_events i s).
    rewrite <-!list_elem_of_In. split; [|done]. by apply elem_of_lookup_imap_2.
Qed.

Lemma pick_elem_of (choices : list nat) (ev0 : event) (evs : list event) :
  pick choices (ev0 :: evs) ev0 ∈ ev0 :: evs.
Proof.
  unfold pick. apply list_elem_of_In, nth_In.
  apply Nat.mod_upper_bound. done.
Qed.

Lemma events_nil (m : list slot) : events m = [] → running m = 0.
Proof.
  intros H. unfold running.
  induction m as [|s m IH] using rev_ind; [done|].
  rewrite sum_list_with_app. simpl.
  assert (Hs : st s ≠ Running).
  { intros Hs. assert (He : ∃ ev, ev ∈ events (m ++ [s])); [|destruct He as [ev He]; by rewrite H in He; apply elem_of_nil in He].
    destruct (reads (work s)) as [|r rs] eqn:Hr.
    - exists (Settles (length m)). apply events_spec. exists (length m), s.
      split; [by rewrite lookup_app_r, Nat.sub_diag by lia|].
      apply slot_events_spec. naive_solver.
    - exists (ReadDone (length m) 0). apply events_spec. exists (length m), s.
      split; [by rewrite lookup_app_r, Nat.sub_diag by lia|].
      apply slot_events_spec. split; [done|]. left. exists 0. rewrite Hr. simpl. split; [done|lia]. }
  rewrite IH.
  - destruct (st s); done.
  - destruct (events m) as [|ev evs] eqn:Hm; [done|].
    assert (He : ev ∈ events (m ++ [s])); [|by rewrite H in He; apply elem_of_nil in He].
    assert (Hev : ev ∈ events m) by (rewrite Hm; constructor).
    apply events_spec in Hev as (i & s' & Hi & Hev). apply events_spec.
    exists i, s'. split; [|done]. apply lookup_app_l_Some. done.
Qed.

Lemma start_last_Some (m m' : list slot) :
  start_last m = Some m' →
  work <$> m' = work <$> m
  ∧ queued m' + 1 = queued m
  ∧ running m' = running m + 1
  ∧ steps_left m' = steps_left m
  ∧ (Forall (fun s => st s = Done → reads (work s) = []) m →
     Forall (fun s => st s = Done → reads (work s) = []) m').
Proof.
  revert m'; induction m as [|s m IH]; intros m'; simpl; [done|].
  destruct (start_last m) as [r'|] eqn:Hr.
  - intros [= <-]. destruct (IH r' eq_refl) as (Hw & Hq & Hrun & Hsteps & HD).
    unfold queued, running, steps_left in *. cbn [sum_list_with fmap list_fmap].
    rewrite Hw. repeat split; try lia.
    intros H. inversion H; subst. constructor; auto.
  - destruct (st s) eqn:Hs; try done. intros [= <-].
    unfold queued, running, steps_left. cbn [sum_list_with fmap list_fmap st work].
    repeat split; try lia; try done.
    intros H. inversion H; subst. constructor; [done|]. done.
Qed.

Lemma start_last_None (m : list slot) : start_last m = None → queued m = 0.
Proof.
  induction m as [|s m IH]; simpl; [done|].
  destruct (start_last m); [done|]. unfold queued in *. simpl.
  destruct (st s); try done; intros _; by rewrite IH.
Qed.

Lemma loaded_in_snoc (fs : filesystem) (order : list file_read) (r : file_read) (o : obj)
    (contents : string) :
  readFile fs r.1 = inr contents →
  loaded_in fs (order ++ [r]) o = r.2 contents (loaded_in fs order o).
Proof. intros H. unfold loaded_in. rewrite fold_left_app. simpl. by rewrite H. Qed.

Lemma evolved_refl (fs : filesystem) (j : job) : evolved fs j j.
Proof. by exists []. Qed.

Lemma evolved_length (fs : filesystem) (j0 j : job) :
  evolved fs j0 j → length (reads j) ≤ length (reads j0).
Proof. intros (c & Hp & _). rewrite <-Hp, length_app. lia. Qed.

Section Machine.

Variable fs : filesystem.
Variable jobs : list job.

Lemma step_reached (m m' : list slot) (ev : event) :
  reached fs jobs m → ev ∈ events m → step fs ev m = inr m' →
  reached fs jobs m' ∧ steps_left m' + 1 = steps_left m ∧ running m' ≤ running m.
Proof.
  intros (Hev & Hdone & Hlive) Hin Hstep.
  apply events_spec in Hin as (i & s & Hi & Hin).
  apply slot_events_spec in Hin as [Hrun [(j & -> & Hj)|[-> Hnil]]]; cbn [step] in Hstep;
    rewrite Hi in Hstep.
  - destruct (lookup_lt_is_Some_2 _ _ Hj) as [[path k] Hr].
    unfold file_read in *. rewrite Hr in Hstep.
    destruct (readFile fs path) as [e|contents] eqn:Hread; [done|].
    injection Hstep as <-.
    set (s' := {| st := Running; work := _ |}).
    assert (Hq : queued (<[i:=s']> m) = queued m).
    { pose proof (sum_list_with_insert (fun s => match st s with Queued => 1 | _ => 0 end)
                    m i s s' Hi) as H. unfold queued. simpl in H. rewrite Hrun in H. lia. }
    assert (Hr' : running (<[i:=s']> m) = running m).
    { pose proof (sum_list_with_insert (fun s => match st s with Running => 1 | _ => 0 end)
                    m i s s' Hi) as H. unfold running. simpl in H. rewrite Hrun in H. lia. }
    split; [split; [|split]|split].
    + rewrite list_fmap_insert.
      destruct (Forall2_lookup_r _ _ _ i (work s) Hev) as (j0 & Hj0 & c & Hp & Hc).
      { by rewrite list_lookup_fmap, Hi. }
      rewrite <-(list_insert_id jobs i j0 Hj0). apply Forall2_insert; [done|].
      exists (c ++ [(path, k)]). split.
      * simpl. rewrite <-Hp, <-app_assoc. f_equiv. simpl.
        symmetry. by apply delete_Permutation.
      * simpl. rewrite (loaded_in_snoc fs c (path, k) _ contents Hread). simpl. by rewrite Hc.
    + by apply Forall_insert.
    + rewrite Hq, Hr'. done.
    + pose proof (sum_list_with_insert
                    (fun s => match st s with Done => 0 | _ => S (length (reads (work s))) end)
                    m i s s' Hi) as H.
      unfold steps_left. simpl in H. rewrite Hrun in H.
      assert (Hlen : length (delete j (reads (work s))) = length (reads (work s)) - 1).
      { apply length_delete. unfold file_read. rewrite Hr. eauto. }
      unfold file_read in *. rewrite Hlen in H. lia.
    + lia.
  - injection Hstep as <-.
    set (s' := {| st := Done; work := work s |}).
    set (m1 := <[i:=s']> m).
    assert (Hw : work <$> m1 = work <$> m).
    { unfold m1. rewrite list_fmap_insert. apply list_insert_id.
      by rewrite list_lookup_fmap, Hi. }
    assert (Hq : queued m1 = queued m).
    { pose proof (sum_list_with_insert (fun s => match st s with Queued => 1 | _ => 0 end)
                    m i s s' Hi) as H. unfold queued, m1. simpl in H. rewrite Hrun in H. lia. }
    assert (Hr' : running m1 + 1 = running m).
    { pose proof (sum_list_with_insert (fun s => match st s with Running => 1 | _ => 0 end)
                    m i s s' Hi) as H. unfold running, m1. simpl in H. rewrite Hrun in H. lia. }
    assert (Hs : steps_left m1 + 1 = steps_left m).
    { pose proof (sum_list_with_insert
                    (fun s => match st s with Done => 0 | _ => S (length (reads (work s))) end)
                    m i s s' Hi) as H.
      unfold steps_left, m1. simpl in H. rewrite Hrun, Hnil in H. simpl in H. lia. }
    assert (Hd : Forall (fun s => st s = Done → reads (work s) = []) m1).
    { by apply Forall_insert. }
    destruct (start_last m1) as [m2|] eqn:Hstart; simpl.
    + apply start_last_Some in Hstart as (Hw2 & Hq2 & Hr2 & Hs2 & Hd2).
      split; [split; [|split]|lia].
      * by rewrite Hw2, Hw.
      * auto.
      * right. lia.
    + apply start_last_None in Hstart.
      split; [split; [|split]|lia].
      * by rewrite Hw.
      * done.
      * by left.
Qed.

Lemma step_failed (m : list slot) (ev : event) (e : js_error) :
  reached fs jobs m → ev ∈ events m → step fs ev m = inl e →
  ∃ j0 r, j0 ∈ jobs ∧ r ∈ reads j0 ∧ readFile fs r.1 = inl e.
Proof.
  intros (Hev & _ & _) Hin Hstep.
  apply events_spec in Hin as (i & s & Hi & Hin).
  apply slot_events_spec in Hin as [Hrun [(j & -> & Hj)|[-> Hnil]]]; cbn [step] in Hstep;
    rewrite Hi in Hstep; [|done].
  destruct (lookup_lt_is_Some_2 _ _ Hj) as [[path k] Hr].
    unfold file_read in *. rewrite Hr in Hstep.
  destruct (readFile fs path) as [e'|contents] eqn:Hread; [|done].
  injection Hstep as <-.
  destruct (Forall2_lookup_r _ _ _ i (work s) Hev) as (j0 & Hj0 & c & Hp & Hc).
  { by rewrite list_lookup_fmap, Hi. }
  exists j0, (path, k). split; [by eapply list_elem_of_lookup_2|]. split; [|done].
  rewrite <-Hp. apply elem_of_app. right. by eapply list_elem_of_lookup_2.
Qed.

Lemma launch_work (limit : nat) : work <$> launch limit jobs = jobs.
Proof.
  unfold launch. rewrite fmap_app, <-!list_fmap_compose.
  assert (H : ∀ (f : job → job) (l : list job), (∀ x, f x = x) → f <$> l = l).
  { intros f l Hf. induction l as [|x l IH]; [done|]. by rewrite fmap_cons, Hf, IH. }
  rewrite !H by done. apply take_drop.
Qed.

Lemma launch_reached (limit : nat) : reached fs jobs (launch limit jobs).
Proof.
  split; [|split].
  - rewrite launch_work. apply Forall_Forall2_diag, Forall_forall. intros; apply evolved_refl.
  - unfold launch. apply Forall_app; split; apply Forall_fmap, Forall_forall; done.
  - unfold launch, queued, running. rewrite !sum_list_with_app.
    destruct limit as [|limit]; simpl.
    + left. rewrite drop_all. simpl.
      induction (take _ _) as [|? ? IH]; simpl; [done|]. done.
    + destruct jobs as [|j js]; simpl; [by left | right; lia].
Qed.

Lemma launch_steps (limit : nat) : steps_left (launch limit jobs) = steps_needed jobs.
Proof.
  unfold launch, steps_left, steps_needed. rewrite sum_list_with_app.
  set (n := if limit =? 0 then length jobs else limit).
  assert (H : ∀ (q : status) (l : list job), q ≠ Done →
            sum_list_with
              (fun s => match st s with Done => 0 | _ => S (length (reads (work s))) end)
              ((fun j => {| st := q; work := j |}) <$> l)
            = sum_list_with (fun j => S (length (reads j))) l).
  { intros q l Hq. induction l as [|x l IH]; [done|].
    rewrite fmap_cons. simpl. rewrite IH. by destruct q. }
  rewrite !H by done. rewrite <-sum_list_with_app. by rewrite take_drop.
Qed.

Lemma launch_running (limit : nat) : 1 ≤ limit → running (launch limit jobs) ≤ limit.
Proof.
  intros Hl. unfold launch, running. rewrite sum_list_with_app.
  destruct limit as [|limit]; [lia|]. cbn [Nat.eqb].
  assert (H1 : ∀ l : list job,
             sum_list_with (fun s => match st s with Running => 1 | _ => 0 end)
               ((fun j => {| st := Running; work := j |}) <$> l) = length l).
  { induction l as [|? ? IH]; [done|]. rewrite fmap_cons, length_cons. simpl. by rewrite IH. }
  assert (H2 : ∀ l : list job,
             sum_list_with (fun s => match st s with Running => 1 | _ => 0 end)
               ((fun j => {| st := Queued; work := j |}) <$> l) = 0).
  { induction l as [|? ? IH]; [done|]. rewrite fmap_cons. simpl. by rewrite IH. }
  rewrite H1, H2, length_take. lia.
Qed.

Lemma steps_left_running (m : list slot) : running m ≤ steps_left m.
Proof.
  unfold running, steps_left. induction m as [|s m IH]; simpl; [done|].
  destruct (st s); lia.
Qed.

Lemma results_final (m : list slot) :
  reached fs jobs m → running m = 0 → settles_well fs jobs (Resolved (results m)).
Proof.
  intros (Hev & Hdone & Hlive) Hrun.
  destruct Hlive as [Hq|]; [|lia].
  exists (current ∘ work <$> m). split.
  { unfold results. f_equal. by rewrite <-list_fmap_compose. }
  assert (Hall : Forall (fun s => st s = Done) m).
  { unfold queued, running in *. clear -Hq Hrun.
    induction m as [|s m IH]; simpl in *; constructor.
    - destruct (st s); simpl in *; try done; lia.
    - apply IH; destruct (st s); simpl in *; lia. }
  apply Forall2_same_length_lookup_2.
  { apply Forall2_length in Hev. rewrite length_fmap in Hev. by rewrite length_fmap. }
  intros i j o Hj Ho.
  apply list_lookup_fmap_Some in Ho as (s & -> & Hs).
  assert (Hw : (work <$> m) !! i = Some (work s)) by (by rewrite list_lookup_fmap, Hs).
  destruct (Forall2_lookup_lr _ _ _ _ _ _ Hev Hj Hw) as (c & Hp & Hc).
  rewrite Forall_lookup in Hall, Hdone.
  rewrite (Hdone i s Hs (Hall i s Hs)), app_nil_r in Hp.
  exists c. done.
Qed.

Lemma run_settles_well (fuel : nat) (choices : list nat) (m : list slot) :
  reached fs jobs m → steps_left m ≤ fuel →
  settles_well fs jobs (run fs fuel choices m).
Proof.
  revert choices m; induction fuel as [|n IH]; intros choices m Hm Hfuel; cbn [run].
  - apply results_final; [done|]. pose proof (steps_left_running m). lia.
  - destruct (events m) as [|ev0 evs] eqn:Hevs.
    { apply results_final; [done|]. by apply events_nil. }
    pose proof (pick_elem_of choices ev0 evs) as Hpick. rewrite <-Hevs in Hpick at 2.
    destruct (step fs _ m) as [e|m'] eqn:Hstep.
    + eapply step_failed; eauto.
    + destruct (step_reached m m' _ Hm Hpick Hstep) as (Hm' & Hs & _).
      apply IH; [done|lia].
Qed.

(** [Promise.map] resolves with the objects of its jobs, each after its
    reads completed in some order, or rejects with the failure of a read. *)
Lemma Promise_map_settles_well (choices : list nat) (limit : nat) :
  settles_well fs jobs (settled (Promise_map fs choices jobs limit)).
Proof.
  unfold Promise_map. cbn [settled].
  apply run_settles_well; [apply launch_reached|]. by rewrite launch_steps.
Qed.

Lemma all_readable_spec :
  all_readable fs jobs = true →
  ∀ j r, j ∈ jobs → r ∈ reads j → ∃ contents, readFile fs r.1 = inr contents.
Proof.
  unfold all_readable. rewrite forallb_forall. intros H j r Hj Hr.
  apply list_elem_of_In in Hj, Hr. specialize (H j Hj). rewrite forallb_forall in H.
  specialize (H r Hr). unfold readable in H. destruct (readFile fs r.1); [done|eauto].
Qed.

(** When every read succeeds, [Promise.map] resolves. *)
Lemma Promise_map_resolves (choices : list nat) (limit : nat) :
  all_readable fs jobs = true →
  ∃ objs, settled (Promise_map fs choices jobs limit) = Resolved (VArr (VObj <$> objs))
          ∧ Forall2 (fun j o => ∃ order, order ≡ₚ reads j
                                        ∧ o = loaded_in fs order (current j)) jobs objs.
Proof.
  intros Hall. pose proof (Promise_map_settles_well choices limit) as H.
  destruct (settled _) as [v|e|e]; [| |done].
  - destruct H as (objs & -> & H). eauto.
  - destruct H as (j & r & Hj & Hr & He).
    destruct (all_readable_spec Hall j r Hj Hr) as [c Hc]. congruence.
Qed.

Lemma in_flight_bound (m : list slot) (bound : nat) :
  Forall2 (evolved fs) jobs (work <$> m) →
  Forall (fun j => length (reads j) ≤ bound) jobs →
  in_flight m ≤ running m * bound.
Proof.
  intros Hev Hb. rewrite Forall2_fmap_r in Hev.
  assert (Hm : Forall (fun s => length (reads (work s)) ≤ bound) m).
  { apply Forall_lookup. intros i s Hs.
    destruct (Forall2_lookup_r _ _ _ _ _ Hev Hs) as (j & Hj & Hjs).
    apply evolved_length in Hjs. rewrite Forall_lookup in Hb. specialize (Hb i j Hj).
    simpl in *. lia. }
  clear Hev. unfold in_flight, running.
  induction Hm as [|s m Hs _ IH]; simpl; [done|]. destruct (st s); lia.
Qed.

(** While [Promise.map] runs, at most [limit] mapper calls are under way,
    so at most [limit] times the largest number of reads one call issues are
    in flight. *)
Lemma states_bounded (fuel : nat) (choices : list nat) (m : list slot) (limit bound : nat) :
  reached fs jobs m → running m ≤ limit →
  Forall (fun j => length (reads j) ≤ bound) jobs →
  Forall (fun m' => running m' ≤ limit ∧ in_flight m' ≤ limit * bound)
         (states fs fuel choices m).
Proof.
  intros Hm Hrun Hb. revert choices m Hm Hrun.
  assert (Here : ∀ m, reached fs jobs m → running m ≤ limit →
                      running m ≤ limit ∧ in_flight m ≤ limit * bound).
  { intros m (Hev & _) Hrun. split; [done|].
    pose proof (in_flight_bound m bound Hev Hb). nia. }
  induction fuel as [|n IH]; intros choices m Hm Hrun; cbn [states].
  { constructor; [auto | constructor]. }
  destruct (events m) as [|ev0 evs] eqn:Hevs.
  { constructor; [auto | constructor]. }
  pose proof (pick_elem_of choices ev0 evs) as Hpick. rewrite <-Hevs in Hpick at 2.
  destruct (step fs _ m) as [e|m'] eqn:Hstep.
  { constructor; [auto | constructor]. }
  destruct (step_reached m m' _ Hm Hpick Hstep) as (Hm' & _ & Hr).
  constructor; [auto|]. apply IH; [done|lia].
Qed.

End Machine.

(** ** The collectors, listing done *)

Section Collectors.

Variable K : constants.
Variable fs : filesystem.
Variable sched : schedule.

Lemma collect_listed (fullPath : string) (t : resource) (names : list string) :
  let dirPath := path_join fullPath (directory K t) in
  readdir fs dirPath = inr names →
  settled (collect K fs sched fullPath t)
  = handled t (settled (Promise_map fs (reads_of sched dirPath)
                          (scanned K fs sched dirPath t names) 2)).
Proof.
  intros dirPath H.
  destruct t; unfold collect, getRules, getPages, getDatabases, getConfigurableConfigs,
    getEmailTemplates, getEmailProviders; fold dirPath;
    rewrite (listing_done _ _ _ _ _ H); unfold catch_, logging, handled, scanned;
    cbn [settled logged Promise_map];
    destruct (run fs _ _ _) as [v|e|e]; try done; by destruct (is_ENOENT e).
Qed.

Lemma most_reads_bound (jobs : list job) :
  Forall (fun j => length (reads j) ≤ most_reads jobs) jobs.
Proof.
  apply Forall_forall. intros j Hj. unfold most_reads.
  apply max_list_elem_of_le, list_elem_of_fmap. by exists j.
Qed.

Lemma reads_per_call_bound (dirPath : string) (t : resource) (names : list string) :
  let jobs := scanned K fs sched dirPath t names in
  Forall (fun j => length (reads j) ≤ reads_per_call t jobs) jobs.
Proof.
  destruct t; cbn [scanned reads_per_call]; try apply most_reads_bound;
    apply Forall_fmap, Forall_forall; intros name _; cbn.
  - destruct (truthy _), (truthy _); simpl; lia.
  - destruct (truthy _), (truthy _); simpl; lia.
  - destruct (get name _); simpl; try lia. repeat destruct (has _ _); simpl; lia.
  - destruct (get name _); simpl; try lia. repeat destruct (has _ _); simpl; lia.
  - destruct (truthy _), (truthy _); simpl; lia.
  - destruct (truthy _); simpl; lia.
Qed.

(** C9, as amended.  The concurrency limit of a collector counts mapper
    calls, not reads: while a collector loads contents at most 2 entities
    are being loaded, and each of them has issued all its reads at once.  So
    at most 4 reads are in flight in the collectors of rules, pages, clients,
    resource servers and email templates, at most 2 in that of the email
    providers, and at most twice the largest number of files of one
    connection in that of the databases. *)
Theorem in_flight_reads_are_bounded_per_entity (fullPath : string) (t : resource) :
  Forall (fun m => running m ≤ 2
                   ∧ in_flight m ≤ 2 * reads_per_call t (jobs_of K fs sched fullPath t))
         (loads K fs sched fullPath t).
Proof.
  unfold loads, jobs_of. destruct (readdir fs _) as [e|names]; [constructor|].
  unfold load_states. eapply states_bounded.
  - apply launch_reached.
  - apply launch_running. lia.
  - apply reads_per_call_bound.
Qed.

End Collectors.

(** ** Objects *)

Lemma get_set (k k' : string) (v : value) (o : obj) :
  get k (set k' v o) = if String.eqb k k' then v else get k o.
Proof.
  induction o as [|[k0 v0] r IH]; simpl.
  - by destruct (String.eqb k k').
  - destruct (String.eqb_spec k' k0) as [->|Hne]; simpl.
    + by destruct (String.eqb k k0).
    + rewrite IH. destruct (String.eqb_spec k k0) as [->|]; [|done].
      destruct (String.eqb_spec k0 k'); [congruence|done].
Qed.

Lemma has_set (k k' : string) (v : value) (o : obj) :
  has k (set k' v o) = String.eqb k k' || has k o.
Proof.
  induction o as [|[k0 v0] r IH]; simpl.
  - by rewrite orb_false_r.
  - destruct (String.eqb_spec k' k0) as [->|Hne]; simpl.
    + by destruct (String.eqb k k0).
    + rewrite IH. destruct (String.eqb k k0), (String.eqb k k'); done.
Qed.

Lemma has_fst (k : string) (o : obj) : has k o = true ↔ k ∈ o.*1.
Proof.
  induction o as [|[k0 v0] r IH]; simpl.
  - split; [done | by intros ?%elem_of_nil].
  - rewrite elem_of_cons, orb_true_iff, IH. simpl.
    destruct (String.eqb_spec k k0); naive_solver.
Qed.

Lemma insert_index_perm (k : N * string) (l : list (N * string)) : insert_index k l ≡ₚ k :: l.
Proof.
  induction l as [|k' r IH]; simpl; [done|].
  destruct (_ <=? _)%N; [done|]. rewrite IH. apply Permutation_swap.
Qed.

Lemma keys_perm (o : obj) : keys o ≡ₚ o.*1.
Proof.
  unfold keys. induction o as [|[k v] r IH]; [done|].
  cbn [map fst omap list_omap foldr]. rewrite filter_cons.
  destruct (array_index k) as [n|] eqn:Ha.
  - assert (Hi : is_index k = true) by (unfold is_index; by rewrite Ha).
    assert (Hk : index_key k = Some (n, k)) by (unfold index_key; by rewrite Ha).
    rewrite Hk, decide_False by (by rewrite Hi). cbn [foldr].
    rewrite insert_index_perm. cbn [map snd app]. apply perm_skip, IH.
  - assert (Hi : is_index k = false) by (unfold is_index; by rewrite Ha).
    assert (Hk : index_key k = None) by (unfold index_key; by rewrite Ha).
    rewrite Hk, decide_True by done.
    rewrite <-Permutation_middle. apply perm_skip, IH.
Qed.

Lemma elem_of_keys (k : string) (o : obj) : k ∈ keys o ↔ has k o = true.
Proof. by rewrite keys_perm, has_fst. Qed.

(** ** Names and paths *)

Lemma contains_app (c : ascii) (s t : string) :
  contains c (s +:+ t) = contains c s || contains c t.
Proof. induction s as [|a s IH]; simpl; [done|]. rewrite IH. by destruct (Ascii.eqb a c). Qed.

Lemma rsplit_None (c : ascii) (s : string) : contains c s = false → rsplit c s = None.
Proof.
  induction s as [|a s IH]; simpl; [done|].
  intros [Ha Hs]%orb_false_iff. by rewrite IH, Ha.
Qed.

Lemma rsplit_app (c : ascii) (s t : string) :
  contains c t = false → rsplit c (s +:+ String c t) = Some (s, t).
Proof.
  intros Ht. induction s as [|a s IH]; simpl.
  - by rewrite (rsplit_None _ _ Ht), Ascii.eqb_refl.
  - by rewrite IH.
Qed.

Lemma rsplit_Some (c : ascii) (s pre suf : string) :
  rsplit c s = Some (pre, suf) → s = pre +:+ String c suf ∧ contains c suf = false.
Proof.
  revert pre; induction s as [|a s IH]; intros pre; simpl; [done|].
  destruct (rsplit c s) as [[p q]|] eqn:Hs.
  - intros [= <- <-]. destruct (IH p eq_refl) as [-> ?]. done.
  - destruct (Ascii.eqb_spec a c) as [->|]; [|done]. intros [= <- <-]. split; [done|].
    clear IH. induction s as [|b s IH]; simpl in *; [done|].
    destruct (rsplit c s) as [[p q]|]; [done|].
    destruct (Ascii.eqb b c); [done|]. simpl. by apply IH.
Qed.

Lemma endsWith_app (s t : string) : endsWith (s +:+ t) t = true.
Proof.
  induction s as [|a s IH]; simpl.
  - change (""%string +:+ t) with t.
    assert (H : ∀ u, endsWith u u = true); [|apply H].
    intros [|a u]; cbn [endsWith]; by rewrite String.eqb_refl.
  - rewrite IH. by rewrite orb_true_r.
Qed.

Lemma endsWith_inv (s t : string) : endsWith s t = true → ∃ p, s = p +:+ t.
Proof.
  induction s as [|a s IH]; cbn [endsWith].
  - rewrite orb_false_r. intros ->%String.eqb_eq. by exists ""%string.
  - intros [->%String.eqb_eq|H]%orb_true_iff; [by exists ""%string|].
    destruct (IH H) as [p ->]. by exists (String a p).
Qed.

Lemma plain_name_spec (s : string) :
  plain_name s = true ↔ contains "/" s = false ∧ s ≠ ""%string.
Proof.
  unfold plain_name. rewrite andb_true_iff, !negb_true_iff, String.eqb_neq. done.
Qed.

Lemma basename_plain (s : string) : contains "/" s = false → basename s = s.
Proof. intros H. unfold basename. by rewrite (rsplit_None _ _ H). Qed.

Lemma path_join_split (dir entry : string) :
  contains "/" entry = false →
  rsplit "/" (path_join dir entry)
  = Some (if String.eqb dir "/" then ""%string else dir, entry).
Proof.
  intros H. unfold path_join. destruct (String.eqb dir "/").
  - by apply (rsplit_app "/" "").
  - by apply (rsplit_app "/" dir).
Qed.

Lemma basename_path_join (dir entry : string) :
  contains "/" entry = false → basename (path_join dir entry) = entry.
Proof. intros H. unfold basename. by rewrite path_join_split. Qed.

Lemma dirname_path_join (dir entry : string) :
  contains "/" entry = false → dir ≠ ""%string → dirname (path_join dir entry) = dir.
Proof.
  intros H Hd. unfold dirname. rewrite path_join_split by done.
  destruct (String.eqb_spec dir "/") as [->|]; [done|].
  by destruct (String.eqb_spec dir "").
Qed.

(** A name with an extension: [path.parse] finds both, whenever something
    stands before the last dot. *)
Lemma path_parse_ext (stem e : string) :
  contains "/" stem = false → contains "/" e = false → contains "." e = false →
  stem ≠ ""%string → e ≠ ""%string →
  path_parse (stem +:+ "." +:+ e) = {| name := stem; ext := "." +:+ e |}.
Proof.
  intros Hs He Hd Hne Hee. unfold path_parse.
  change (stem +:+ "." +:+ e) with (stem +:+ String "." e).
  rewrite basename_plain by (rewrite contains_app, Hs; exact He).
  rewrite (rsplit_app "." stem e Hd).
  destruct (String.eqb_spec stem ""); [done|].
  destruct (String.eqb_spec (stem +:+ String "." e) "..") as [Heq|]; [|done].
  destruct stem as [|a [|b stem]]; simpl in Heq; [done| |].
  - destruct e; [done|]. by injection Heq.
  - injection Heq as _ _ Heq. by destruct stem.
Qed.

(** A name that begins with its only dot has no extension. *)
Lemma path_parse_dotfile (e : string) :
  contains "/" e = false → contains "." e = false →
  path_parse ("." +:+ e) = {| name := "." +:+ e; ext := "" |}.
Proof.
  intros He Hd. unfold path_parse. change ("." +:+ e) with (""%string +:+ String "." e).
  rewrite basename_plain by exact He.
  by rewrite (rsplit_app "." "" e Hd).
Qed.

(** ** Scans *)

Lemma forEach_snd {A S : Type} (l : list A) (f : A → S → list log_line * S) (s : S) :
  (forEach l f s).2 = fold_left (fun acc x => (f x acc).2) l s.
Proof.
  unfold forEach. generalize (@nil log_line).
  revert s; induction l as [|x l IH]; intros s lines; simpl; [done|]. apply IH.
Qed.

Lemma get_has (k : string) (o : obj) : get k o ≠ VUndefined → has k o = true.
Proof.
  intros H. destruct (has k o) eqn:Hh; [done|]. by apply has_false_get in Hh.
Qed.

Lemma has_set_in (k' k f : string) (v : value) (o : obj) :
  has k' (set_in k f v o) = has k' o.
Proof.
  unfold set_in. destruct (get k o) as [| | | | | |inner] eqn:Hk; try done.
  rewrite has_set. destruct (String.eqb_spec k' k) as [->|]; [|done].
  simpl. symmetry. apply get_has. by rewrite Hk.
Qed.

Lemma get_set_in (k' k f : string) (v : value) (o : obj) :
  get k' (set_in k f v o)
  = if String.eqb k' k then assign f v (get k o) else get k' o.
Proof.
  unfold set_in. destruct (get k o) as [| | | | | |inner] eqn:Hk; simpl;
    try (destruct (String.eqb_spec k' k) as [->|]; [by rewrite Hk | done]).
  by rewrite get_set.
Qed.

Lemma objects_only_get (acc : obj) (k : string) :
  objects_only acc → get k acc = VUndefined ∨ ∃ o, get k acc = VObj o.
Proof.
  induction 1 as [|[k0 v0] r [o Ho] _ IH]; simpl; [by left|].
  destruct (String.eqb k k0); [right; eauto | done].
Qed.

Lemma objects_only_has (acc : obj) (k : string) :
  objects_only acc → has k acc = true → ∃ o, get k acc = VObj o.
Proof.
  induction 1 as [|[k0 v0] r [o Ho] _ IH]; simpl; [done|].
  destruct (String.eqb k k0); [eauto | done].
Qed.

Lemma objects_only_set (acc : obj) (k : string) (o : obj) :
  objects_only acc → objects_only (set k (VObj o) acc).
Proof.
  induction 1 as [|[k0 v0] r Hk Hr IH]; simpl.
  - constructor; [by exists o | constructor].
  - destruct (String.eqb k k0); constructor; try done. by exists o.
Qed.

Lemma set_set (k : string) (v v' : value) (o : obj) : set k v (set k v' o) = set k v o.
Proof.
  induction o as [|[k0 v0] r IH]; simpl.
  - by rewrite String.eqb_refl.
  - destruct (String.eqb k k0) eqn:Hk; simpl.
    + by rewrite String.eqb_refl.
    + by rewrite Hk, IH.
Qed.

Lemma upsert_spec (n attribute : string) (v : value) (acc : obj) :
  objects_only acc →
  ∃ entry, (get n acc = VUndefined ∧ entry = [] ∨ get n acc = VObj entry)
           ∧ upsert n attribute v acc = set n (VObj (set attribute v entry)) acc.
Proof.
  intros Hacc. unfold upsert, set_in. rewrite get_set, String.eqb_refl.
  destruct (objects_only_get acc n Hacc) as [Hn|[o Hn]]; rewrite Hn; cbn [js_or truthy].
  - exists []. split; [by left|]. apply set_set.
  - exists o. split; [by right|]. apply set_set.
Qed.

Lemma upsert_objects_only (n attribute : string) (v : value) (acc : obj) :
  objects_only acc → objects_only (upsert n attribute v acc).
Proof.
  intros Hacc. destruct (upsert_spec n attribute v acc Hacc) as (entry & _ & ->).
  by apply objects_only_set.
Qed.

Lemma upsert_has (k n attribute : string) (v : value) (acc : obj) :
  objects_only acc → has k (upsert n attribute v acc) = String.eqb k n || has k acc.
Proof.
  intros Hacc. destruct (upsert_spec n attribute v acc Hacc) as (entry & _ & ->).
  apply has_set.
Qed.

(** The attribute an [upsert] writes, and the ones it leaves alone. *)
Lemma upsert_member (k a n attribute : string) (v : value) (acc : obj) :
  objects_only acc →
  member a (get k (upsert n attribute v acc))
  = if String.eqb k n && String.eqb a attribute then v else member a (get k acc).
Proof.
  intros Hacc. destruct (upsert_spec n attribute v acc Hacc) as (entry & Hentry & ->).
  rewrite get_set. destruct (String.eqb_spec k n) as [->|]; [|done].
  cbn [andb member]. rewrite get_set.
  destruct (String.eqb a attribute); [done|].
  destruct Hentry as [[-> ->]| ->]; done.
Qed.

Section Roles.

Variable role : string → option (string * string).
Variable dirPath : string.

Lemma scan_roles_objects_only (names : list string) (acc : obj) :
  objects_only acc → objects_only (scan_roles role dirPath names acc).
Proof.
  revert acc; induction names as [|F names IH]; intros acc Hacc; simpl; [done|].
  apply IH. destruct (role F) as [[n a]|]; [by apply upsert_objects_only | done].
Qed.

(** The entries of the accumulator are the names the roles give. *)
Lemma scan_roles_has (names : list string) (acc : obj) (k : string) :
  objects_only acc →
  has k (scan_roles role dirPath names acc) = true ↔
  has k acc = true ∨ ∃ F a, F ∈ names ∧ role F = Some (k, a).
Proof.
  revert acc; induction names as [|F names IH]; intros acc Hacc; simpl.
  - split; [by left|]. intros [?|(F & a & []%elem_of_nil & _)]; done.
  - rewrite IH by (destruct (role F) as [[n a]|]; [by apply upsert_objects_only | done]).
    destruct (role F) as [[n a]|] eqn:HF.
    + rewrite upsert_has, orb_true_iff by done. split.
      * intros [[->%String.eqb_eq|?]|(F' & a' & ? & ?)].
        -- right. exists F, a. split; [constructor | done].
        -- by left.
        -- right. exists F', a'. split; [by constructor | done].
      * intros [?|(F' & a' & [->|?]%elem_of_cons & HF')].
        -- left. by right.
        -- left. left. rewrite HF in HF'. injection HF' as -> _. apply String.eqb_refl.
        -- right. eauto.
    + split.
      * intros [?|(F' & a' & ? & ?)]; [by left|]. right. exists F', a'.
        split; [by constructor | done].
      * intros [?|(F' & a' & [->|?]%elem_of_cons & HF')]; [by left| congruence |].
        right. eauto.
Qed.

(** The attribute of an entry holds the path of the one file with that
    role. *)
Lemma scan_roles_member (names : list string) (acc : obj) (F0 n a : string) :
  objects_only acc →
  role F0 = Some (n, a) →
  (∀ F, F ∈ names → role F = Some (n, a) → F = F0) →
  F0 ∈ names ∨ member a (get n acc) = VStr (path_join dirPath F0) →
  member a (get n (scan_roles role dirPath names acc)) = VStr (path_join dirPath F0).
Proof.
  intros Hacc HF0. revert acc Hacc.
  induction names as [|F names IH]; intros acc Hacc Huniq Hin; simpl.
  - destruct Hin as [[]%elem_of_nil|]; done.
  - apply IH.
    + destruct (role F) as [[n' a']|]; [by apply upsert_objects_only | done].
    + intros F' HF'. apply Huniq. by constructor.
    + destruct (role F) as [[n' a']|] eqn:HF.
      * rewrite upsert_member by done.
        destruct (String.eqb_spec n n') as [<-|Hn]; cbn [andb].
        -- destruct (String.eqb_spec a a') as [<-|Ha].
           ++ right. f_equal. f_equal. apply Huniq; [constructor | done].
           ++ destruct Hin as [[->|?]%elem_of_cons|?]; [congruence | by left | by right].
        -- destruct Hin as [[->|?]%elem_of_cons|?]; [congruence | by left | by right].
      * destruct Hin as [[->|?]%elem_of_cons|?]; [congruence | by left | by right].
Qed.

End Roles.

Lemma configurable_scan (dirPath type : string) (names : list string) (acc : obj) :
  (forEach names (configurable_file dirPath type) acc).2
  = scan_roles configurable_role dirPath names acc.
Proof.
  rewrite forEach_snd. unfold scan_roles. revert acc.
  induction names as [|F names IH]; intros acc; simpl; [done|]. rewrite <-IH. f_equal.
  unfold configurable_file, configurable_role, upsert.
  destruct (negb _); [done|]. cbn [snd]. by destruct (endsWith _ _).
Qed.

Lemma append_assoc (s t u : string) : (s +:+ t) +:+ u = s +:+ t +:+ u.
Proof.
  induction s as [|a s IH]; [done|].
  change (String a ((s +:+ t) +:+ u) = String a (s +:+ t +:+ u)). by rewrite IH.
Qed.

Lemma append_nil_r (s : string) : s +:+ "" = s.
Proof.
  induction s as [|a s IH]; [done|]. change (String a (s +:+ "") = String a s). by rewrite IH.
Qed.

Lemma append_length (s t : string) : String.length (s +:+ t) = String.length s + String.length t.
Proof.
  induction s as [|a s IH]; [done|].
  change (S (String.length (s +:+ t)) = S (String.length s) + String.length t).
  by rewrite IH.
Qed.

Lemma append_eq_self (s t : string) : s +:+ t = t → s = ""%string.
Proof.
  intros H. apply (f_equal String.length) in H. rewrite append_length in H.
  destruct s; [done|]. simpl in H. lia.
Qed.

Lemma contains_app_false (c : ascii) (s t : string) :
  contains c (s +:+ t) = false → contains c s = false ∧ contains c t = false.
Proof. rewrite contains_app. apply orb_false_iff. Qed.

(** What [path.parse] finds is what the name is made of. *)
Lemma path_parse_inv (F : string) :
  contains "/" F = false → ext (path_parse F) ≠ ""%string →
  F = name (path_parse F) +:+ ext (path_parse F)
  ∧ name (path_parse F) ≠ ""%string.
Proof.
  intros HF. unfold path_parse. rewrite basename_plain by done.
  destruct (rsplit "." F) as [[pre suf]|] eqn:Hs; [|done].
  destruct (String.eqb_spec pre ""); [done|]. destruct (String.eqb F ".."); [done|].
  cbn [orb name ext]. intros _. apply rsplit_Some in Hs as [-> _]. done.
Qed.

Lemma configurable_role_meta (n : string) :
  contains "/" n = false → n ≠ ""%string →
  configurable_role (n +:+ ".meta.json") = Some (n, "metadataFileName"%string).
Proof.
  intros Hn Hne. unfold configurable_role.
  change (n +:+ ".meta.json") with (n +:+ ".meta" +:+ "." +:+ "json").
  rewrite <-append_assoc. rewrite path_parse_ext; try done.
  - cbn [name ext negb]. change ("." +:+ "json") with ".json"%string.
    rewrite String.eqb_refl. cbn [negb]. rewrite endsWith_app.
    change (n +:+ ".meta") with (n +:+ "." +:+ "meta"). by rewrite path_parse_ext.
  - rewrite contains_app, Hn. done.
  - by destruct n.
Qed.

Lemma configurable_role_config (n : string) :
  contains "/" n = false → n ≠ ""%string → endsWith n ".meta" = false →
  configurable_role (n +:+ ".json") = Some (n, "configFileName"%string).
Proof.
  intros Hn Hne Hm. unfold configurable_role.
  change (n +:+ ".json") with (n +:+ "." +:+ "json").
  rewrite path_parse_ext by done. cbn [name ext].
  change ("." +:+ "json") with ".json"%string. rewrite String.eqb_refl. cbn [negb].
  by rewrite Hm.
Qed.

Lemma configurable_role_inv (F k a : string) :
  contains "/" F = false →
  configurable_role F = Some (k, a) →
  (a = "configFileName"%string ∧ F = k +:+ ".json" ∧ endsWith k ".meta" = false)
  ∨ (a = "metadataFileName"%string
     ∧ (F = k +:+ ".meta.json" ∨ F = ".meta.json"%string ∧ k = ".meta"%string)).
Proof.
  intros HF. unfold configurable_role.
  destruct (String.eqb_spec (ext (path_parse F)) ".json") as [He|]; [|done]. cbn [negb].
  destruct (path_parse_inv F HF) as [HFe Hne]; [by rewrite He|]. rewrite He in HFe.
  destruct (endsWith _ ".meta") eqn:Hm; intros [= <- <-].
  - right. split; [done|]. apply endsWith_inv in Hm as [X HX]. rewrite HX in HFe |- *.
    destruct X as [|x X].
    + right. by rewrite HFe.
    + left. rewrite HFe in HF. apply contains_app_false in HF as [HF _].
      apply contains_app_false in HF as [HX' _].
      change (String x X +:+ ".meta") with (String x X +:+ "." +:+ "meta").
      rewrite path_parse_ext by done. cbn [name].
      rewrite HFe. by rewrite append_assoc.
  - left. done.
Qed.

(** ** What the mapper calls load *)

Lemma Forall2_elem_of_l {A B} (P : A → B → Prop) (l : list A) (k : list B) (x : A) :
  Forall2 P l k → x ∈ l → ∃ y, y ∈ k ∧ P x y.
Proof.
  intros H [i Hi]%list_elem_of_lookup. destruct (Forall2_lookup_l _ _ _ _ _ H Hi) as (y & Hy & ?).
  exists y. split; [by eapply list_elem_of_lookup_2 | done].
Qed.

Lemma Forall2_elem_of_r {A B} (P : A → B → Prop) (l : list A) (k : list B) (y : B) :
  Forall2 P l k → y ∈ k → ∃ x, x ∈ l ∧ P x y.
Proof.
  intros H [i Hi]%list_elem_of_lookup. destruct (Forall2_lookup_r _ _ _ _ _ H Hi) as (x & Hx & ?).
  exists x. split; [by eapply list_elem_of_lookup_2 | done].
Qed.

Lemma member_has (a : string) (v : value) (p : string) :
  member a v = VStr p → ∃ o, v = VObj o ∧ get a o = VStr p ∧ has a o = true.
Proof.
  destruct v as [| | | | | |o]; try done. simpl. intros H. exists o.
  split; [done|]. split; [done|]. apply get_has. by rewrite H.
Qed.

Section Loaded.

Variable fs : filesystem.

(** A configurable, whatever the order in which its two files are read. *)
Lemma processConfigurableConfig_loaded (n : string) (files : obj) (order : list file_read) :
  order ≡ₚ reads (processConfigurableConfig n (VObj files)) →
  let o := loaded_in fs order (current (processConfigurableConfig n (VObj files))) in
  get "name" o = VStr n
  ∧ (∀ p c, get "metadataFileName" files = VStr p → readFile fs p = inr c →
            get "metadataFile" o = VStr c)
  ∧ (∀ p c, get "configFileName" files = VStr p → readFile fs p = inr c →
            get "configFile" o = VStr c).
Proof.
  unfold processConfigurableConfig. cbn [reads current map concat fst snd app].
  destruct (has "configFileName" files) eqn:Hc, (has "metadataFileName" files) eqn:Hm;
    cbn [app]; intros Hp.
  - apply Permutation_sym, Permutation_length_2_inv in Hp as [-> | ->];
      unfold loaded_in; cbn [fold_left fst snd];
      (split; [|split]);
      try (intros p c Hpc Hr; rewrite Hpc; cbn [to_string]; rewrite Hr);
      repeat (destruct (readFile fs _)); by rewrite ?get_set.
  - apply Permutation_sym, Permutation_length_1_inv in Hp as ->.
    unfold loaded_in; cbn [fold_left fst snd]. split; [|split].
    + destruct (readFile fs _); by rewrite ?get_set.
    + intros p c Hpc. by rewrite (has_false_get _ _ Hm) in Hpc.
    + intros p c Hpc Hr. rewrite Hpc. cbn [to_string]. rewrite Hr. by rewrite get_set.
  - apply Permutation_sym, Permutation_length_1_inv in Hp as ->.
    unfold loaded_in; cbn [fold_left fst snd]. split; [|split].
    + destruct (readFile fs _); by rewrite ?get_set.
    + intros p c Hpc Hr. rewrite Hpc. cbn [to_string]. rewrite Hr. by rewrite get_set.
    + intros p c Hpc. by rewrite (has_false_get _ _ Hc) in Hpc.
  - apply Permutation_sym, Permutation_nil in Hp as ->. split; [done|].
    split; intros p c Hpc.
    + by rewrite (has_false_get _ _ Hm) in Hpc.
    + by rewrite (has_false_get _ _ Hc) in Hpc.
Qed.

Lemma forallb_plain (names : list string) (F : string) :
  forallb plain_name names = true → F ∈ names → contains "/" F = false ∧ F ≠ ""%string.
Proof.
  rewrite forallb_forall. intros H HF%list_elem_of_In. by apply plain_name_spec, H.
Qed.

Variable sched : schedule.


End Loaded.

(** ** The scan of the database connections *)

Lemma path_join_nonempty (dir entry : string) : path_join dir entry ≠ ""%string.
Proof.
  unfold path_join. destruct (String.eqb dir "/"); [done|].
  destruct dir; done.
Qed.

Lemma connections_only_get (acc : obj) (k : string) :
  connections_only acc →
  get k acc = VUndefined ∨ ∃ entry scripts, get k acc = VObj entry
                                           ∧ get "scripts" entry = VArr scripts.
Proof.
  intros [_ H]. induction H as [|[k0 v0] r Hk _ IH]; simpl; [by left|].
  destruct (String.eqb k k0); [by right | done].
Qed.

Lemma set_NoDup (k : string) (v : value) (o : obj) : NoDup o.*1 → NoDup (set k v o).*1.
Proof.
  induction o as [|[k0 v0] r IH]; simpl.
  - intros _. repeat constructor. by intros ?%elem_of_nil.
  - intros [Hk0 Hr]%NoDup_cons. destruct (String.eqb_spec k k0) as [->|Hne]; simpl.
    + by apply NoDup_cons.
    + apply NoDup_cons. split; [|by apply IH].
      rewrite <-has_fst, has_set. intros [Heq|Hh]%orb_true_iff.
      * apply String.eqb_eq in Heq. congruence.
      * by apply has_fst in Hh.
Qed.

Lemma connections_only_set (acc : obj) (k : string) (entry : obj) (scripts : list value) :
  get "scripts" entry = VArr scripts →
  connections_only acc → connections_only (set k (VObj entry) acc).
Proof.
  intros He [Hnodup H]. split; [by apply set_NoDup|].
  clear Hnodup. induction H as [|[k0 v0] r Hk Hr IH]; simpl.
  - constructor; [by exists entry, scripts | constructor].
  - destruct (String.eqb k k0); constructor; try done. by exists entry, scripts.
Qed.

Lemma connections_only_nil : connections_only [].
Proof. split; constructor. Qed.

Section DatabaseScan.

Variable K : constants.
Variable fs : filesystem.
Variable dirPath : string.

Hypothesis dirPath_nonempty : dirPath ≠ ""%string.
Hypothesis dirPath_connections : basename dirPath = DATABASE_CONNECTIONS_DIRECTORY K.

Lemma getDatabaseFileDetails_spec (database fileName : string) :
  contains "/" database = false → contains "/" fileName = false →
  (getDatabaseFileDetails K (path_join (path_join dirPath database) fileName)).2
  = match database_role K fileName with
    | Some (Some scriptName) =>
        VObj [("database", VStr database); ("name", VStr scriptName);
              ("isScript", VBool true)]
    | Some None => VObj [("database", VStr database); ("isScript", VBool false)]
    | None => VNull
    end.
Proof.
  intros Hd HF. unfold getDatabaseFileDetails, database_role.
  rewrite basename_path_join, !dirname_path_join, basename_path_join
    by (done || apply path_join_nonempty).
  rewrite dirPath_connections, String.eqb_refl. cbn [andb].
  destruct (test_suffix_i ".js" fileName) eqn:Hjs; cbn [orb].
  - by destruct (_ <? _)%Z.
  - destruct (test_suffix_i ".json" fileName); [|done].
    by destruct (String.eqb _ "configuration").
Qed.

Lemma database_file_spec (database fileName : string) (acc : obj) :
  contains "/" database = false → contains "/" fileName = false →
  connections_only acc →
  (database_file K (path_join dirPath database) fileName acc).2
  = match database_role K fileName with
    | Some _ =>
        set database
            (VObj (connection_file K database (path_join dirPath database) fileName
                     (entry_or_default (get database acc))))
            acc
    | None => acc
    end.
Proof.
  intros Hd HF Hacc. unfold database_file, connection_file. cbn [snd].
  rewrite getDatabaseFileDetails_spec by done.
  destruct (database_role K fileName) as [[scriptName|]|]; cbn [truthy member get String.eqb
    Ascii.eqb Bool.eqb to_string assign set]; [| |done].
  - unfold push_in, push. rewrite get_set, String.eqb_refl.
    destruct (connections_only_get acc database Hacc) as [Hu|(entry & scripts & He & Hs)].
    + rewrite Hu. cbn [js_or truthy member get String.eqb Ascii.eqb Bool.eqb entry_or_default].
      unfold set_in. rewrite get_set, String.eqb_refl. by rewrite set_set.
    + rewrite He. cbn [js_or truthy member entry_or_default]. rewrite Hs.
      unfold set_in. rewrite get_set, String.eqb_refl. by rewrite set_set.
  - unfold set_in. rewrite get_set, String.eqb_refl.
    destruct (connections_only_get acc database Hacc) as [Hu|(entry & scripts & He & Hs)].
    + rewrite Hu. cbn [js_or truthy entry_or_default]. by rewrite set_set.
    + rewrite He. cbn [js_or truthy entry_or_default]. by rewrite set_set.
Qed.

Lemma connection_file_scripts (database fullDir fileName : string) (entry : obj)
    (scripts : list value) :
  get "scripts" entry = VArr scripts →
  ∃ scripts', get "scripts" (connection_file K database fullDir fileName entry) = VArr scripts'.
Proof.
  intros He. unfold connection_file.
  destruct (database_role K fileName) as [[scriptName|]|]; [| |eauto].
  - unfold push. rewrite He, get_set. cbn. eauto.
  - rewrite get_set. cbn. eauto.
Qed.

Lemma entry_or_default_scripts (acc : obj) (k : string) :
  connections_only acc → ∃ scripts, get "scripts" (entry_or_default (get k acc)) = VArr scripts.
Proof.
  intros Hacc. destruct (connections_only_get acc k Hacc) as [->|(e & l & -> & ?)]; cbn; eauto.
Qed.

Lemma connection_files_unrecognized (database : string) (files : list string) (entry : obj) :
  existsb (recognized K) files = false →
  connection_files K dirPath database files entry = entry.
Proof.
  unfold connection_files. induction files as [|F files IH]; cbn [existsb fold_left]; [done|].
  intros [HF Hfiles]%orb_false_iff. unfold connection_file at 2. unfold recognized in HF.
  destruct (database_role K F); [done|]. by apply IH.
Qed.

(** The files of one connection directory touch the entry of that
    connection and nothing else. *)
Lemma database_files_spec (database : string) (files : list string) (acc : obj) :
  contains "/" database = false → forallb plain_name files = true →
  connections_only acc →
  let acc' := (forEach files (database_file K (path_join dirPath database)) acc).2 in
  connections_only acc'
  ∧ (∀ k, k ≠ database → get k acc' = get k acc ∧ has k acc' = has k acc)
  ∧ (if existsb (recognized K) files
     then get database acc'
          = VObj (connection_files K dirPath database files
                    (entry_or_default (get database acc)))
          ∧ has database acc' = true
     else acc' = acc).
Proof.
  intros Hd. rewrite forEach_snd. revert acc.
  induction files as [|F files IH]; intros acc Hplain Hacc; cbn [fold_left existsb].
  { done. }
  cbn [forallb] in Hplain. apply andb_true_iff in Hplain as [HF Hplain].
  apply plain_name_spec in HF as [HF _].
  rewrite database_file_spec by done. unfold recognized at 1.
  destruct (database_role K F) as [role|] eqn:Hrole; cbn [orb].
  2:{ assert (Hskip : ∀ e, connection_files K dirPath database (F :: files) e
                           = connection_files K dirPath database files e).
      { intros e. unfold connection_files. cbn [fold_left]. unfold connection_file.
        by rewrite Hrole. }
      rewrite Hskip. by apply IH. }
  set (e1 := connection_file K database _ F _).
  destruct (entry_or_default_scripts acc database Hacc) as [l0 Hl0].
  destruct (connection_file_scripts database (path_join dirPath database) F _ _ Hl0)
    as [l1 Hl1]. fold e1 in Hl1.
  assert (Hacc1 : connections_only (set database (VObj e1) acc))
    by (by eapply connections_only_set).
  destruct (IH _ Hplain Hacc1) as (Hc & Hother & Hself).
  split; [done|]. split.
  - intros k Hk. destruct (Hother k Hk) as [-> ->].
    rewrite get_set, has_set. by destruct (String.eqb_spec k database).
  - assert (Hstep : connection_files K dirPath database (F :: files)
                      (entry_or_default (get database acc))
                    = connection_files K dirPath database files e1).
    { unfold connection_files. cbn [fold_left]. done. }
    rewrite Hstep. destruct (existsb (recognized K) files) eqn:Hex.
    + destruct Hself as [-> ->]. by rewrite get_set, String.eqb_refl.
    + rewrite Hself, (connection_files_unrecognized _ _ _ Hex).
      by rewrite get_set, has_set, String.eqb_refl.
Qed.

Lemma database_directory_spec (database : string) (acc : obj) :
  contains "/" database = false →
  match readdir fs (path_join dirPath database) with
  | inr files => forallb plain_name files = true
  | inl _ => True
  end →
  connections_only acc →
  let acc' := (database_directory K fs dirPath database acc).2 in
  connections_only acc'
  ∧ (∀ k, k ≠ database → get k acc' = get k acc ∧ has k acc' = has k acc)
  ∧ match readdir fs (path_join dirPath database) with
    | inr files =>
        if existsb (recognized K) files
        then get database acc'
             = VObj (connection_files K dirPath database files
                       (entry_or_default (get database acc)))
             ∧ has database acc' = true
        else acc' = acc
    | inl _ => acc' = acc
    end.
Proof.
  intros Hd Hplain Hacc. unfold database_directory.
  destruct (readdir fs (path_join dirPath database)) as [err|files]; [done|].
  by apply database_files_spec.
Qed.

(** After all the listings, in whatever order they completed: a directory
    that was listed and holds a recognised file has its entry, and nothing
    else has one. *)
Lemma database_directories_spec (dirs : list string) (acc : obj) :
  NoDup dirs → forallb plain_name dirs = true → well_listed fs dirPath dirs = true →
  connections_only acc →
  let acc' := (forEach dirs (database_directory K fs dirPath) acc).2 in
  connections_only acc'
  ∧ ∀ k,
      (k ∉ dirs → get k acc' = get k acc ∧ has k acc' = has k acc)
      ∧ (k ∈ dirs →
         match readdir fs (path_join dirPath k) with
         | inr files =>
             if existsb (recognized K) files
             then get k acc'
                  = VObj (connection_files K dirPath k files (entry_or_default (get k acc)))
                  ∧ has k acc' = true
             else get k acc' = get k acc ∧ has k acc' = has k acc
         | inl _ => get k acc' = get k acc ∧ has k acc' = has k acc
         end).
Proof.
  rewrite forEach_snd. revert acc.
  induction dirs as [|d dirs IH]; intros acc Hnodup Hplain Hlisted Hacc; cbn [fold_left].
  { split; [done|]. intros k. split; [done|]. by intros ?%elem_of_nil. }
  apply NoDup_cons in Hnodup as [Hd Hnodup].
  cbn [forallb] in Hplain. apply andb_true_iff in Hplain as [Hdp Hplain].
  apply plain_name_spec in Hdp as [Hdp _].
  unfold well_listed in Hlisted. cbn [forallb] in Hlisted.
  apply andb_true_iff in Hlisted as [Hdl Hlisted].
  pose proof (database_directory_spec d acc Hdp) as Hstep.
  set (acc1 := (database_directory K fs dirPath d acc).2) in *.
  destruct Hstep as (Hacc1 & Hother & Hself); [by destruct (readdir fs _) | done |].
  destruct (IH acc1 Hnodup Hplain Hlisted Hacc1) as (Hacc' & Hk).
  split; [done|]. intros k. destruct (Hk k) as [Hout Hin].
  destruct (decide (k = d)) as [->|Hne].
  - split; [intros []; constructor|]. intros _.
    destruct (Hout Hd) as [-> ->].
    destruct (readdir fs (path_join dirPath d)) as [err|files]; [by rewrite Hself|].
    destruct (existsb (recognized K) files); [done | by rewrite Hself].
  - destruct (Hother k Hne) as [Hg Hh]. split.
    + intros Hnot. destruct Hout as [-> ->]; [|done]. intros ?. apply Hnot. by constructor.
    + intros [?|Hkin]%elem_of_cons; [done|]. specialize (Hin Hkin).
      rewrite Hg, Hh in Hin. done.
Qed.

End DatabaseScan.

Lemma database_role_script (K : constants) (fileName scriptName : string) :
  database_role K fileName = Some (Some scriptName) →
  scriptName = name (path_parse (name (path_parse fileName))).
Proof.
  unfold database_role. destruct (_ || _); [|done].
  destruct (test_suffix_i ".js" fileName).
  - destruct (_ <? _)%Z; [|done]. by intros [= <-].
  - by destruct (String.eqb _ _).
Qed.

Lemma connection_files_scripts (K : constants) (dirPath database : string)
    (files : list string) (entry : obj) (scripts : list value) :
  get "scripts" entry = VArr scripts →
  get "scripts" (connection_files K dirPath database files entry)
  = VArr (scripts ++ map (script_details database (path_join dirPath database))
                         (List.filter (is_script K) files)).
Proof.
  unfold connection_files. revert entry scripts.
  induction files as [|F files IH]; intros entry scripts He; cbn [fold_left List.filter map].
  { by rewrite app_nil_r. }
  unfold connection_file at 2, is_script at 1.
  destruct (database_role K F) as [[scriptName|]|] eqn:Hrole.
  - apply database_role_script in Hrole as ->.
    rewrite (IH _ (scripts ++ [script_details database (path_join dirPath database) F])).
    + cbn [map]. by rewrite <-app_assoc.
    + unfold push. rewrite He. by rewrite get_set.
  - apply IH. by rewrite get_set.
  - by apply IH.
Qed.

Lemma loaded_in_preserves (fs : filesystem) (k : string) (order : list file_read) (o : obj) :
  Forall (fun r => ∀ contents o, get k (r.2 contents o) = get k o) order →
  get k (loaded_in fs order o) = get k o.
Proof.
  unfold loaded_in. revert o. induction order as [|r order IH]; intros o Hall; [done|].
  inversion Hall as [|? ? Hr Horder]; subst. cbn [fold_left]. rewrite IH by done.
  destruct (readFile fs r.1); [done | apply Hr].
Qed.

Lemma push_other (k f : string) (v : value) (o : obj) :
  k ≠ f → get k (push f v o) = get k o.
Proof.
  intros Hk. unfold push. destruct (get f o); try done.
  rewrite get_set. by destruct (String.eqb_spec k f).
Qed.

(** The scripts of a connection, in the order in which the reads of the
    script files completed. *)
Lemma scripts_loaded (fs : filesystem) (fullDir : string) (tagged : list (string + file_read))
    (o : obj) (scripts : list value) :
  Forall (fun t => match t with
                   | inl fileName => readable fs (script_read fullDir fileName) = true
                   | inr r => ∀ contents o, get "scripts" (r.2 contents o) = get "scripts" o
                   end) tagged →
  get "scripts" o = VArr scripts →
  get "scripts" (loaded_in fs (map (tagged_read fullDir) tagged) o)
  = VArr (scripts ++ map (loaded_script fs fullDir) (omap tagged_script tagged)).
Proof.
  unfold loaded_in. revert o scripts.
  induction tagged as [|t tagged IH]; intros o scripts Hall Ho; cbn [map fold_left omap list_omap].
  { by rewrite app_nil_r. }
  inversion Hall as [|? ? Ht Htagged]; subst. destruct t as [F|r]; cbn [tagged_script tagged_read].
  - unfold readable in Ht. cbn [script_read fst snd] in *.
    destruct (readFile fs (path_join fullDir F)) as [e|contents] eqn:Hread; [done|].
    rewrite (IH _ (scripts ++ [loaded_script fs fullDir F])); [|done|].
    + cbn [map]. by rewrite <-app_assoc.
    + unfold push. rewrite Ho, get_set. unfold loaded_script. by rewrite Hread.
  - apply IH; [done|]. destruct (readFile fs r.1); [done|]. by rewrite Ht.
Qed.

Lemma readDatabaseFiles_reads (K : constants) (dirPath database : string)
    (files : list string) :
  ∃ configuration,
    reads (readDatabaseFiles database
             (VObj (connection_files K dirPath database files [("scripts", VArr [])])))
    = map (script_read (path_join dirPath database)) (List.filter (is_script K) files)
      ++ configuration
    ∧ Forall (fun r : file_read =>
                ∀ contents o, get "scripts" (r.2 contents o) = get "scripts" o
                              ∧ get "name" (r.2 contents o) = get "name" o) configuration.
Proof.
  unfold readDatabaseFiles. cbn [reads member].
  rewrite (connection_files_scripts K dirPath database files _ []) by done.
  cbn [elements app]. rewrite map_map.
  match goal with |- context [_ ++ ?c] => exists c end.
  split; [done|].
  destruct (truthy _); [|constructor].
  constructor; [|constructor]. intros contents o. cbn [snd]. by rewrite !get_set.
Qed.

Lemma tagged_reads (fullDir : string) (scripts : list string) (others : list file_read) :
  map (tagged_read fullDir) (map inl scripts ++ map inr others)
  = map (script_read fullDir) scripts ++ others
  ∧ omap tagged_script (map inl scripts ++ map inr others : list (string + file_read))
    = scripts.
Proof.
  split.
  - rewrite map_app, !map_map. cbn [tagged_read]. by rewrite map_id.
  - induction scripts as [|F scripts IH]; cbn.
    + induction others as [|r others IH]; [done|]. cbn. apply IH.
    + f_equal. apply IH.
Qed.

Lemma forallb_perm {A} (f : A → bool) (l l' : list A) :
  l ≡ₚ l' → forallb f l = true → forallb f l' = true.
Proof.
  intros Hp. rewrite !forallb_forall. intros H x Hx. apply H.
  apply list_elem_of_In. rewrite Hp. by apply list_elem_of_In.
Qed.

Section Databases.

Variable K : constants.
Variable fs : filesystem.
Variable sched : schedule.
Variable dirPath : string.
Variable dirs : list string.

Hypothesis dirPath_nonempty : dirPath ≠ ""%string.
Hypothesis dirPath_connections : basename dirPath = DATABASE_CONNECTIONS_DIRECTORY K.
Hypothesis listed : readdir fs dirPath = inr dirs.
Hypothesis dirs_distinct : NoDup dirs.
Hypothesis dirs_plain : forallb plain_name dirs = true.
Hypothesis dirs_listed : well_listed fs dirPath dirs = true.

Lemma scan_databases_spec :
  let acc := (scan_databases K fs sched dirPath dirs).2 in
  ∀ k,
    (has k acc = true →
     ∃ files, k ∈ dirs ∧ readdir fs (path_join dirPath k) = inr files
              ∧ existsb (recognized K) files = true)
    ∧ (∀ files, k ∈ dirs → readdir fs (path_join dirPath k) = inr files →
                existsb (recognized K) files = true →
                has k acc = true
                ∧ get k acc
                  = VObj (connection_files K dirPath k files [("scripts", VArr [])])).
Proof.
  unfold scan_databases. cbn [snd].
  set (ds := completion_order (listings sched) dirs).
  assert (Hp : ds ≡ₚ dirs) by apply completion_order_perm.
  destruct (database_directories_spec K fs dirPath dirPath_nonempty dirPath_connections ds [])
    as [_ Hk].
  { by rewrite Hp. }
  { eapply forallb_perm; [symmetry; apply Hp | done]. }
  { eapply forallb_perm; [symmetry; apply Hp | done]. }
  { apply connections_only_nil. }
  assert (Hmem : ∀ k, k ∈ ds ↔ k ∈ dirs) by (intros k; by rewrite Hp).
  intros k. destruct (Hk k) as [Hout Hin]. rewrite Hmem in Hout, Hin. split.
  - intros Hhas. destruct (decide (k ∈ dirs)) as [Hkin|Hkout].
    + specialize (Hin Hkin). destruct (readdir fs (path_join dirPath k)) as [err|files].
      * destruct Hin as [_ Hh]. by rewrite Hh in Hhas.
      * destruct (existsb (recognized K) files) eqn:Hrec; [eauto|].
        destruct Hin as [_ Hh]. by rewrite Hh in Hhas.
    + destruct (Hout Hkout) as [_ Hh]. by rewrite Hh in Hhas.
  - intros files Hkin Hfiles Hrec. specialize (Hin Hkin). rewrite Hfiles, Hrec in Hin.
    destruct Hin as [-> ->]. done.
Qed.

Hypothesis reads_succeed :
  all_readable fs (database_jobs (scan_databases K fs sched dirPath dirs).2) = true.

(** What [getDatabases] resolves with: one connection for every directory
    that was listed and holds a recognised file, its scripts being the
    loaded script files in the order in which their reads completed. *)
Lemma getDatabases_resolved :
  ∃ connections,
    settled (getDatabases K fs sched dirPath) = Resolved (VArr (VObj <$> connections))
    ∧ logged (getDatabases K fs sched dirPath) = (scan_databases K fs sched dirPath dirs).1
    ∧ (∀ c, c ∈ connections →
            ∃ d files, d ∈ dirs ∧ readdir fs (path_join dirPath d) = inr files
                       ∧ existsb (recognized K) files = true ∧ get "name" c = VStr d)
    ∧ (∀ d files, d ∈ dirs → readdir fs (path_join dirPath d) = inr files →
                  existsb (recognized K) files = true →
                  ∃ c completed,
                    c ∈ connections ∧ get "name" c = VStr d
                    ∧ completed ≡ₚ List.filter (is_script K) files
                    ∧ get "scripts" c
                      = VArr (map (loaded_script fs (path_join dirPath d)) completed)).
Proof.
  pose proof scan_databases_spec as Hscan. cbn zeta in Hscan.
  unfold getDatabases. rewrite (listing_done _ _ _ _ _ listed).
  set (acc := (scan_databases K fs sched dirPath dirs).2) in *.
  destruct (Promise_map_resolves fs _ (reads_of sched dirPath) 2 reads_succeed)
    as (connections & Hsettled & Hconn).
  exists connections.
  split. { unfold catch_, logging. cbn [settled]. by rewrite Hsettled. }
  split. { unfold catch_, logging. cbn [settled]. rewrite Hsettled. cbn. by rewrite app_nil_r. }
  assert (Hjob : ∀ k files order,
            k ∈ dirs → readdir fs (path_join dirPath k) = inr files →
            existsb (recognized K) files = true →
            order ≡ₚ reads (readDatabaseFiles k (get k acc)) →
            let c := loaded_in fs order (current (readDatabaseFiles k (get k acc))) in
            get "name" c = VStr k
            ∧ ∃ completed, completed ≡ₚ List.filter (is_script K) files
                 ∧ get "scripts" c
                   = VArr (map (loaded_script fs (path_join dirPath k)) completed)).
  { intros k files order Hk Hfiles Hrec Horder.
    destruct (proj2 (Hscan k) files Hk Hfiles Hrec) as [Hhas Hget].
    assert (Hin : readDatabaseFiles k (get k acc) ∈ database_jobs acc).
    { unfold database_jobs. apply list_elem_of_In, in_map_iff. exists k.
      split; [done|]. by apply list_elem_of_In, elem_of_keys. }
    rewrite Hget in *.
    destruct (readDatabaseFiles_reads K dirPath k files) as (cfg & Hreads & Hcfg).
    destruct (tagged_reads (path_join dirPath k) (List.filter (is_script K) files) cfg)
      as [Hmap Homap].
    assert (Hall : Forall (fun t => match t with
                     | inl fileName =>
                         readable fs (script_read (path_join dirPath k) fileName) = true
                     | inr r => ∀ contents o,
                                  get "scripts" (r.2 contents o) = get "scripts" o
                                  ∧ get "name" (r.2 contents o) = get "name" o
                     end) (map inl (List.filter (is_script K) files) ++ map inr cfg)).
    { apply Forall_app. split; apply Forall_forall; intros t Ht%list_elem_of_In%in_map_iff;
        destruct Ht as (x & <- & Hx%list_elem_of_In).
      - destruct (all_readable_spec fs _ reads_succeed _ (script_read (path_join dirPath k) x) Hin)
          as [contents Hc].
        + rewrite Hreads. apply elem_of_app. left.
          by apply list_elem_of_In, in_map, list_elem_of_In.
        + unfold readable. by rewrite Hc.
      - rewrite Forall_forall in Hcfg. by apply Hcfg. }
    rewrite Hreads, <-Hmap in Horder.
    apply Permutation_map_inv in Horder as (tagged' & -> & Htagged).
    rewrite Htagged in Hall.
    split.
    - rewrite loaded_in_preserves; [done|].
      apply Forall_forall. intros r (t & <- & Ht%list_elem_of_In)%list_elem_of_In%in_map_iff.
      rewrite Forall_forall in Hall. specialize (Hall t Ht). intros contents o.
      destruct t as [F|r]; [|by apply Hall]. cbn. by apply push_other.
    - exists (omap tagged_script tagged'). split.
      + by rewrite <-Htagged, Homap.
      + rewrite (scripts_loaded fs _ tagged' _ []); [done| |done].
        eapply Forall_impl; [exact Hall|]. intros [F|r] H; [done|]. intros contents o.
        by apply H. }
  split.
  - intros c Hc.
    destruct (Forall2_elem_of_r _ _ _ _ Hconn Hc) as (j & Hj & order & Horder & ->).
    apply list_elem_of_In, in_map_iff in Hj as (k & <- & Hk%list_elem_of_In%elem_of_keys).
    destruct (proj1 (Hscan k) Hk) as (files & Hkin & Hfiles & Hrec).
    exists k, files. repeat split; try done.
    by apply (Hjob k files order).
  - intros d files Hd Hfiles Hrec.
    destruct (proj2 (Hscan d) files Hd Hfiles Hrec) as [Hhas _].
    assert (Hin : readDatabaseFiles d (get d acc) ∈ database_jobs acc).
    { unfold database_jobs. apply list_elem_of_In, in_map_iff. exists d.
      split; [done|]. by apply list_elem_of_In, elem_of_keys. }
    destruct (Forall2_elem_of_l _ _ _ _ Hconn Hin) as (c & Hc & order & Horder & ->).
    destruct (Hjob d files order Hd Hfiles Hrec Horder) as (Hname & completed & Hp & Hs).
    eexists _, completed. done.
Qed.

End Databases.

(** ** The order in which reads complete *)

Lemma idle_is_done (m : list slot) :
  queued m = 0 → running m = 0 → Forall (fun s => st s = Done) m.
Proof.
  unfold queued, running. induction m as [|s m IH]; simpl; intros Hq Hr; constructor.
  - destruct (st s); simpl in *; try done; lia.
  - apply IH; destruct (st s); simpl in *; lia.
Qed.

Lemma VObj_fmap_inj (l1 l2 : list obj) : VObj <$> l1 = VObj <$> l2 → l1 = l2.
Proof.
  revert l2; induction l1 as [|x l1 IH]; intros [|y l2]; try done.
  rewrite !fmap_cons. intros [= -> H]. f_equal. by apply IH.
Qed.

Section Traced.

Variable fs : filesystem.
Variable jobs : list job.

Lemma completed_by_app (i : nat) (t1 t2 : list (nat * file_read)) :
  completed_by i (t1 ++ t2) = completed_by i t1 ++ completed_by i t2.
Proof. unfold completed_by. by rewrite List.filter_app, map_app. Qed.

Lemma launch_traced (limit : nat) : traced fs jobs [] (launch limit jobs).
Proof.
  intros i s j Hs Hj.
  assert (Hw : (work <$> launch limit jobs) !! i = Some (work s)).
  { by rewrite list_lookup_fmap, Hs. }
  rewrite launch_work in Hw. rewrite Hj in Hw. injection Hw as ->. done.
Qed.

Lemma step_traced (past : list (nat * file_read)) (m m' : list slot) (ev : event) :
  traced fs jobs past m → ev ∈ events m → step fs ev m = inr m' →
  traced fs jobs (past ++ completed_read m ev) m'.
Proof.
  intros Htr Hin Hstep.
  apply events_spec in Hin as (i & s & Hi & Hin).
  apply slot_events_spec in Hin as [Hrun [(j & -> & Hj)|[-> Hnil]]]; cbn [step] in Hstep;
    cbn [completed_read]; rewrite Hi in *.
  - destruct (lookup_lt_is_Some_2 _ _ Hj) as [[path k] Hr].
    unfold file_read in *. rewrite Hr in *.
    destruct (readFile fs path) as [e|contents] eqn:Hread; [done|].
    injection Hstep as <-.
    intros i' s' j' Hs' Hj'. rewrite completed_by_app.
    destruct (decide (i' = i)) as [->|Hne].
    + rewrite list_lookup_insert_eq in Hs' by (by eapply lookup_lt_Some).
      injection Hs' as <-. cbn [work current reads].
      destruct (Htr i s j' Hi Hj') as [Hc Hp].
      assert (Hby : completed_by i [(i, (path, k))] = [(path, k)]).
      { unfold completed_by. cbn. by rewrite Nat.eqb_refl. }
      rewrite Hby. split.
      * rewrite (loaded_in_snoc fs _ (path, k) _ contents Hread). cbn [snd]. by rewrite Hc.
      * rewrite <-Hp, <-app_assoc. f_equiv. cbn [app].
        symmetry. by apply delete_Permutation.
    + rewrite list_lookup_insert_ne in Hs' by done.
      assert (Hby : completed_by i' [(i, (path, k))] = []).
      { unfold completed_by. cbn. by destruct (Nat.eqb_spec i i'). }
      rewrite Hby, app_nil_r. by apply Htr.
  - injection Hstep as <-. rewrite app_nil_r.
    set (m1 := <[i:={| st := Done; work := work s |}]> m).
    assert (Hw1 : work <$> m1 = work <$> m).
    { unfold m1. rewrite list_fmap_insert. apply list_insert_id.
      by rewrite list_lookup_fmap, Hi. }
    assert (Hw2 : work <$> default m1 (start_last m1) = work <$> m).
    { destruct (start_last m1) as [m2|] eqn:Hstart; simpl; [|done].
      apply start_last_Some in Hstart as (Hw2 & _). by rewrite Hw2. }
    intros i' s' j' Hs' Hj'.
    assert (Hs : (work <$> m) !! i' = Some (work s')).
    { by rewrite <-Hw2, list_lookup_fmap, Hs'. }
    apply list_lookup_fmap_Some in Hs as (s0 & Hs0w & Hs0). rewrite Hs0w.
    by apply Htr.
Qed.

Lemma traced_final (past : list (nat * file_read)) (m : list slot) :
  reached fs jobs m → traced fs jobs past m → running m = 0 →
  ∃ objs, results m = VArr (VObj <$> objs)
          ∧ ∀ i j, jobs !! i = Some j →
                   objs !! i = Some (loaded_in fs (completed_by i past) (current j))
                   ∧ completed_by i past ≡ₚ reads j.
Proof.
  intros (Hev & Hdone & Hlive) Htr Hrun.
  destruct Hlive as [Hq|]; [|lia].
  pose proof (idle_is_done m Hq Hrun) as Hall.
  exists (current ∘ work <$> m). split.
  { unfold results. f_equal. by rewrite <-list_fmap_compose. }
  intros i j Hj.
  destruct (Forall2_lookup_l _ _ _ _ _ Hev Hj) as (w & Hw & _).
  apply list_lookup_fmap_Some in Hw as (s & -> & Hs).
  destruct (Htr i s j Hs Hj) as [Hc Hp].
  rewrite Forall_lookup in Hall, Hdone.
  rewrite (Hdone i s Hs (Hall i s Hs)), app_nil_r in Hp.
  split; [|done]. rewrite list_lookup_fmap, Hs. cbn. by rewrite Hc.
Qed.

Lemma run_traced (fuel : nat) (choices : list nat) (m : list slot)
    (past : list (nat * file_read)) (v : value) :
  reached fs jobs m → traced fs jobs past m → steps_left m ≤ fuel →
  run fs fuel choices m = Resolved v →
  ∃ objs, v = VArr (VObj <$> objs)
          ∧ ∀ i j, jobs !! i = Some j →
                   let trace := past ++ completions fs fuel choices m in
                   objs !! i = Some (loaded_in fs (completed_by i trace) (current j))
                   ∧ completed_by i trace ≡ₚ reads j.
Proof.
  revert choices m past; induction fuel as [|n IH]; intros choices m past Hm Htr Hfuel;
    cbn [run completions].
  - intros [= <-]. rewrite app_nil_r. apply traced_final; [done..|].
    pose proof (steps_left_running m). lia.
  - destruct (events m) as [|ev0 evs] eqn:Hevs.
    { intros [= <-]. rewrite app_nil_r. apply traced_final; [done..|]. by apply events_nil. }
    pose proof (pick_elem_of choices ev0 evs) as Hpick. rewrite <-Hevs in Hpick at 2.
    destruct (step fs _ m) as [e|m'] eqn:Hstep; [done|].
    destruct (step_reached fs jobs m m' _ Hm Hpick Hstep) as (Hm' & Hs & _).
    intros Hrun. rewrite app_assoc.
    apply (IH (tl choices) m' _ Hm'); [|lia|done].
    by apply step_traced.
Qed.

(** What [Promise.map] resolves with: the object of each job after its
    reads, in the order in which they completed. *)
Lemma Promise_map_traced (choices : list nat) (limit : nat) (objs : list obj) :
  settled (Promise_map fs choices jobs limit) = Resolved (VArr (VObj <$> objs)) →
  ∀ i j, jobs !! i = Some j →
         let order := completed_by i (map_completions fs choices jobs limit) in
         objs !! i = Some (loaded_in fs order (current j)) ∧ order ≡ₚ reads j.
Proof.
  unfold Promise_map, map_completions. cbn [settled]. intros Hrun.
  destruct (run_traced _ _ _ [] _ (launch_reached fs jobs limit) (launch_traced limit)
              (eq_ind_r (fun n => n ≤ _) (le_n _) (launch_steps jobs limit)) Hrun)
    as (objs' & Hv & H).
  injection Hv as Hv. apply VObj_fmap_inj in Hv as ->. exact H.
Qed.

End Traced.

Lemma lookup_map {A B} (f : A → B) (l : list A) (i : nat) :
  map f l !! i = f <$> l !! i.
Proof. revert i; induction l as [|x l IH]; intros [|i]; simpl; try done. Qed.

Lemma connection_files_configured (K : constants) (dirPath database : string)
    (files : list string) (entry : obj) :
  forallb plain_name files = true →
  (get "configurationFileName" entry = VUndefined
   ∨ ∃ p, get "configurationFileName" entry = VStr p ∧ is_script K (basename p) = false) →
  get "configurationFileName" (connection_files K dirPath database files entry) = VUndefined
  ∨ ∃ p, get "configurationFileName" (connection_files K dirPath database files entry) = VStr p
         ∧ is_script K (basename p) = false.
Proof.
  unfold connection_files. revert entry.
  induction files as [|F files IH]; intros entry Hplain He; cbn [fold_left]; [done|].
  cbn [forallb] in Hplain. apply andb_true_iff in Hplain as [HF Hplain].
  apply plain_name_spec in HF as [HF _].
  apply IH; [done|]. unfold connection_file.
  destruct (database_role K F) as [[scriptName|]|] eqn:Hrole; [| |done].
  - by rewrite push_other.
  - right. eexists. rewrite get_set. split; [done|].
    rewrite basename_path_join by done. unfold is_script. by rewrite Hrole.
Qed.

Lemma readDatabaseFiles_reads_roles (K : constants) (dirPath database : string)
    (files : list string) :
  forallb plain_name files = true →
  ∃ configuration,
    reads (readDatabaseFiles database
             (VObj (connection_files K dirPath database files [("scripts", VArr [])])))
    = map (script_read (path_join dirPath database)) (List.filter (is_script K) files)
      ++ configuration
    ∧ Forall (fun r : file_read =>
                is_script K (basename r.1) = false
                ∧ ∀ contents o, get "scripts" (r.2 contents o) = get "scripts" o
                                ∧ get "name" (r.2 contents o) = get "name" o) configuration.
Proof.
  intros Hplain. unfold readDatabaseFiles. cbn [reads member].
  rewrite (connection_files_scripts K dirPath database files _ []) by done.
  cbn [elements app]. rewrite map_map.
  match goal with |- context [_ ++ ?c] => exists c end.
  split; [done|].
  destruct (connection_files_configured K dirPath database files [("scripts", VArr [])] Hplain)
    as [->|(p & -> & Hp)]; [by left|constructor|].
  destruct (truthy _); [|constructor].
  constructor; [|constructor]. split; [done|].
  intros contents o. cbn [snd]. by rewrite !get_set.
Qed.

Lemma script_files_tagged (K : constants) (fullDir : string)
    (tagged : list (string + file_read)) :
  Forall (fun t => match t with
                   | inl fileName => contains "/" fileName = false
                                     ∧ is_script K fileName = true
                   | inr r => is_script K (basename r.1) = false
                   end) tagged →
  script_files K (map (tagged_read fullDir) tagged) = omap tagged_script tagged.
Proof.
  unfold script_files.
  induction 1 as [|t tagged Ht _ IH]; [done|].
  cbn [map List.filter omap list_omap]. destruct t as [F|r]; cbn [tagged_read tagged_script].
  - destruct Ht as [Hs HF]. cbn [script_read fst]. rewrite basename_path_join by done.
    rewrite HF. cbn [map]. rewrite basename_path_join by done. by rewrite IH.
  - by rewrite Ht.
Qed.

Section DatabasesTraced.

Variable K : constants.
Variable fs : filesystem.
Variable sched : schedule.
Variable dirPath : string.
Variable dirs : list string.

Hypothesis dirPath_nonempty : dirPath ≠ ""%string.
Hypothesis dirPath_connections : basename dirPath = DATABASE_CONNECTIONS_DIRECTORY K.
Hypothesis listed : readdir fs dirPath = inr dirs.
Hypothesis dirs_distinct : NoDup dirs.
Hypothesis dirs_plain : forallb plain_name dirs = true.
Hypothesis dirs_listed : well_listed fs dirPath dirs = true.
Hypothesis reads_succeed :
  all_readable fs (database_jobs (scan_databases K fs sched dirPath dirs).2) = true.

(** The connection of a listed directory after its reads completed in the
    order [order]: its scripts are the script files read, in that order. *)
Lemma connection_loaded (database : string) (files : list string) (order : list file_read) :
  database ∈ dirs →
  readdir fs (path_join dirPath database) = inr files →
  existsb (recognized K) files = true →
  let j := readDatabaseFiles database
             (get database (scan_databases K fs sched dirPath dirs).2) in
  order ≡ₚ reads j →
  get "name" (loaded_in fs order (current j)) = VStr database
  ∧ script_files K order ≡ₚ List.filter (is_script K) files
  ∧ get "scripts" (loaded_in fs order (current j))
    = VArr (map (loaded_script fs (path_join dirPath database)) (script_files K order)).
Proof.
  intros Hk Hfiles Hrec j Horder. subst j.
  pose proof (scan_databases_spec K fs sched dirPath dirs dirPath_nonempty dirPath_connections
                dirs_distinct dirs_plain dirs_listed) as Hscan. cbn zeta in Hscan.
  set (acc := (scan_databases K fs sched dirPath dirs).2) in *.
  destruct (proj2 (Hscan database) files Hk Hfiles Hrec) as [Hhas Hget].
  assert (Hin : readDatabaseFiles database (get database acc) ∈ database_jobs acc).
  { unfold database_jobs. apply list_elem_of_In, in_map_iff. exists database.
    split; [done|]. by apply list_elem_of_In, elem_of_keys. }
  assert (Hplain : forallb plain_name files = true).
  { pose proof dirs_listed as Hw. unfold well_listed in Hw. rewrite forallb_forall in Hw.
    specialize (Hw database (proj1 (list_elem_of_In _ _) Hk)). by rewrite Hfiles in Hw. }
  rewrite Hget in *.
  destruct (readDatabaseFiles_reads_roles K dirPath database files Hplain)
    as (cfg & Hreads & Hcfg).
  destruct (tagged_reads (path_join dirPath database) (List.filter (is_script K) files) cfg)
    as [Hmap Homap].
  assert (Hall : Forall (fun t => match t with
                   | inl fileName =>
                       (contains "/" fileName = false ∧ is_script K fileName = true)
                       ∧ readable fs (script_read (path_join dirPath database) fileName) = true
                   | inr r => is_script K (basename r.1) = false
                              ∧ ∀ contents o,
                                  get "scripts" (r.2 contents o) = get "scripts" o
                                  ∧ get "name" (r.2 contents o) = get "name" o
                   end) (map inl (List.filter (is_script K) files) ++ map inr cfg)).
  { apply Forall_app. split; apply Forall_forall; intros t Ht%list_elem_of_In%in_map_iff;
      destruct Ht as (x & <- & Hx%list_elem_of_In).
    - split.
      + pose proof Hx as Hx'. apply list_elem_of_In, filter_In in Hx' as [Hx' Hs].
        split; [|done]. rewrite forallb_forall in Hplain.
        by apply plain_name_spec, Hplain.
      + destruct (all_readable_spec fs _ reads_succeed _
                    (script_read (path_join dirPath database) x) Hin) as [contents Hc].
        * rewrite Hreads. apply elem_of_app. left.
          by apply list_elem_of_In, in_map, list_elem_of_In.
        * unfold readable. by rewrite Hc.
    - rewrite Forall_forall in Hcfg. by apply Hcfg. }
  rewrite Hreads, <-Hmap in Horder.
  apply Permutation_map_inv in Horder as (tagged' & -> & Htagged).
  rewrite Htagged in Hall.
  rewrite (script_files_tagged K _ tagged').
  2:{ eapply Forall_impl; [exact Hall|]. intros [F|r] H; [by destruct H | by destruct H]. }
  split; [|split].
  - rewrite loaded_in_preserves; [done|].
    apply Forall_forall. intros r (t & <- & Ht%list_elem_of_In)%list_elem_of_In%in_map_iff.
    rewrite Forall_forall in Hall. specialize (Hall t Ht). intros contents o.
    destruct t as [F|r]; [|by apply Hall]. cbn. by apply push_other.
  - by rewrite <-Htagged, Homap.
  - rewrite (scripts_loaded fs _ tagged' _ []); [done| |done].
    eapply Forall_impl; [exact Hall|]. intros [F|r] H; [by destruct H|].
    intros contents o. by apply H.
Qed.

(** What [getDatabases] resolves with, connection by connection. *)
Lemma getDatabases_traced (database : string) (files : list string) :
  database ∈ dirs →
  readdir fs (path_join dirPath database) = inr files →
  existsb (recognized K) files = true →
  ∃ connections i connection,
    settled (getDatabases K fs sched dirPath) = Resolved (VArr (VObj <$> connections))
    ∧ keys (scan_databases K fs sched dirPath dirs).2 !! i = Some database
    ∧ connections !! i = Some connection
    ∧ get "name" connection = VStr database
    ∧ scripts_completed K fs sched dirPath dirs i ≡ₚ List.filter (is_script K) files
    ∧ get "scripts" connection
      = VArr (map (loaded_script fs (path_join dirPath database))
                  (scripts_completed K fs sched dirPath dirs i)).
Proof.
  intros Hk Hfiles Hrec.
  pose proof (scan_databases_spec K fs sched dirPath dirs dirPath_nonempty dirPath_connections
                dirs_distinct dirs_plain dirs_listed) as Hscan. cbn zeta in Hscan.
  destruct (proj2 (Hscan database) files Hk Hfiles Hrec) as [Hhas _].
  apply elem_of_keys, list_elem_of_lookup in Hhas as [i Hi].
  destruct (Promise_map_resolves fs _ (reads_of sched dirPath) 2 reads_succeed)
    as (connections & Hsettled & _).
  assert (Hj : database_jobs (scan_databases K fs sched dirPath dirs).2 !! i
               = Some (readDatabaseFiles database
                         (get database (scan_databases K fs sched dirPath dirs).2))).
  { unfold database_jobs. by rewrite lookup_map, Hi. }
  destruct (Promise_map_traced fs _ _ _ _ Hsettled i _ Hj) as [Hc Hp].
  destruct (connection_loaded database files _ Hk Hfiles Hrec Hp) as (Hname & Hperm & Hs).
  exists connections, i. eexists. split.
  { unfold getDatabases. rewrite (listing_done _ _ _ _ _ listed).
    unfold catch_, logging. cbn [settled]. by rewrite Hsettled. }
  split; [done|]. split; [exact Hc|]. split; [done|]. split; done.
Qed.

End DatabasesTraced.

Lemma indexOf_lower (x : string) (l : list string) : (-1 ≤ indexOf x l)%Z.
Proof.
  induction l as [|y r IH]; simpl; [lia|].
  destruct (String.eqb x y); [lia|]. destruct (Z.ltb_spec (indexOf x r) 0); lia.
Qed.

Lemma indexOf_found (x : string) (l : list string) :
  (-1 <? indexOf x l)%Z = true → x ∈ l.
Proof.
  induction l as [|y r IH]; simpl; [done|].
  destruct (String.eqb_spec x y) as [->|Hne]; [intros _; left|].
  destruct (Z.ltb_spec (indexOf x r) 0) as [Hlt|Hge]; [done|].
  intros _. right. apply IH. apply Z.ltb_lt. lia.
Qed.

Lemma is_script_spec (K : constants) (fileName : string) :
  is_script K fileName = true →
  test_suffix_i ".js" fileName = true
  ∧ name (path_parse fileName) ∈ DATABASE_SCRIPTS K.
Proof.
  unfold is_script, database_role. destruct (_ || _); [|done].
  destruct (test_suffix_i ".js" fileName); [|by destruct (String.eqb _ _)].
  destruct (_ <? _)%Z eqn:Hi; [|done]. intros _. split; [done|]. by apply indexOf_found.
Qed.

Lemma forEach_logged {A S : Type} (l : list A) (f : A → S → list log_line * S) (s : S)
    (x : A) (line : log_line) :
  x ∈ l → (∀ s', line ∈ (f x s').1) → line ∈ (forEach l f s).1.
Proof.
  intros Hx Hline. unfold forEach.
  assert (G : ∀ acc : list log_line * S,
            line ∈ acc.1 ∨ x ∈ l →
            line ∈ (fold_left (fun acc x => let r := f x acc.2 in (acc.1 ++ r.1, r.2)) l acc).1).
  { clear Hx. induction l as [|y r IH]; intros acc [H|H]; simpl.
    - done.
    - by apply elem_of_nil in H.
    - apply IH. left. simpl. apply elem_of_app. by left.
    - apply IH. apply elem_of_cons in H as [->|H]; [left|by right].
      simpl. apply elem_of_app. right. apply Hline. }
  apply G. by right.
Qed.



(** ** Runs that differ in completion order *)

Lemma same_up_to_order_refl (v : value) : same_up_to_order v v.
Proof. destruct v; simpl; reflexivity. Qed.

Lemma same_up_to_order_trans (v1 v2 v3 : value) :
  same_up_to_order v1 v2 → same_up_to_order v2 v3 → same_up_to_order v1 v3.
Proof.
  intros H1 H2. destruct v1, v2; simplify_eq/=; try done.
  destruct v3; simplify_eq/=. by etrans.
Qed.

Lemma alike_refl (o : obj) : alike o o.
Proof. intros k. apply same_up_to_order_refl. Qed.

Lemma alike_trans (o1 o2 o3 : obj) : alike o1 o2 → alike o2 o3 → alike o1 o3.
Proof. intros H1 H2 k. eapply same_up_to_order_trans; [apply H1 | apply H2]. Qed.

Lemma alike_set (k : string) (v : value) (o1 o2 : obj) :
  alike o1 o2 → alike (set k v o1) (set k v o2).
Proof.
  intros H k'. rewrite !get_set. destruct (String.eqb k' k); [|apply H].
  apply same_up_to_order_refl.
Qed.

Lemma alike_push (f : string) (v : value) (o1 o2 : obj) :
  alike o1 o2 → alike (push f v o1) (push f v o2).
Proof.
  intros H. unfold push. pose proof (H f) as Hf.
  destruct (get f o1) as [| | | | |l1|], (get f o2) as [| | | | |l2|]; simpl in Hf; try done.
  intros k. rewrite !get_set. destruct (String.eqb k f); [|apply H].
  simpl. by rewrite Hf.
Qed.

Lemma set_set_comm (k1 k2 : string) (v1 v2 : value) (o : obj) :
  k1 ≠ k2 → alike (set k1 v1 (set k2 v2 o)) (set k2 v2 (set k1 v1 o)).
Proof.
  intros Hne k. rewrite !get_set.
  destruct (String.eqb_spec k k1) as [Hk1|Hk1], (String.eqb_spec k k2) as [Hk2|Hk2];
    subst; try done; apply same_up_to_order_refl.
Qed.

Lemma push_push_comm (f : string) (v1 v2 : value) (o : obj) :
  alike (push f v1 (push f v2 o)) (push f v2 (push f v1 o)).
Proof.
  unfold push. destruct (get f o) as [| | | | |l|] eqn:Hf; rewrite ?Hf; try apply alike_refl.
  rewrite !get_set, !String.eqb_refl. intros k. rewrite !get_set.
  destruct (String.eqb k f); [|apply same_up_to_order_refl].
  simpl. rewrite <-!app_assoc. f_equiv. apply Permutation_swap.
Qed.

Lemma push_set_comm (f k : string) (v x : value) (o : obj) :
  f ≠ k → alike (push f v (set k x o)) (set k x (push f v o)).
Proof.
  intros Hne. unfold push. rewrite get_set.
  destruct (String.eqb_spec f k) as [|_]; [done|].
  destruct (get f o); try apply alike_refl. by apply set_set_comm.
Qed.

Lemma loaded_in_fold (fs : filesystem) (order : list file_read) (o : obj) :
  loaded_in fs order o = fold_left (fun o r => apply_read fs r o) order o.
Proof. done. Qed.

Lemma loaded_in_respects (fs : filesystem) (order : list file_read) (o1 o2 : obj) :
  Forall (fun r => ∀ o1 o2, alike o1 o2 → alike (apply_read fs r o1) (apply_read fs r o2))
         order →
  alike o1 o2 → alike (loaded_in fs order o1) (loaded_in fs order o2).
Proof.
  rewrite !loaded_in_fold. intros Hall. revert o1 o2.
  induction Hall as [|r order Hr _ IH]; intros o1 o2 H; [done|].
  cbn [fold_left]. by apply IH, Hr.
Qed.

(** The objects two completion orders of the same reads lead to are
    alike. *)
Lemma loaded_in_alike (fs : filesystem) (order1 order2 : list file_read) (o1 o2 : obj) :
  order1 ≡ₚ order2 → orderless fs order1 → alike o1 o2 →
  alike (loaded_in fs order1 o1) (loaded_in fs order2 o2).
Proof.
  intros Hp. revert o1 o2.
  induction Hp as [|r l l' Hp IH|x y l|l l' l'' Hp1 IH1 Hp2 IH2];
    intros o1 o2 [Hres Hcomm] Ho.
  - done.
  - rewrite !loaded_in_fold. cbn [fold_left]. rewrite <-!loaded_in_fold.
    inversion Hres; subst. apply IH; [|by auto]. split; [done|].
    intros r1 r2 o ? ?. apply Hcomm; by constructor.
  - rewrite !loaded_in_fold. cbn [fold_left]. rewrite <-!loaded_in_fold.
    inversion Hres as [|? ? Hy Hres']; subst. inversion Hres' as [|? ? Hx Hl]; subst.
    apply loaded_in_respects; [done|].
    eapply alike_trans.
    + apply (Hcomm x y o1); [by do 2 constructor | by constructor].
    + by apply Hy, Hx.
  - assert (Horderless' : orderless fs l').
    { split; [by rewrite <-Hp1|].
      intros r1 r2 o H1 H2. apply Hcomm; by rewrite Hp1. }
    eapply alike_trans; [apply (IH1 o1 o1); [done | apply alike_refl]|].
    by apply IH2.
Qed.

Lemma alike_sym (o1 o2 : obj) : alike o1 o2 → alike o2 o1.
Proof.
  intros H k. specialize (H k).
  destruct (get k o1), (get k o2); simplify_eq/=; try done; by symmetry.
Qed.

Section Orderless.

Variable fs : filesystem.

Lemma orderless_nil : orderless fs [].
Proof. split; [constructor|]. by intros r1 r2 o ?%elem_of_nil. Qed.

Lemma orderless_one (r : file_read) :
  (∀ o1 o2, alike o1 o2 → alike (apply_read fs r o1) (apply_read fs r o2)) →
  orderless fs [r].
Proof.
  intros Hr. split; [by repeat constructor|].
  intros r1 r2 o H1 H2. apply list_elem_of_singleton in H1 as ->.
  apply list_elem_of_singleton in H2 as ->. apply alike_refl.
Qed.

Lemma orderless_two (r1 r2 : file_read) :
  (∀ o1 o2, alike o1 o2 → alike (apply_read fs r1 o1) (apply_read fs r1 o2)) →
  (∀ o1 o2, alike o1 o2 → alike (apply_read fs r2 o1) (apply_read fs r2 o2)) →
  (∀ o, alike (apply_read fs r1 (apply_read fs r2 o)) (apply_read fs r2 (apply_read fs r1 o))) →
  orderless fs [r1; r2].
Proof.
  intros H1 H2 H12. split; [by repeat constructor|].
  intros x y o Hx Hy.
  apply elem_of_cons in Hx as [->|Hx]; [|apply list_elem_of_singleton in Hx as ->];
    (apply elem_of_cons in Hy as [->|Hy]; [|apply list_elem_of_singleton in Hy as ->]);
    try apply alike_refl; [done|]. by apply alike_sym.
Qed.

(** A callback that only assigns properties. *)
Ltac respects_sets :=
  let o1 := fresh "o" in let o2 := fresh "o" in let H := fresh "H" in
  intros o1 o2 H; unfold apply_read; cbn [fst snd];
  destruct (readFile fs _); [done|]; by repeat apply alike_set.

(** Two callbacks that assign different properties. *)
Ltac commute_sets :=
  let o := fresh "o" in let k := fresh "k" in
  intros o; unfold apply_read; cbn [fst snd];
  repeat destruct (readFile fs _); try apply alike_refl;
  intros k; rewrite !get_set;
  repeat match goal with
         | |- context [String.eqb k ?s] => destruct (String.eqb_spec k s); subst; simpl
         end;
  try done; apply same_up_to_order_refl.

Lemma processRule_orderless (ruleName : string) (rule : value) :
  orderless fs (reads (processRule ruleName rule)).
Proof.
  unfold processRule. cbn [reads].
  destruct (truthy (member "script" rule)), (truthy (member "metadata" rule)); cbn [app].
  - apply orderless_two; [respects_sets | respects_sets | commute_sets].
  - apply orderless_one. respects_sets.
  - apply orderless_one. respects_sets.
  - apply orderless_nil.
Qed.

Lemma processPage_orderless (pageName : string) (page : value) :
  orderless fs (reads (processPage pageName page)).
Proof.
  unfold processPage. cbn [reads].
  destruct (truthy (member "fileName" page)), (truthy (member "metaFileName" page)); cbn [app].
  - apply orderless_two; [respects_sets | respects_sets | commute_sets].
  - apply orderless_one. respects_sets.
  - apply orderless_one. respects_sets.
  - apply orderless_nil.
Qed.

Lemma processEmailProvider_orderless (providerName : string) (provider : value) :
  orderless fs (reads (processEmailProvider providerName provider)).
Proof.
  unfold processEmailProvider. cbn [reads]. destruct (truthy _).
  - apply orderless_one. respects_sets.
  - apply orderless_nil.
Qed.

Lemma processConfigurableConfig_orderless (configurableName : string) (files : value) :
  orderless fs (reads (processConfigurableConfig configurableName files)).
Proof.
  unfold processConfigurableConfig. cbn [reads map concat fst snd app].
  destruct files as [| | | | | |files]; try apply orderless_nil.
  destruct (has "configFileName" files), (has "metadataFileName" files); cbn [app].
  - apply orderless_two; [respects_sets | respects_sets | commute_sets].
  - apply orderless_one. respects_sets.
  - apply orderless_one. respects_sets.
  - apply orderless_nil.
Qed.

Lemma readDatabaseFiles_orderless (databaseName : string) (databaseObject : value) :
  orderless fs (reads (readDatabaseFiles databaseName databaseObject)).
Proof.
  unfold readDatabaseFiles. cbn [reads].
  set (script_cb := fun script : value => _).
  set (cfg := if truthy _ then _ else _).
  assert (Hcfg : ∀ r, r ∈ cfg →
            ∃ p x, r = (p, fun contents database =>
                          set "configurationFileName" x
                              (set "configurationFile" (VStr contents) database))).
  { intros r. unfold cfg. destruct (truthy _); [|by intros ?%elem_of_nil].
    intros ->%list_elem_of_singleton. eauto. }
  assert (Hres : ∀ r, r ∈ map script_cb (elements (member "scripts" databaseObject)) ++ cfg →
            ∀ o1 o2, alike o1 o2 → alike (apply_read fs r o1) (apply_read fs r o2)).
  { intros r [Hr|Hr]%elem_of_app o1 o2 H.
    - apply list_elem_of_In, in_map_iff in Hr as (script & <- & _).
      unfold apply_read. cbn [script_cb fst snd]. destruct (readFile fs _); [done|].
      by apply alike_push.
    - destruct (Hcfg r Hr) as (p & x & ->). unfold apply_read. cbn [fst snd].
      destruct (readFile fs _); [done|]. by repeat apply alike_set. }
  split; [by apply Forall_forall|].
  intros r1 r2 o [H1|H1]%elem_of_app [H2|H2]%elem_of_app.
  - apply list_elem_of_In, in_map_iff in H1 as (s1 & <- & _).
    apply list_elem_of_In, in_map_iff in H2 as (s2 & <- & _).
    unfold apply_read. cbn [script_cb fst snd].
    repeat destruct (readFile fs _); try apply alike_refl. apply push_push_comm.
  - apply list_elem_of_In, in_map_iff in H1 as (s1 & <- & _).
    destruct (Hcfg r2 H2) as (p & x & ->).
    unfold apply_read. cbn [script_cb fst snd].
    repeat destruct (readFile fs _); try apply alike_refl.
    eapply alike_trans; [by apply push_set_comm|]. apply alike_set. by apply push_set_comm.
  - apply list_elem_of_In, in_map_iff in H2 as (s2 & <- & _).
    destruct (Hcfg r1 H1) as (p & x & ->).
    unfold apply_read. cbn [script_cb fst snd].
    repeat destruct (readFile fs _); try apply alike_refl.
    apply alike_sym.
    eapply alike_trans; [by apply push_set_comm|]. apply alike_set. by apply push_set_comm.
  - clear Hcfg Hres. unfold cfg in H1, H2.
    destruct (truthy _); [|by apply elem_of_nil in H1].
    apply list_elem_of_singleton in H1, H2. subst r1 r2. apply alike_refl.
Qed.

End Orderless.

Lemma orderless_perm (fs : filesystem) (rs rs' : list file_read) :
  rs ≡ₚ rs' → orderless fs rs → orderless fs rs'.
Proof.
  intros Hp [Hres Hcomm]. split; [by rewrite <-Hp|].
  intros r1 r2 o H1 H2. apply Hcomm; by rewrite Hp.
Qed.

(** Two loads of the same jobs give objects that are alike, one by one. *)
Lemma same_jobs_alike (fs : filesystem) (jobs : list job) (items1 items2 : list obj) :
  Forall (fun j => orderless fs (reads j)) jobs →
  Forall2 (fun j o => ∃ order, order ≡ₚ reads j ∧ o = loaded_in fs order (current j))
          jobs items1 →
  Forall2 (fun j o => ∃ order, order ≡ₚ reads j ∧ o = loaded_in fs order (current j))
          jobs items2 →
  Forall2 alike items1 items2.
Proof.
  intros Hall H1. revert items2. induction H1 as [|j o1 jobs items1 Hj1 _ IH]; intros items2 H2.
  - inversion H2. constructor.
  - inversion H2 as [|? o2 ? items2' Hj2 H2']; subst. inversion Hall; subst.
    constructor; [|by apply IH].
    destruct Hj1 as (order1 & Hp1 & ->), Hj2 as (order2 & Hp2 & ->).
    apply loaded_in_alike.
    + by rewrite Hp1, Hp2.
    + eapply orderless_perm; [symmetry; apply Hp1 | done].
    + apply alike_refl.
Qed.

Lemma scanned_orderless (K : constants) (fs : filesystem) (sched : schedule)
    (dirPath : string) (t : resource) (names : list string) :
  Forall (fun j => orderless fs (reads j)) (scanned K fs sched dirPath t names).
Proof.
  destruct t; cbn [scanned]; apply Forall_forall; intros j Hj%list_elem_of_In%in_map_iff;
    destruct Hj as (k & <- & _).
  - apply processRule_orderless.
  - apply processPage_orderless.
  - apply readDatabaseFiles_orderless.
  - apply processConfigurableConfig_orderless.
  - apply processConfigurableConfig_orderless.
  - apply processPage_orderless.
  - apply processEmailProvider_orderless.
Qed.

Section TwoRuns.

Variable K : constants.
Variable fs : filesystem.
Variable dirPath : string.
Variable dirs : list string.

Hypothesis dirPath_nonempty : dirPath ≠ ""%string.
Hypothesis dirPath_connections : basename dirPath = DATABASE_CONNECTIONS_DIRECTORY K.
Hypothesis listed : readdir fs dirPath = inr dirs.
Hypothesis dirs_distinct : NoDup dirs.
Hypothesis dirs_plain : forallb plain_name dirs = true.
Hypothesis dirs_listed : well_listed fs dirPath dirs = true.

Lemma scan_databases_distinct (sched : schedule) :
  NoDup (keys (scan_databases K fs sched dirPath dirs).2).
Proof.
  rewrite keys_perm. unfold scan_databases. cbn [snd].
  set (ds := completion_order (listings sched) dirs).
  assert (Hp : ds ≡ₚ dirs) by apply completion_order_perm.
  destruct (database_directories_spec K fs dirPath dirPath_nonempty dirPath_connections ds [])
    as [[Hnodup _] _]; [| | |apply connections_only_nil|done].
  - by rewrite Hp.
  - eapply forallb_perm; [symmetry; apply Hp | done].
  - eapply forallb_perm; [symmetry; apply Hp | done].
Qed.

(** Whatever the order in which the listings complete, the same connections
    are loaded from the same files. *)
Lemma database_jobs_perm (sched1 sched2 : schedule) :
  database_jobs (scan_databases K fs sched1 dirPath dirs).2
  ≡ₚ database_jobs (scan_databases K fs sched2 dirPath dirs).2.
Proof.
  pose proof (scan_databases_spec K fs sched1 dirPath dirs dirPath_nonempty
                dirPath_connections dirs_distinct dirs_plain dirs_listed) as H1.
  pose proof (scan_databases_spec K fs sched2 dirPath dirs dirPath_nonempty
                dirPath_connections dirs_distinct dirs_plain dirs_listed) as H2.
  cbn zeta in H1, H2.
  set (acc1 := (scan_databases K fs sched1 dirPath dirs).2) in *.
  set (acc2 := (scan_databases K fs sched2 dirPath dirs).2) in *.
  unfold database_jobs.
  assert (Hkeys : keys acc1 ≡ₚ keys acc2).
  { apply NoDup_Permutation; try apply scan_databases_distinct.
    intros k. rewrite !elem_of_keys. split; intros Hk.
    - destruct (proj1 (H1 k) Hk) as (files & ? & ? & ?). by apply (proj2 (H2 k) files).
    - destruct (proj1 (H2 k) Hk) as (files & ? & ? & ?). by apply (proj2 (H1 k) files). }
  rewrite <-Hkeys. erewrite map_ext_in; [done|].
  intros k Hk%list_elem_of_In%elem_of_keys. cbn beta.
  destruct (proj1 (H1 k) Hk) as (files & Hin & Hfiles & Hrec).
  destruct (proj2 (H1 k) files Hin Hfiles Hrec) as [_ ->].
  destruct (proj2 (H2 k) files Hin Hfiles Hrec) as [_ ->]. done.
Qed.

End TwoRuns.

Lemma scanned_flat (K : constants) (fs : filesystem) (sched1 sched2 : schedule)
    (dirPath : string) (t : resource) (names : list string) :
  t ≠ Databases →
  scanned K fs sched1 dirPath t names = scanned K fs sched2 dirPath t names.
Proof. by destruct t. Qed.

(** ** The properties at work on sample trees *)

Ltac by_evaluation := vm_compute; reflexivity.
Ltac decided := apply (bool_decide_unpack _); vm_compute; exact I.

(** A repository without a [rules] directory: the rules collector resolves
    with [undefined] and the context holds no rules. *)
Lemma absent_directory_gives_empty_default_witness :
  settled (collect tools_constants (tree_fs repo_empty) in_order "/repo" Rules)
  = Resolved VUndefined
  ∧ ∃ ctx,
      settled (init tools_constants (tree_fs repo_empty) in_order keyed_by_name
                 connections_as_loaded (parse_documents []) resolve_absolute
                 (new_Context "/repo" VUndefined) VUndefined) = Resolved ctx
      ∧ field Rules ctx = empty_default Rules.
Proof.
  destruct (absent_directory_gives_empty_default tools_constants (tree_fs repo_empty) in_order
              keyed_by_name connections_as_loaded (parse_documents []) resolve_absolute
              (new_Context "/repo" VUndefined) VUndefined Rules
              (ENOENT "scandir" "/repo/rules")) as (Hcollector & _ & Hbuilt).
  - by_evaluation.
  - by_evaluation.
  - reflexivity.
  - intros m. left. reflexivity.
  - split; [exact Hcollector|]. apply Hbuilt.
    intros t' e' _. destruct t'; vm_compute; discriminate.
Defined.

(** A repository whose [pages] is a file: the listing fails with ENOTDIR and
    the build rejects with the message of the pages collector. *)
Lemma listing_failure_rejects_with_prefix_witness :
  settled (collect tools_constants (tree_fs repo_pages_file) in_order "/repo" Pages)
  = Rejected (Error (rejection_prefix Pages
                     +:+ "ENOTDIR: not a directory, scandir '/repo/pages'"))
  ∧ ∃ e',
      settled (init tools_constants (tree_fs repo_pages_file) in_order keyed_by_name
                 connections_as_loaded (parse_documents []) resolve_absolute
                 (new_Context "/repo" VUndefined) VUndefined) = Rejected e'
      ∧ e' = Error (rejection_prefix Pages
                    +:+ "ENOTDIR: not a directory, scandir '/repo/pages'").
Proof.
  destruct (listing_failure_rejects_with_prefix tools_constants (tree_fs repo_pages_file)
              in_order keyed_by_name connections_as_loaded (parse_documents [])
              resolve_absolute (new_Context "/repo" VUndefined) VUndefined Pages
              (ENOTDIR "scandir" "/repo/pages")) as (Hcollector & e' & Hbuilt & _ & Hsame).
  - by_evaluation.
  - by_evaluation.
  - discriminate.
  - split; [exact Hcollector|]. exists e'. split; [exact Hbuilt|]. apply Hsame.
    intros t' e'' Hne. destruct t'; try (vm_compute; discriminate). by destruct Hne.
Defined.

(** C2 as first stated fails for pages: the message of the pages collector
    is not an instance of the template with the article, whatever the
    label. *)
Lemma pages_message_lacks_the_article :
  ∃ msg,
    settled (init tools_constants (tree_fs repo_pages_file) in_order keyed_by_name
               connections_as_loaded (parse_documents []) resolve_absolute
               (new_Context "/repo" VUndefined) VUndefined) = Rejected (Error msg)
    ∧ msg = "Couldn't process pages directory because: ENOTDIR: not a directory, scandir '/repo/pages'"%string
    ∧ ∀ label underlying, msg ≠ specified_message label underlying.
Proof.
  eexists. split; [by_evaluation|]. split; [reflexivity|].
  intros label underlying H. unfold specified_message in H. cbv in H. discriminate H.
Qed.

(** A descriptor file that holds one connection: the context takes the
    connections from the document and every other collection is empty. *)
Lemma descriptor_file_is_taken_as_parsed_witness :
  ∃ ctx,
    init tools_constants (tree_fs repo_descriptor) in_order keyed_by_name
      connections_as_loaded (parse_documents [(descriptor_text, VObj descriptor_document)])
      resolve_absolute (new_Context "/asFile.json" VUndefined) VUndefined
    = Promise_resolve ctx
    ∧ databases ctx = VArr [VObj [("name", VStr "db1")]]
    ∧ rules ctx = VObj [].
Proof.
  destruct (descriptor_file_is_taken_as_parsed tools_constants (tree_fs repo_descriptor)
              in_order keyed_by_name connections_as_loaded
              (parse_documents [(descriptor_text, VObj descriptor_document)])
              resolve_absolute (new_Context "/asFile.json" VUndefined) VUndefined
              descriptor_text descriptor_document) as (_ & ctx & Hinit & Hfields & _).
  - by_evaluation.
  - by_evaluation.
  - by_evaluation.
  - exists ctx. split; [exact Hinit|]. split.
    + exact (Hfields Databases).
    + exact (Hfields Rules).
Defined.

(** A symbolic link as the input path. *)
Lemma unsupported_input_is_rejected_witness :
  init tools_constants (tree_fs repo_link) in_order keyed_by_name connections_as_loaded
    (parse_documents []) resolve_absolute (new_Context "/link" VUndefined) VUndefined
  = Promise_reject
      (Error "Not sure what to do with, /link, it is not a file or directory...").
Proof.
  apply (unsupported_input_is_rejected tools_constants (tree_fs repo_link) in_order
           keyed_by_name connections_as_loaded (parse_documents []) resolve_absolute
           (new_Context "/link" VUndefined) VUndefined IsSymbolicLink).
  - by_evaluation.
  - discriminate.
  - discriminate.
Defined.







(** C8.  The order of the connections is the order in which the listings
    of their directories complete, which the program leaves open.  On the
    tree of the test of two connections, [db1] comes first when the
    listings complete in the order in which they were started and [db2]
    comes first when they complete in the other order; the test expects
    [db1] before [db2]. *)
Lemma connection_order_follows_the_listings :
  let loaded sched :=
    match settled (getDatabases tools_constants (tree_fs repo_two_connections) sched
                     "/connections1/database-connections") with
    | Resolved connections => map (member "name") (elements connections)
    | _ => []
    end in
  readdir (tree_fs repo_two_connections) "/connections1/database-connections"
  = inr ["db1"; "db2"]
  ∧ loaded in_order = [VStr "db1"; VStr "db2"]
  ∧ loaded listings_reversed = [VStr "db2"; VStr "db1"].
Proof.
  cbv zeta. split; [by_evaluation|]. split; by_evaluation.
Qed.

(** A context made with a dictionary and initialised with other mappings:
    the context keeps the dictionary and the rules are transformed with
    it. *)
Lemma constructor_mappings_take_precedence_witness :
  ∃ ctx,
    settled (init tools_constants (tree_fs repo_rules) in_order with_mappings with_mappings
               (parse_documents []) resolve_absolute
               (new_Context "/repo" (VObj [("hello", VStr "goodbye")]))
               (VObj [("mappings", VObj [("hello", VStr "other")])]))
    = Resolved ctx
    ∧ mappings ctx = VObj [("hello", VStr "goodbye")]
    ∧ member "mappings" (rules ctx) = VObj [("hello", VStr "goodbye")].
Proof.
  destruct (constructor_mappings_take_precedence tools_constants (tree_fs repo_rules)
              in_order with_mappings with_mappings (parse_documents []) resolve_absolute
              "/repo" (VObj [("hello", VStr "goodbye")])
              (VObj [("mappings", VObj [("hello", VStr "other")])]))
    as (ctx & Hctx & Hm & Ht & _).
  - by_evaluation.
  - intros t e. destruct t; vm_compute; discriminate.
  - exists ctx. split; [exact Hctx|]. split; [exact Hm|].
    destruct (Ht Rules) as (v & _ & Hf). cbn [field] in Hf. rewrite Hf. reflexivity.
Defined.

(** C10 as first stated fails: mappings that are not null but falsy, the
    empty string or zero, give way to the mappings of the argument, which
    the context keeps and the transforms are given. *)
Lemma falsy_mappings_fall_back :
  let progress := VObj [("mappings", VObj [("hello", VStr "other")])] in
  let used given :=
    match settled (init tools_constants (tree_fs repo_rules) in_order with_mappings
                     with_mappings (parse_documents []) resolve_absolute
                     (new_Context "/repo" given) progress) with
    | Resolved ctx => (mappings ctx, member "mappings" (rules ctx))
    | _ => (VUndefined, VUndefined)
    end in
  used (VStr "") = (VObj [("hello", VStr "other")], VObj [("hello", VStr "other")])
  ∧ used (VNum 0) = (VObj [("hello", VStr "other")], VObj [("hello", VStr "other")]).
Proof.
  cbv zeta. split; by_evaluation.
Qed.

(** C9 as first stated fails: with four rule files for two rules, both
    mapper calls start and four reads are in flight at once. *)
Lemma four_reads_in_flight :
  map in_flight (loads tools_constants (tree_fs repo_rules) in_order "/repo" Rules)
  = [4; 3; 2; 2; 1; 0; 0]
  ∧ ¬ Forall (fun m => in_flight m ≤ 2)
             (loads tools_constants (tree_fs repo_rules) in_order "/repo" Rules).
Proof.
  split; [by_evaluation|].
  intros H. apply Forall_cons_1 in H as [H _]. vm_compute in H. lia.
Qed.

(** * Further properties of the loader *)

(** ** The input path *)

Section Input.

Variable K : constants.
Variable fs : filesystem.
Variable sched : schedule.
Variable unifyScripts unifyDatabases : value → value → value.
Variable JSON_parse : string → js_error + value.
Variable path_resolve : string → string.

(** X1. When [lstatSync] fails on the input path, for a missing path as for
    any other reason, the build rejects with the message that names the
    resolved path and the underlying message; nothing is logged. *)
Theorem unreachable_input_is_rejected (me : Context) (progress : value) (e : js_error) :
  lstatSync fs (path_resolve (fileName me)) = inl e →
  init K fs sched unifyScripts unifyDatabases JSON_parse path_resolve me progress
  = Promise_reject
      (Error ("Can't process " +:+ path_resolve (fileName me) +:+ " because: " +:+ message e)).
Proof. intros H. unfold init, getChanges. by rewrite H. Qed.

(** X2. A descriptor file that cannot be read, or whose content
    [JSON.parse] refuses, makes [init] throw the underlying error: no promise
    is returned, so the failure is not a rejection. *)
Theorem bad_descriptor_throws (me : Context) (progress : value) (e : js_error) :
  lstatSync fs (path_resolve (fileName me)) = inr IsFile →
  readFile fs (path_resolve (fileName me)) = inl e
  ∨ (∃ text, readFile fs (path_resolve (fileName me)) = inr text ∧ JSON_parse text = inl e) →
  init K fs sched unifyScripts unifyDatabases JSON_parse path_resolve me progress
  = {| logged := []; settled := Thrown e |}.
Proof.
  intros Hfile [Hread|(text & Hread & Hparse)]; unfold init, getChanges;
    rewrite Hfile, Hread; [done|]. by rewrite Hparse.
Qed.

(** X3. The document of a descriptor file is not validated.  When it is a
    number, a string, a boolean or an array, the build resolves and the seven
    collections are empty; when it is [null], the promise rejects. *)
Theorem descriptor_shape_is_not_checked
    (me : Context) (progress : value) (text : string) (document : value) :
  lstatSync fs (path_resolve (fileName me)) = inr IsFile →
  readFile fs (path_resolve (fileName me)) = inr text →
  JSON_parse text = inr document →
  match document with
  | VObj _ => True
  | VNull | VUndefined =>
      ∃ e, settled (init K fs sched unifyScripts unifyDatabases JSON_parse path_resolve
                      me progress) = Rejected e
  | _ =>
      ∃ ctx, init K fs sched unifyScripts unifyDatabases JSON_parse path_resolve me progress
             = Promise_resolve ctx
             ∧ ∀ t, field t ctx = empty_default t
  end.
Proof.
  intros Hfile Hread Hparse. unfold init, getChanges. rewrite Hfile, Hread, Hparse.
  destruct document; try done; unfold then_; cbn; eauto;
    (eexists; split; [reflexivity|]; by intros []).
Qed.

(** X4. In a directory the build is all or nothing: it rejects exactly when
    one of the seven collectors rejects, and then with the error of one of
    them, unchanged; what the other collectors loaded is dropped. *)
Theorem build_rejects_iff_a_collector_does (me : Context) (progress : value) :
  lstatSync fs (path_resolve (fileName me)) = inr IsDirectory →
  let root := path_resolve (fileName me) in
  let built :=
    settled (init K fs sched unifyScripts unifyDatabases JSON_parse path_resolve
               me progress) in
  ((∃ e, built = Rejected e) ↔ (∃ t e, settled (collect K fs sched root t) = Rejected e))
  ∧ (∀ e, built = Rejected e → ∃ t, settled (collect K fs sched root t) = Rejected e)
  ∧ ((∃ ctx, built = Resolved ctx)
     ↔ (∀ t, ∃ v, settled (collect K fs sched root t) = Resolved v)).
Proof.
  intros Hdir root built.
  pose proof (init_directory K fs sched unifyScripts unifyDatabases JSON_parse path_resolve
                me progress Hdir) as H.
  cbn zeta in H. fold root built in H.
  assert (Hall : ∀ t, ∃ o, settled (collect K fs sched root t) = o) by eauto.
  destruct built as [ctx|e|e] eqn:Hb; [| |done].
  - destruct H as [_ Hf]. split; [|split].
    + split; [by intros [e ?]|]. intros (t & e & Ht). destruct (Hf t) as (v & Hv & _).
      by rewrite Hv in Ht.
    + done.
    + split; [|eauto]. intros _ t. destruct (Hf t) as (v & Hv & _). eauto.
  - destruct H as [t Ht]. split; [|split].
    + split; eauto.
    + intros e' [= <-]. eauto.
    + split; [by intros [ctx ?]|]. intros Hres. destruct (Hres t) as [v Hv].
      by rewrite Hv in Ht.
Qed.

End Input.

(** ** Database files and connections *)

Lemma indexOf_missing (x : string) (l : list string) :
  (-1 <? indexOf x l)%Z = false → x ∉ l.
Proof.
  induction l as [|y r IH]; simpl; [intros _; apply not_elem_of_nil|].
  destruct (String.eqb_spec x y) as [->|Hne]; [done|].
  pose proof (indexOf_lower x r).
  destruct (Z.ltb_spec (indexOf x r) 0) as [Hlt|Hge].
  - intros _ [?|Hin]%elem_of_cons; [done|]. revert Hin. apply IH. apply Z.ltb_ge. lia.
  - intros H'. apply Z.ltb_ge in H'. lia.
Qed.

(** X5. [getDatabaseFileDetails] never skips a file silently: it returns
    [null] exactly when it logs a warning.  Details it returns name the
    directory the file is in as the connection; they are those of a script
    only for a name that ends in [.js], in any case, and is on the whitelist
    without that ending, and those of the configuration only for a name that
    is [configuration] before its last dot. *)
Theorem skipped_database_file_is_reported (K : constants) (filename : string) :
  let r := getDatabaseFileDetails K filename in
  (r.2 = VNull ↔ ∃ msg, (warn, msg) ∈ r.1)
  ∧ (r.2 ≠ VNull →
     basename (dirname (dirname filename)) = DATABASE_CONNECTIONS_DIRECTORY K
     ∧ member "database" r.2 = VStr (basename (dirname filename))
     ∧ (member "isScript" r.2 = VBool true
        ∧ test_suffix_i ".js" (basename filename) = true
        ∧ name (path_parse (basename filename)) ∈ DATABASE_SCRIPTS K
        ∧ member "name" r.2 = VStr (name (path_parse (name (path_parse (basename filename)))))
        ∨ member "isScript" r.2 = VBool false
          ∧ test_suffix_i ".js" (basename filename) = false
          ∧ test_suffix_i ".json" (basename filename) = true
          ∧ name (path_parse (basename filename)) = "configuration"%string)).
Proof.
  unfold getDatabaseFileDetails. cbv zeta.
  destruct (String.eqb_spec (basename (dirname (dirname filename)))
              (DATABASE_CONNECTIONS_DIRECTORY K)) as [Hdir|Hdir]; cbn [andb].
  2:{ cbn [fst snd]. split; [|done]. split; [|done]. intros _. eexists.
      apply elem_of_cons. right. apply elem_of_cons. by left. }
  destruct (test_suffix_i ".js" (basename filename)) eqn:Hjs; cbn [orb].
  - destruct (_ <? _)%Z eqn:Hi; cbn [fst snd].
    + split.
      * split; [done|]. intros [msg Hin]. by apply list_elem_of_singleton in Hin.
      * intros _. split; [done|]. split; [done|]. left.
        repeat split; try done. by apply indexOf_found.
    + split; [|done]. split; [|done]. intros _. eexists.
      apply elem_of_cons. right. apply elem_of_cons. by left.
  - destruct (test_suffix_i ".json" (basename filename)) eqn:Hjson.
    + destruct (String.eqb_spec (name (path_parse (basename filename))) "configuration")
        as [Hc|Hc]; cbn [fst snd].
      * split.
        -- split; [done|]. intros [msg Hin]. by apply list_elem_of_singleton in Hin.
        -- intros _. split; [done|]. split; [done|]. right. done.
      * split; [|done]. split; [|done]. intros _. eexists.
        apply elem_of_cons. right. apply elem_of_cons. by left.
    + cbn [fst snd]. split; [|done]. split; [|done]. intros _. eexists.
      apply elem_of_cons. right. apply elem_of_cons. by left.
Qed.



(** ** Reads that fail *)

Section FailingReads.

Variable fs : filesystem.
Variable jobs : list job.

Lemma finished_has_no_read (m : list slot) (w : job) (r : file_read) :
  reached fs jobs m → running m = 0 → w ∈ work <$> m → r ∈ reads w → False.
Proof.
  intros (_ & Hdone & Hlive) Hrun Hw Hr.
  destruct Hlive as [Hq|]; [|lia].
  pose proof (idle_is_done m Hq Hrun) as Hall.
  apply list_elem_of_fmap in Hw as (s & -> & Hs).
  rewrite Forall_forall in Hall, Hdone.
  rewrite (Hdone s Hs (Hall s Hs)) in Hr. by apply elem_of_nil in Hr.
Qed.

(** A read that cannot succeed stays pending until it is tried. *)
Lemma step_keeps_failing_read (m m' : list slot) (ev : event) :
  ev ∈ events m → step fs ev m = inr m' →
  (∃ w r, w ∈ work <$> m ∧ r ∈ reads w ∧ readable fs r = false) →
  ∃ w r, w ∈ work <$> m' ∧ r ∈ reads w ∧ readable fs r = false.
Proof.
  intros Hin Hstep (w & r & Hw & Hr & Hbad).
  apply events_spec in Hin as (i & s & Hi & Hin).
  apply slot_events_spec in Hin as [Hrun [(j & -> & Hj)|[-> Hnil]]]; cbn [step] in Hstep;
    rewrite Hi in Hstep.
  - destruct (lookup_lt_is_Some_2 _ _ Hj) as [[path k] Hrd].
    unfold file_read in *. rewrite Hrd in Hstep.
    destruct (readFile fs path) as [e|contents] eqn:Hread; [done|].
    injection Hstep as <-. rewrite list_fmap_insert. cbn [work].
    apply list_elem_of_lookup in Hw as [i' Hi'].
    destruct (decide (i' = i)) as [->|Hne].
    + rewrite list_lookup_fmap, Hi in Hi'. injection Hi' as <-.
      eexists _, r. split; [|split; [|done]].
      * eapply list_elem_of_lookup_2. apply list_lookup_insert_eq.
        rewrite length_fmap. by eapply lookup_lt_Some.
      * cbn [reads]. pose proof (delete_Permutation _ _ _ Hrd) as Hp.
        rewrite Hp in Hr. apply elem_of_cons in Hr as [->|Hr]; [|done].
        unfold readable in Hbad. cbn [fst] in Hbad. by rewrite Hread in Hbad.
    + exists w, r. split; [|done]. eapply list_elem_of_lookup_2.
      rewrite list_lookup_insert_ne; [exact Hi'|done].
  - injection Hstep as <-.
    set (m1 := <[i:={| st := Done; work := work s |}]> m).
    assert (Hw1 : work <$> m1 = work <$> m).
    { unfold m1. rewrite list_fmap_insert. apply list_insert_id.
      by rewrite list_lookup_fmap, Hi. }
    exists w, r. split; [|done].
    destruct (start_last m1) as [m2|] eqn:Hstart; simpl.
    + apply start_last_Some in Hstart as (Hw2 & _). by rewrite Hw2, Hw1.
    + by rewrite Hw1.
Qed.

Lemma run_blocked (fuel : nat) (choices : list nat) (m : list slot) (v : value) :
  reached fs jobs m → steps_left m ≤ fuel →
  (∃ w r, w ∈ work <$> m ∧ r ∈ reads w ∧ readable fs r = false) →
  run fs fuel choices m ≠ Resolved v.
Proof.
  revert choices m; induction fuel as [|n IH]; intros choices m Hm Hfuel Hbad; cbn [run].
  - destruct Hbad as (w & r & Hw & Hr & _). intros _.
    eapply finished_has_no_read; eauto. pose proof (steps_left_running m). lia.
  - destruct (events m) as [|ev0 evs] eqn:Hevs.
    { destruct Hbad as (w & r & Hw & Hr & _). intros _.
      eapply finished_has_no_read; eauto. by apply events_nil. }
    pose proof (pick_elem_of choices ev0 evs) as Hpick. rewrite <-Hevs in Hpick at 2.
    destruct (step fs _ m) as [e|m'] eqn:Hstep; [done|].
    destruct (step_reached fs jobs m m' _ Hm Hpick Hstep) as (Hm' & Hs & _).
    apply IH; [done|lia|]. eapply step_keeps_failing_read; eauto.
Qed.

(** When a read cannot succeed, [Promise.map] rejects, with the error of a
    read that failed. *)
Lemma Promise_map_rejects (choices : list nat) (limit : nat) :
  all_readable fs jobs = false →
  ∃ j r e, j ∈ jobs ∧ r ∈ reads j ∧ readFile fs r.1 = inl e
           ∧ settled (Promise_map fs choices jobs limit) = Rejected e.
Proof.
  intros Hbad.
  assert (Hex : ∃ w r, w ∈ jobs ∧ r ∈ reads w ∧ readable fs r = false).
  { unfold all_readable in Hbad. clear -Hbad.
    induction jobs as [|j js IH]; simpl in Hbad; [done|].
    apply andb_false_iff in Hbad as [Hj|Hjs].
    - assert (∃ r, r ∈ reads j ∧ readable fs r = false) as (r & Hr & Hb).
      { induction (reads j) as [|r rs IHr]; simpl in Hj; [done|].
        apply andb_false_iff in Hj as [Hr|Hrs].
        - exists r. split; [left|done].
        - destruct (IHr Hrs) as (r' & Hr' & Hb). exists r'. split; [by right|done]. }
      exists j, r. split; [left|done].
    - destruct (IH Hjs) as (w & r & Hw & Hr & Hb). exists w, r. split; [by right|done]. }
  pose proof (Promise_map_settles_well fs jobs choices limit) as Hwell.
  unfold Promise_map in *. cbn [settled] in *.
  destruct (run fs _ _ _) as [v|e|e] eqn:Hrun; [| |done].
  - exfalso. revert Hrun. apply run_blocked; [apply launch_reached| by rewrite launch_steps |].
    by rewrite launch_work.
  - destruct Hwell as (j & r & Hj & Hr & He). exists j, r, e. done.
Qed.

End FailingReads.


(** ** The names of the entities *)

Lemma forEach_invariant {A S : Type} (P : S → Prop) (l : list A)
    (f : A → S → list log_line * S) (s : S) :
  (∀ x s', P s' → P (f x s').2) → P s → P (forEach l f s).2.
Proof.
  intros Hf. rewrite forEach_snd. revert s.
  induction l as [|x l IH]; intros s Hs; simpl; [done|]. apply IH. by apply Hf.
Qed.

Lemma set_in_NoDup (k f : string) (v : value) (o : obj) :
  NoDup o.*1 → NoDup (set_in k f v o).*1.
Proof. intros H. unfold set_in. destruct (get k o); try done. by apply set_NoDup. Qed.

Lemma push_in_NoDup (k f : string) (v : value) (o : obj) :
  NoDup o.*1 → NoDup (push_in k f v o).*1.
Proof.
  intros H. unfold push_in. destruct (member f (get k o)); try done. by apply set_in_NoDup.
Qed.

Lemma keys_NoDup (o : obj) : NoDup o.*1 → NoDup (keys o).
Proof. intros H. by rewrite keys_perm. Qed.

Lemma found_NoDup (K : constants) (fs : filesystem) (sched : schedule) (dirPath : string)
    (t : resource) (names : list string) :
  NoDup (found K fs sched dirPath t names).*1.
Proof.
  assert (Hnil : NoDup (@nil (string * value)).*1) by constructor.
  destruct t; unfold found.
  - apply (forEach_invariant (fun o : obj => NoDup o.*1)); [|done].
    intros F o Ho. unfold rules_file.
    destruct (_ && _); [done|]. destruct (String.eqb _ _); cbn [snd];
      by repeat first [apply set_in_NoDup | apply set_NoDup].
  - apply (forEach_invariant (fun o : obj => NoDup o.*1)); [|done].
    intros F o Ho. unfold pages_file. destruct (isPage K _).2; [|done].
    cbn [snd]. destruct (negb _); by repeat first [apply set_in_NoDup | apply set_NoDup].
  - unfold scan_databases. cbn [snd].
    apply (forEach_invariant (fun o : obj => NoDup o.*1)); [|done].
    intros d o Ho. unfold database_directory. destruct (readdir fs _); [done|].
    apply (forEach_invariant (fun o : obj => NoDup o.*1)); [|done].
    intros F o' Ho'. unfold database_file. cbn [snd]. destruct (truthy _); [|done].
    destruct (truthy _);
      by repeat first [apply push_in_NoDup | apply set_in_NoDup | apply set_NoDup].
  - apply (forEach_invariant (fun o : obj => NoDup o.*1)); [|done].
    intros F o Ho. unfold configurable_file. destruct (negb _); [done|].
    cbn [snd]. destruct (endsWith _ _);
      by repeat first [apply set_in_NoDup | apply set_NoDup].
  - apply (forEach_invariant (fun o : obj => NoDup o.*1)); [|done].
    intros F o Ho. unfold configurable_file. destruct (negb _); [done|].
    cbn [snd]. destruct (endsWith _ _);
      by repeat first [apply set_in_NoDup | apply set_NoDup].
  - apply (forEach_invariant (fun o : obj => NoDup o.*1)); [|done].
    intros F o Ho. unfold templates_file. destruct (isEmailTemplate K _); [|done].
    cbn [snd]. destruct (negb _); by repeat first [apply set_in_NoDup | apply set_NoDup].
  - apply (forEach_invariant (fun o : obj => NoDup o.*1)); [|done].
    intros F o Ho. unfold providers_file. destruct (isEmailProvider K _); [|done].
    cbn [snd]. by repeat first [apply set_in_NoDup | apply set_NoDup].
Qed.

(** The jobs of a collector: one for each key of its accumulator, under the
    key as name, and no read touches the name. *)
Lemma scanned_named (K : constants) (fs : filesystem) (sched : schedule) (dirPath : string)
    (t : resource) (names : list string) :
  Forall2 (fun j n => get "name" (current j) = VStr n
                      ∧ Forall (fun r : file_read =>
                                  ∀ contents o, get "name" (r.2 contents o) = get "name" o)
                               (reads j))
          (scanned K fs sched dirPath t names) (keys (found K fs sched dirPath t names)).
Proof.
  assert (G : ∀ (mapper : string → value → job) (acc : obj),
            (∀ n v, get "name" (current (mapper n v)) = VStr n
                    ∧ Forall (fun r : file_read =>
                                ∀ contents o, get "name" (r.2 contents o) = get "name" o)
                             (reads (mapper n v))) →
            Forall2 (fun j n => get "name" (current j) = VStr n
                      ∧ Forall (fun r : file_read =>
                                  ∀ contents o, get "name" (r.2 contents o) = get "name" o)
                               (reads j))
                    (map (fun n => mapper n (get n acc)) (keys acc)) (keys acc)).
  { intros mapper acc Hm. induction (keys acc) as [|n ks IH]; simpl; constructor; auto. }
  assert (Hset : ∀ k v (o : obj), k ≠ "name"%string →
            get "name" (set k v o) = get "name" o).
  { intros k v o Hk. rewrite get_set.
    destruct (String.eqb_spec "name" k) as [<-|]; done. }
  assert (Hpage : ∀ n v, get "name" (current (processPage n v)) = VStr n
                    ∧ Forall (fun r : file_read =>
                                ∀ contents o, get "name" (r.2 contents o) = get "name" o)
                             (reads (processPage n v))).
  { intros n v. split; [done|]. unfold processPage. cbn [reads].
    destruct (truthy _), (truthy _); repeat constructor; intros contents o; cbn [snd];
      rewrite ?Hset; done. }
  assert (Hconf : ∀ n v, get "name" (current (processConfigurableConfig n v)) = VStr n
                    ∧ Forall (fun r : file_read =>
                                ∀ contents o, get "name" (r.2 contents o) = get "name" o)
                             (reads (processConfigurableConfig n v))).
  { intros n v. split; [done|]. unfold processConfigurableConfig. cbn [reads map concat].
    destruct v; try by constructor.
    cbn [fst snd]. destruct (has _ _), (has _ _); repeat constructor; intros contents o;
      cbn [snd]; rewrite ?Hset; done. }
  destruct t; unfold scanned, found; try apply (G processPage); try done.
  - apply (G processRule). intros n v. split; [done|]. unfold processRule. cbn [reads].
    destruct (truthy _), (truthy _); repeat constructor; intros contents o; cbn [snd];
      rewrite ?Hset; done.
  - apply (G readDatabaseFiles). intros n v. split; [done|].
    unfold readDatabaseFiles. cbn [reads]. apply Forall_app. split.
    + apply Forall_forall. intros r Hr%list_elem_of_In%in_map_iff.
      destruct Hr as (script & <- & _). intros contents o. cbn [snd]. by apply push_other.
    + destruct (truthy _); repeat constructor. intros contents o. cbn [snd].
      rewrite ?Hset; done.
  - by apply (G processConfigurableConfig).
  - by apply (G processConfigurableConfig).
  - apply (G processEmailProvider). intros n v. split; [done|]. unfold processEmailProvider.
    cbn [reads]. destruct (truthy _); repeat constructor; intros contents o; cbn [snd];
      rewrite ?Hset; done.
Qed.


(** ** Scans that assign attributes *)

Section Written.

Variable step : string → obj → obj.
Variable writes : string → string → string → option value.
Variable touches : string → string → bool.

Hypothesis step_law :
  ∀ F acc, objects_only acc →
    objects_only (step F acc)
    ∧ (∀ k, has k (step F acc) = touches F k || has k acc)
    ∧ (∀ k a, member a (get k (step F acc))
              = default (member a (get k acc)) (writes F k a)).

Lemma written_objects_only (names : list string) (acc : obj) :
  objects_only acc → objects_only (fold_left (fun acc F => step F acc) names acc).
Proof.
  revert acc; induction names as [|F names IH]; intros acc Hacc; simpl; [done|].
  apply IH. by apply step_law.
Qed.

Lemma written_has (names : list string) (acc : obj) (k : string) :
  objects_only acc →
  has k (fold_left (fun acc F => step F acc) names acc) = true
  ↔ has k acc = true ∨ ∃ F, F ∈ names ∧ touches F k = true.
Proof.
  revert acc; induction names as [|F names IH]; intros acc Hacc; simpl.
  - split; [by left|]. intros [?|(F & []%elem_of_nil & _)]; done.
  - destruct (step_law F acc Hacc) as (Hobj & Hhas & _).
    rewrite IH, Hhas, orb_true_iff by done. split.
    + intros [[?|?]|(F' & ? & ?)].
      * right. exists F. split; [constructor | done].
      * by left.
      * right. exists F'. split; [by constructor | done].
    + intros [?|(F' & [->|?]%elem_of_cons & HF')].
      * left. by right.
      * left. by left.
      * right. eauto.
Qed.

(** An attribute holds what the files that write it agree on. *)
Lemma written_member (names : list string) (acc : obj) (F0 k a : string) (v : value) :
  objects_only acc →
  writes F0 k a = Some v →
  (∀ F v', F ∈ names → writes F k a = Some v' → v' = v) →
  F0 ∈ names ∨ member a (get k acc) = v →
  member a (get k (fold_left (fun acc F => step F acc) names acc)) = v.
Proof.
  intros Hacc HF0. revert acc Hacc.
  induction names as [|F names IH]; intros acc Hacc Hagree Hin; simpl.
  - destruct Hin as [[]%elem_of_nil|]; done.
  - destruct (step_law F acc Hacc) as (Hobj & _ & Hmem). apply IH; [done| |].
    + intros F' v' HF'. apply Hagree. by constructor.
    + rewrite Hmem. destruct (writes F k a) as [v'|] eqn:HF; cbn [default].
      * right. eapply Hagree; [constructor | done].
      * destruct Hin as [[->|?]%elem_of_cons|?]; [congruence | by left | by right].
Qed.

(** An attribute no file writes is as it was. *)
Lemma unwritten_member (names : list string) (acc : obj) (k a : string) :
  objects_only acc →
  (∀ F, F ∈ names → writes F k a = None) →
  member a (get k (fold_left (fun acc F => step F acc) names acc)) = member a (get k acc).
Proof.
  revert acc; induction names as [|F names IH]; intros acc Hacc Hnone; simpl; [done|].
  destruct (step_law F acc Hacc) as (Hobj & _ & Hmem).
  rewrite IH; [|done|intros F' HF'; apply Hnone; by constructor].
  rewrite Hmem, Hnone; [done | constructor].
Qed.

End Written.

Lemma set_get_same (k : string) (o : obj) : has k o = true → set k (get k o) o = o.
Proof.
  induction o as [|[k' v] r IH]; simpl; [done|].
  destruct (String.eqb_spec k k') as [->|Hne]; [done|]. simpl. intros H. by rewrite IH.
Qed.

(** [acc[n] = acc[n] || {}] followed by two assignments to attributes of
    [acc[n]]. *)
Lemma upsert_twice (n a1 a2 : string) (v1 v2 : value) (acc : obj) :
  objects_only acc →
  set_in n a2 v2 (set_in n a1 v1 (set n (js_or (get n acc) (VObj [])) acc))
  = upsert n a2 v2 (upsert n a1 v1 acc).
Proof.
  intros Hacc. fold (upsert n a1 v1 acc).
  set (Y := upsert n a1 v1 acc). unfold upsert.
  assert (Hhas : has n Y = true).
  { unfold Y. rewrite upsert_has by done. by rewrite String.eqb_refl. }
  destruct (objects_only_has Y n (upsert_objects_only n a1 v1 acc Hacc) Hhas) as [o Ho].
  assert (Hor : js_or (get n Y) (VObj []) = get n Y) by (by rewrite Ho).
  by rewrite Hor, set_get_same.
Qed.

Lemma rules_file_law (dirPath F : string) (acc : obj) :
  objects_only acc →
  objects_only (rules_file dirPath F acc).2
  ∧ (∀ k, has k (rules_file dirPath F acc).2 = rules_touches F k || has k acc)
  ∧ (∀ k a, member a (get k (rules_file dirPath F acc).2)
            = default (member a (get k acc)) (rules_writes dirPath F k a)).
Proof.
  intros Hacc. unfold rules_file, rules_writes, rules_touches, rules_role.
  destruct (negb _ && negb _); cbn [snd]; [done|].
  destruct (String.eqb (ext (path_parse F)) ".js"); cbn [snd];
    rewrite upsert_twice by done.
  - split; [by do 2 apply upsert_objects_only|]. split.
    + intros k. rewrite !upsert_has by (done || by apply upsert_objects_only).
      by destruct (String.eqb k _).
    + intros k a. rewrite !upsert_member by (done || by apply upsert_objects_only).
      destruct (String.eqb k _); [|done]. cbn [andb].
      destruct (String.eqb a "scriptFileName"); [done|]. by destruct (String.eqb a "script").
  - split; [by do 2 apply upsert_objects_only|]. split.
    + intros k. rewrite !upsert_has by (done || by apply upsert_objects_only).
      by destruct (String.eqb k _).
    + intros k a. rewrite !upsert_member by (done || by apply upsert_objects_only).
      destruct (String.eqb k _); [|done]. cbn [andb].
      destruct (String.eqb a "metadataFileName"); [done|].
      by destruct (String.eqb a "metadata").
Qed.

(** ** Rules *)

Section RulesLoaded.

Variable fs : filesystem.

(** A rule, whatever the order in which its two files are read. *)
Lemma processRule_loaded (n : string) (rule : obj) (order : list file_read) :
  order ≡ₚ reads (processRule n (VObj rule)) →
  let o := loaded_in fs order (current (processRule n (VObj rule))) in
  get "name" o = VStr n
  ∧ (∀ p c, get "script" rule = VBool true → get "scriptFileName" rule = VStr p →
            readFile fs p = inr c →
            get "script" o = VBool true ∧ get "scriptFile" o = VStr c)
  ∧ (get "script" rule = VUndefined →
     get "script" o = VBool false ∧ has "scriptFile" o = false)
  ∧ (∀ p c, get "metadata" rule = VBool true → get "metadataFileName" rule = VStr p →
            readFile fs p = inr c →
            get "metadata" o = VBool true ∧ get "metadataFile" o = VStr c)
  ∧ (get "metadata" rule = VUndefined →
     get "metadata" o = VBool false ∧ has "metadataFile" o = false).
Proof.
  unfold processRule. cbn [reads current member].
  destruct (truthy (get "script" rule)) eqn:Hs, (truthy (get "metadata" rule)) eqn:Hm;
    cbn [app]; intros Hp.
  - apply Permutation_sym, Permutation_length_2_inv in Hp as [-> | ->];
      unfold loaded_in; cbn [fold_left fst snd];
      (split; [|split; [|split; [|split]]]);
      try (intros Hu; rewrite Hu in *; discriminate);
      try (intros p c Hflag Hpc Hr; rewrite Hpc; cbn [to_string]; rewrite Hr);
      repeat (destruct (readFile fs _)); by rewrite ?get_set.
  - apply Permutation_sym, Permutation_length_1_inv in Hp as ->.
    unfold loaded_in; cbn [fold_left fst snd]. split; [|split; [|split; [|split]]].
    + destruct (readFile fs _); by rewrite ?get_set.
    + intros p c Hflag Hpc Hr. rewrite Hpc. cbn [to_string]. rewrite Hr. by rewrite ?get_set.
    + intros Hu. by rewrite Hu in Hs.
    + intros p c Hflag. by rewrite Hflag in Hm.
    + intros _. destruct (readFile fs _); by rewrite ?get_set, ?has_set.
  - apply Permutation_sym, Permutation_length_1_inv in Hp as ->.
    unfold loaded_in; cbn [fold_left fst snd]. split; [|split; [|split; [|split]]].
    + destruct (readFile fs _); by rewrite ?get_set.
    + intros p c Hflag. by rewrite Hflag in Hs.
    + intros _. destruct (readFile fs _); by rewrite ?get_set, ?has_set.
    + intros p c Hflag Hpc Hr. rewrite Hpc. cbn [to_string]. rewrite Hr. by rewrite ?get_set.
    + intros Hu. by rewrite Hu in Hm.
  - apply Permutation_sym, Permutation_nil in Hp as ->.
    split; [done|]. split; [|split; [|split]].
    + intros p c Hflag. by rewrite Hflag in Hs.
    + done.
    + intros p c Hflag. by rewrite Hflag in Hm.
    + done.
Qed.

End RulesLoaded.

Lemma rules_scan (dirPath : string) (names : list string) (acc : obj) :
  (forEach names (rules_file dirPath) acc).2
  = fold_left (fun acc F => (rules_file dirPath F acc).2) names acc.
Proof. apply forEach_snd. Qed.

Lemma rules_role_script (n : string) :
  contains "/" n = false → n ≠ ""%string → rules_role (n +:+ ".js") = Some (n, true).
Proof.
  intros Hs Hn. unfold rules_role.
  change (n +:+ ".js") with (n +:+ "." +:+ "js"). by rewrite path_parse_ext.
Qed.

Lemma rules_role_metadata (n : string) :
  contains "/" n = false → n ≠ ""%string → rules_role (n +:+ ".json") = Some (n, false).
Proof.
  intros Hs Hn. unfold rules_role.
  change (n +:+ ".json") with (n +:+ "." +:+ "json"). by rewrite path_parse_ext.
Qed.

Lemma rules_role_inv (F n : string) (isScript : bool) :
  contains "/" F = false → rules_role F = Some (n, isScript) →
  F = n +:+ (if isScript then ".js" else ".json").
Proof.
  intros Hs. unfold rules_role.
  destruct (String.eqb_spec (ext (path_parse F)) ".js") as [He|He]; cbn [negb andb].
  - intros [= <- <-]. destruct (path_parse_inv F Hs) as [HF _]; [by rewrite He|].
    by rewrite He in HF.
  - destruct (String.eqb_spec (ext (path_parse F)) ".json") as [He'|He']; cbn [negb]; [|done].
    intros [= <- <-]. destruct (path_parse_inv F Hs) as [HF _]; [by rewrite He'|].
    by rewrite He' in HF.
Qed.


Lemma forEach_fst {A S : Type} (l : list A) (f : A → S → list log_line * S) (s : S)
    (lines : A → list log_line) :
  (∀ x s', (f x s').1 = lines x) → (forEach l f s).1 = concat (map lines l).
Proof.
  intros Hf. unfold forEach.
  assert (G : ∀ acc : list log_line * S,
            (fold_left (fun acc x => let r := f x acc.2 in (acc.1 ++ r.1, r.2)) l acc).1
            = acc.1 ++ concat (map lines l)).
  { induction l as [|x l IH]; intros acc; simpl; [by rewrite app_nil_r|].
    rewrite IH. cbn [fst snd]. by rewrite Hf, <-app_assoc. }
  by rewrite G.
Qed.


(** ** Pages, email templates and email providers *)

Lemma indexOf_nonneg (x : string) (l : list string) :
  (0 <=? indexOf x l)%Z = true ↔ x ∈ l.
Proof.
  split.
  - intros H. apply indexOf_found. apply Z.ltb_lt. apply Z.leb_le in H. lia.
  - intros H. destruct (-1 <? indexOf x l)%Z eqn:Hi.
    + apply Z.ltb_lt in Hi. apply Z.leb_le. lia.
    + by apply indexOf_missing in Hi.
Qed.

Lemma pages_scan (K : constants) (dirPath : string) (names : list string) (acc : obj) :
  (forEach names (pages_file K dirPath) acc).2
  = scan_roles (pages_role K dirPath) dirPath names acc.
Proof.
  rewrite forEach_snd. unfold scan_roles. revert acc.
  induction names as [|F names IH]; intros acc; simpl; [done|]. rewrite <-IH. f_equal.
  unfold pages_file, pages_role, page_role, upsert.
  destruct (isPage K _).2; [|done]. cbn [snd]. by destruct (negb _).
Qed.

Lemma templates_scan (K : constants) (dirPath : string) (names : list string) (acc : obj) :
  (forEach names (templates_file K dirPath) acc).2
  = scan_roles (templates_role K dirPath) dirPath names acc.
Proof.
  rewrite forEach_snd. unfold scan_roles. revert acc.
  induction names as [|F names IH]; intros acc; simpl; [done|]. rewrite <-IH. f_equal.
  unfold templates_file, templates_role, page_role, upsert.
  destruct (isEmailTemplate K _); [|done]. cbn [snd]. by destruct (negb _).
Qed.

Lemma providers_scan (K : constants) (dirPath : string) (names : list string) (acc : obj) :
  (forEach names (providers_file K dirPath) acc).2
  = scan_roles (providers_role K dirPath) dirPath names acc.
Proof.
  rewrite forEach_snd. unfold scan_roles. revert acc.
  induction names as [|F names IH]; intros acc; simpl; [done|]. rewrite <-IH. f_equal.
  unfold providers_file, providers_role, upsert.
  by destruct (isEmailProvider K _).
Qed.

(** In the directory of its type, a file passes the test by its name
    alone. *)
Lemma isPage_listed (K : constants) (dirPath F : string) :
  dirPath ≠ ""%string → basename dirPath = PAGES_DIRECTORY K → contains "/" F = false →
  (isPage K (path_join dirPath F)).2 = (0 <=? indexOf F (PAGE_NAMES K))%Z.
Proof.
  intros Hne Hbase HF. unfold isPage. cbn [snd].
  rewrite basename_path_join, dirname_path_join, Hbase, String.eqb_refl by done. done.
Qed.

Lemma isEmailTemplate_listed (K : constants) (dirPath F : string) :
  dirPath ≠ ""%string → basename dirPath = EMAIL_TEMPLATES_DIRECTORY K →
  contains "/" F = false →
  isEmailTemplate K (path_join dirPath F) = (0 <=? indexOf F (EMAIL_TEMPLATE_FILENAMES K))%Z.
Proof.
  intros Hne Hbase HF. unfold isEmailTemplate.
  rewrite basename_path_join, dirname_path_join, Hbase, String.eqb_refl by done. done.
Qed.

Lemma isEmailProvider_listed (K : constants) (dirPath F : string) :
  dirPath ≠ ""%string → basename dirPath = EMAIL_PROVIDERS_DIRECTORY K →
  contains "/" F = false →
  isEmailProvider K (path_join dirPath F) = String.eqb F (EMAIL_PROVIDER_FILENAME K).
Proof.
  intros Hne Hbase HF. unfold isEmailProvider.
  rewrite basename_path_join, dirname_path_join, Hbase, String.eqb_refl by done. done.
Qed.

Lemma scan_roles_unwritten (role : string → option (string * string)) (dirPath : string)
    (names : list string) (acc : obj) (n a : string) :
  objects_only acc →
  (∀ F, F ∈ names → role F ≠ Some (n, a)) →
  member a (get n (scan_roles role dirPath names acc)) = member a (get n acc).
Proof.
  revert acc; induction names as [|F names IH]; intros acc Hacc Hnone; simpl; [done|].
  rewrite IH.
  - destruct (role F) as [[n' a']|] eqn:HF; [|done]. rewrite upsert_member by done.
    destruct (String.eqb_spec n n') as [<-|]; [|done].
    destruct (String.eqb_spec a a') as [<-|]; [|done].
    exfalso. eapply Hnone; [constructor | done].
  - destruct (role F) as [[n' a']|]; [by apply upsert_objects_only | done].
  - intros F' HF'. apply Hnone. by constructor.
Qed.

Section PageLoaded.

Variable fs : filesystem.

(** A page or an email template, whatever the order in which its two
    files are read. *)
Lemma processPage_loaded (n : string) (page : obj) (order : list file_read) :
  order ≡ₚ reads (processPage n (VObj page)) →
  let o := loaded_in fs order (current (processPage n (VObj page))) in
  get "name" o = VStr n
  ∧ (∀ p c, get "fileName" page = VStr p → p ≠ ""%string → readFile fs p = inr c →
            get "htmlFile" o = VStr c)
  ∧ (get "fileName" page = VUndefined → has "htmlFile" o = false)
  ∧ (∀ p c, get "metaFileName" page = VStr p → p ≠ ""%string → readFile fs p = inr c →
            get "metadata" o = VBool true ∧ get "metadataFile" o = VStr c)
  ∧ (get "metaFileName" page = VUndefined →
     get "metadata" o = VBool false ∧ has "metadataFile" o = false).
Proof.
  assert (Ht : ∀ p, p ≠ ""%string → truthy (VStr p) = true).
  { intros p Hp. cbn. by destruct (String.eqb_spec p ""). }
  unfold processPage. cbn [reads current member].
  destruct (truthy (get "fileName" page)) eqn:Hs, (truthy (get "metaFileName" page)) eqn:Hm;
    cbn [app]; intros Hp.
  - apply Permutation_sym, Permutation_length_2_inv in Hp as [-> | ->];
      unfold loaded_in; cbn [fold_left fst snd];
      (split; [|split; [|split; [|split]]]);
      try (intros Hu; rewrite Hu in *; discriminate);
      try (intros p c Hpc Hne Hr; rewrite Hpc; cbn [to_string]; rewrite Hr);
      repeat (destruct (readFile fs _)); by rewrite ?get_set.
  - apply Permutation_sym, Permutation_length_1_inv in Hp as ->.
    unfold loaded_in; cbn [fold_left fst snd]. split; [|split; [|split; [|split]]].
    + destruct (readFile fs _); by rewrite ?get_set.
    + intros p c Hpc Hne Hr. rewrite Hpc. cbn [to_string]. rewrite Hr. by rewrite ?get_set.
    + intros Hu. by rewrite Hu in Hs.
    + intros p c Hpc Hne. rewrite Hpc, Ht in Hm; done.
    + intros _. destruct (readFile fs _); by rewrite ?get_set, ?has_set.
  - apply Permutation_sym, Permutation_length_1_inv in Hp as ->.
    unfold loaded_in; cbn [fold_left fst snd]. split; [|split; [|split; [|split]]].
    + destruct (readFile fs _); by rewrite ?get_set.
    + intros p c Hpc Hne. rewrite Hpc, Ht in Hs; done.
    + intros _. destruct (readFile fs _); by rewrite ?get_set, ?has_set.
    + intros p c Hpc Hne Hr. rewrite Hpc. cbn [to_string]. rewrite Hr. by rewrite ?get_set.
    + intros Hu. by rewrite Hu in Hm.
  - apply Permutation_sym, Permutation_nil in Hp as ->.
    split; [done|]. split; [|split; [|split]].
    + intros p c Hpc Hne. rewrite Hpc, Ht in Hs; done.
    + done.
    + intros p c Hpc Hne. rewrite Hpc, Ht in Hm; done.
    + done.
Qed.

End PageLoaded.

Section PageLike.

Variable fs : filesystem.
Variable dirPath : string.
Variable names : list string.
Variable whitelist : list string.
Variable role : string → option (string * string).
Variable choices : list nat.

Hypothesis names_plain : forallb plain_name names = true.
Hypothesis role_listed :
  ∀ F, F ∈ names → role F = page_role (0 <=? indexOf F whitelist)%Z F.
Hypothesis reads_succeed :
  all_readable fs (map (fun n => processPage n (get n (scan_roles role dirPath names [])))
                       (keys (scan_roles role dirPath names []))) = true.

(** What a collector of pages or of email templates resolves with. *)
Lemma page_like_loaded :
  ∃ items,
    settled (Promise_map fs choices
               (map (fun n => processPage n (get n (scan_roles role dirPath names [])))
                    (keys (scan_roles role dirPath names []))) 2)
    = Resolved (VArr (VObj <$> items))
    ∧ (∀ item, item ∈ items →
               ∃ F, F ∈ names ∧ F ∈ whitelist
                    ∧ get "name" item = VStr (name (path_parse F)))
    ∧ (∀ F c,
         F ∈ names → F ∈ whitelist → ext (path_parse F) ≠ ".json"%string →
         (∀ F', F' ∈ names → F' ∈ whitelist →
                name (path_parse F') = name (path_parse F) →
                ext (path_parse F') ≠ ".json"%string → F' = F) →
         readFile fs (path_join dirPath F) = inr c →
         ∃ item,
           item ∈ items
           ∧ get "name" item = VStr (name (path_parse F))
           ∧ get "htmlFile" item = VStr c
           ∧ (∀ M c', M ∈ names → M ∈ whitelist →
                      name (path_parse M) = name (path_parse F) →
                      ext (path_parse M) = ".json"%string →
                      readFile fs (path_join dirPath M) = inr c' →
                      get "metadata" item = VBool true ∧ get "metadataFile" item = VStr c')
           ∧ ((∀ M, M ∈ names → M ∈ whitelist →
                    name (path_parse M) = name (path_parse F) →
                    ext (path_parse M) ≠ ".json"%string) →
              get "metadata" item = VBool false ∧ has "metadataFile" item = false)).
Proof.
  set (acc := scan_roles role dirPath names []) in *.
  destruct (Promise_map_resolves fs _ choices 2 reads_succeed) as (items & Hsettled & Hitems).
  exists items. split; [done|].
  assert (Hnil : objects_only []) by constructor.
  assert (Hacc : objects_only acc) by (by apply scan_roles_objects_only).
  apply Forall2_fmap_l in Hitems.
  assert (Hrole : ∀ F n a, F ∈ names → role F = Some (n, a) →
            F ∈ whitelist ∧ n = name (path_parse F)
            ∧ a = (if negb (String.eqb (ext (path_parse F)) ".json")
                   then "fileName" else "metaFileName")%string).
  { intros F n a HF. rewrite (role_listed F HF). unfold page_role.
    destruct (0 <=? _)%Z eqn:Hi; [|done]. intros [= <- <-].
    split; [by apply indexOf_nonneg | done]. }
  assert (Hrole' : ∀ F, F ∈ names → F ∈ whitelist →
            role F = Some (name (path_parse F),
                           (if negb (String.eqb (ext (path_parse F)) ".json")
                            then "fileName" else "metaFileName")%string)).
  { intros F HF Hw. rewrite (role_listed F HF). unfold page_role.
    by rewrite (proj2 (indexOf_nonneg F whitelist) Hw). }
  split.
  - intros item Hitem.
    destruct (Forall2_elem_of_r _ _ _ _ Hitems Hitem) as (k & Hk & order & Horder & ->).
    apply elem_of_keys in Hk.
    destruct (objects_only_has acc k Hacc Hk) as [page Hpage].
    apply scan_roles_has in Hk as [?|(F & a & HF & HFrole)]; [done| |done].
    destruct (Hrole F k a HF HFrole) as (Hw & -> & _).
    rewrite Hpage in *. exists F. split; [done|]. split; [done|].
    by destruct (processPage_loaded fs _ page order Horder) as (-> & _).
  - intros F c HF Hw Hext Huniq Hc.
    set (n := name (path_parse F)).
    assert (Hext' : negb (String.eqb (ext (path_parse F)) ".json") = true).
    { by destruct (String.eqb_spec (ext (path_parse F)) ".json"). }
    pose proof (Hrole' F HF Hw) as HFrole. rewrite Hext' in HFrole. fold n in HFrole.
    assert (Hkey : n ∈ keys acc).
    { apply elem_of_keys, scan_roles_has; [done|]. right. eauto. }
    destruct (Forall2_elem_of_l _ _ _ _ Hitems Hkey) as (item & Hitem & order & Horder & ->).
    assert (Hfile : member "fileName" (get n acc) = VStr (path_join dirPath F)).
    { apply scan_roles_member; [done | done | | by left].
      intros F' HF' HF'role. destruct (Hrole F' _ _ HF' HF'role) as (Hw' & Hn' & Ha').
      apply Huniq; [done | done | done |].
      destruct (String.eqb_spec (ext (path_parse F')) ".json"); done. }
    apply member_has in Hfile as (page & Hpage & Hget & _). rewrite Hpage in *.
    destruct (processPage_loaded fs n page order Horder) as (Hname & Hhtml & _ & Hm & Hnm).
    eexists. split; [exact Hitem|]. split; [done|].
    split; [eapply Hhtml; [done | apply path_join_nonempty | done]|].
    split.
    + intros M c' HM HMw HMn HMe HMc.
      pose proof (Hrole' M HM HMw) as HMrole. rewrite HMe, HMn in HMrole. fold n in HMrole.
      cbn [negb String.eqb] in HMrole.
      assert (Hmeta : member "metaFileName" (get n acc) = VStr (path_join dirPath M)).
      { apply scan_roles_member; [done | done | | by left].
        intros M' HM' HM'role. destruct (Hrole M' _ _ HM' HM'role) as (_ & Hn' & Ha').
        destruct (String.eqb_spec (ext (path_parse M')) ".json") as [He|]; [|done].
        destruct (forallb_plain _ _ names_plain HM) as [HMs _].
        destruct (forallb_plain _ _ names_plain HM') as [HM's _].
        destruct (path_parse_inv M HMs) as [HMeq _]; [by rewrite HMe|].
        destruct (path_parse_inv M' HM's) as [HM'eq _]; [by rewrite He|].
        rewrite HM'eq, HMeq, He, HMe, HMn. by rewrite <-Hn'. }
      rewrite Hpage in Hmeta. cbn [member] in Hmeta.
      eapply Hm; [done | apply path_join_nonempty | done].
    + intros Hnone. apply Hnm.
      assert (Hu : member "metaFileName" (get n acc) = member "metaFileName" (get n [])).
      { apply scan_roles_unwritten; [done|].
        intros M HM HMrole. destruct (Hrole M _ _ HM HMrole) as (HMw & Hn' & Ha').
        destruct (String.eqb_spec (ext (path_parse M)) ".json") as [He|]; [|done].
        by apply (Hnone M HM HMw). }
      by rewrite Hpage in Hu.
Qed.

End PageLike.

Lemma collector_logged {A} (fs : filesystem) (dirPath : string) (names : list string)
    (k : list string → promise A) (h : js_error → promise A) (line : log_line) :
  readdir fs dirPath = inr names →
  line ∈ logged (k names) →
  line ∈ logged (catch_ (then_ (readdirAsync fs dirPath) k) h).
Proof.
  intros Hlist Hin. rewrite (listing_done _ _ _ _ _ Hlist).
  unfold catch_, logging.
  destruct (settled (k names)); cbn [logged]; try done. apply elem_of_app. by left.
Qed.

Section Pages.

Variable K : constants.
Variable fs : filesystem.
Variable sched : schedule.
Variable dirPath : string.
Variable names : list string.

Hypothesis dirPath_nonempty : dirPath ≠ ""%string.
Hypothesis names_listed : readdir fs dirPath = inr names.
Hypothesis names_plain : forallb plain_name names = true.

Lemma getPages_loaded :
  basename dirPath = PAGES_DIRECTORY K →
  all_readable fs (pages_jobs (forEach names (pages_file K dirPath) []).2) = true →
  ∃ items,
    settled (getPages K fs sched dirPath) = Resolved (VArr (VObj <$> items))
    ∧ (∀ item, item ∈ items →
               ∃ F, F ∈ names ∧ F ∈ PAGE_NAMES K
                    ∧ get "name" item = VStr (name (path_parse F)))
    ∧ (∀ F c,
         F ∈ names → F ∈ PAGE_NAMES K → ext (path_parse F) ≠ ".json"%string →
         (∀ F', F' ∈ names → F' ∈ PAGE_NAMES K →
                name (path_parse F') = name (path_parse F) →
                ext (path_parse F') ≠ ".json"%string → F' = F) →
         readFile fs (path_join dirPath F) = inr c →
         ∃ item,
           item ∈ items
           ∧ get "name" item = VStr (name (path_parse F))
           ∧ get "htmlFile" item = VStr c
           ∧ (∀ M c', M ∈ names → M ∈ PAGE_NAMES K →
                      name (path_parse M) = name (path_parse F) →
                      ext (path_parse M) = ".json"%string →
                      readFile fs (path_join dirPath M) = inr c' →
                      get "metadata" item = VBool true ∧ get "metadataFile" item = VStr c')
           ∧ ((∀ M, M ∈ names → M ∈ PAGE_NAMES K →
                    name (path_parse M) = name (path_parse F) →
                    ext (path_parse M) ≠ ".json"%string) →
              get "metadata" item = VBool false ∧ has "metadataFile" item = false)).
Proof.
  intros Hbase Hreads. rewrite pages_scan in Hreads.
  destruct (page_like_loaded fs dirPath names (PAGE_NAMES K) (pages_role K dirPath)
              (reads_of sched dirPath) names_plain) as (items & Hsettled & H).
  { intros F HF. unfold pages_role. rewrite isPage_listed; [done..|].
    by destruct (forallb_plain _ _ names_plain HF). }
  { exact Hreads. }
  exists items. split; [|exact H].
  unfold getPages. rewrite (listing_done _ _ _ _ _ names_listed), pages_scan.
  unfold catch_, logging, pages_jobs. cbn [settled]. by rewrite Hsettled.
Qed.

Lemma getEmailTemplates_loaded :
  basename dirPath = EMAIL_TEMPLATES_DIRECTORY K →
  all_readable fs (templates_jobs (forEach names (templates_file K dirPath) []).2) = true →
  ∃ items,
    settled (getEmailTemplates K fs sched dirPath) = Resolved (VArr (VObj <$> items))
    ∧ (∀ item, item ∈ items →
               ∃ F, F ∈ names ∧ F ∈ EMAIL_TEMPLATE_FILENAMES K
                    ∧ get "name" item = VStr (name (path_parse F)))
    ∧ (∀ F c,
         F ∈ names → F ∈ EMAIL_TEMPLATE_FILENAMES K → ext (path_parse F) ≠ ".json"%string →
         (∀ F', F' ∈ names → F' ∈ EMAIL_TEMPLATE_FILENAMES K →
                name (path_parse F') = name (path_parse F) →
                ext (path_parse F') ≠ ".json"%string → F' = F) →
         readFile fs (path_join dirPath F) = inr c →
         ∃ item,
           item ∈ items
           ∧ get "name" item = VStr (name (path_parse F))
           ∧ get "htmlFile" item = VStr c
           ∧ (∀ M c', M ∈ names → M ∈ EMAIL_TEMPLATE_FILENAMES K →
                      name (path_parse M) = name (path_parse F) →
                      ext (path_parse M) = ".json"%string →
                      readFile fs (path_join dirPath M) = inr c' →
                      get "metadata" item = VBool true ∧ get "metadataFile" item = VStr c')
           ∧ ((∀ M, M ∈ names → M ∈ EMAIL_TEMPLATE_FILENAMES K →
                    name (path_parse M) = name (path_parse F) →
                    ext (path_parse M) ≠ ".json"%string) →
              get "metadata" item = VBool false ∧ has "metadataFile" item = false)).
Proof.
  intros Hbase Hreads. rewrite templates_scan in Hreads.
  destruct (page_like_loaded fs dirPath names (EMAIL_TEMPLATE_FILENAMES K)
              (templates_role K dirPath) (reads_of sched dirPath) names_plain)
    as (items & Hsettled & H).
  { intros F HF. unfold templates_role. rewrite isEmailTemplate_listed; [done..|].
    by destruct (forallb_plain _ _ names_plain HF). }
  { exact Hreads. }
  exists items. split; [|exact H].
  unfold getEmailTemplates. rewrite (listing_done _ _ _ _ _ names_listed), templates_scan.
  unfold catch_, logging, templates_jobs. cbn [settled]. by rewrite Hsettled.
Qed.

End Pages.

(** X11. In the pages directory [getPages] loads the files whose name is
    on the list of page names and only them: every page it resolves with
    is named after such a file, and every other file of the listing is
    reported with a warning. *)
Theorem pages_are_the_listed_page_names
    (K : constants) (fs : filesystem) (sched : schedule) (dirPath : string)
    (names : list string) :
  dirPath ≠ ""%string →
  basename dirPath = PAGES_DIRECTORY K →
  readdir fs dirPath = inr names →
  forallb plain_name names = true →
  all_readable fs (pages_jobs (forEach names (pages_file K dirPath) []).2) = true →
  ∃ items,
    settled (getPages K fs sched dirPath) = Resolved (VArr (VObj <$> items))
    ∧ (∀ item, item ∈ items →
               ∃ F, F ∈ names ∧ F ∈ PAGE_NAMES K
                    ∧ get "name" item = VStr (name (path_parse F)))
    ∧ (∀ F, F ∈ names → F ∉ PAGE_NAMES K →
            (warn, "Skipping file that is not a page: " +:+ path_join dirPath F)
            ∈ logged (getPages K fs sched dirPath)).
Proof.
  intros Hne Hbase Hlist Hplain Hreads.
  destruct (getPages_loaded K fs sched dirPath names Hne Hlist Hplain Hbase Hreads)
    as (items & Hsettled & Horigin & _).
  exists items. split; [done|]. split; [done|].
  intros F HF Hout. unfold getPages.
  apply (collector_logged fs dirPath names _ _ _ Hlist).
  cbn [logging logged]. apply elem_of_app. left.
  apply forEach_logged with (x := F); [done|].
  intros acc. unfold pages_file.
  destruct (forallb_plain _ _ Hplain HF) as [HFs _].
  rewrite isPage_listed by done.
  destruct (0 <=? _)%Z eqn:Hi; [by apply indexOf_nonneg in Hi|].
  cbn [fst]. apply elem_of_app. right. apply list_elem_of_singleton. done.
Qed.

(** X12. A page whose body, a listed file that is on the list of page names
    and does not end in [.json], is the only such file of its name, is
    loaded under that name with the content of the file as its HTML.  Its
    metadata is the content of the listed [.json] file of the same name that
    is on the list of page names; without such a file the page is flagged
    as having no metadata and carries none. *)
Theorem page_pairs_body_and_metadata
    (K : constants) (fs : filesystem) (sched : schedule) (dirPath : string)
    (names : list string) (F content : string) :
  dirPath ≠ ""%string →
  basename dirPath = PAGES_DIRECTORY K →
  readdir fs dirPath = inr names →
  forallb plain_name names = true →
  all_readable fs (pages_jobs (forEach names (pages_file K dirPath) []).2) = true →
  F ∈ names → F ∈ PAGE_NAMES K → ext (path_parse F) ≠ ".json"%string →
  (∀ F', F' ∈ names → F' ∈ PAGE_NAMES K → name (path_parse F') = name (path_parse F) →
         ext (path_parse F') ≠ ".json"%string → F' = F) →
  readFile fs (path_join dirPath F) = inr content →
  ∃ items,
    settled (getPages K fs sched dirPath) = Resolved (VArr (VObj <$> items))
    ∧ ∃ item,
        item ∈ items
        ∧ get "name" item = VStr (name (path_parse F))
        ∧ get "htmlFile" item = VStr content
        ∧ (∀ M c, M ∈ names → M ∈ PAGE_NAMES K →
                  name (path_parse M) = name (path_parse F) →
                  ext (path_parse M) = ".json"%string →
                  readFile fs (path_join dirPath M) = inr c →
                  get "metadata" item = VBool true ∧ get "metadataFile" item = VStr c)
        ∧ ((∀ M, M ∈ names → M ∈ PAGE_NAMES K →
                 name (path_parse M) = name (path_parse F) →
                 ext (path_parse M) ≠ ".json"%string) →
           get "metadata" item = VBool false ∧ has "metadataFile" item = false).
Proof.
  intros Hne Hbase Hlist Hplain Hreads HF Hw Hext Huniq Hc.
  destruct (getPages_loaded K fs sched dirPath names Hne Hlist Hplain Hbase Hreads)
    as (items & Hsettled & _ & Hpair).
  exists items. split; [done|]. by apply Hpair.
Qed.

(** X13. In the directory of the email templates [getEmailTemplates] loads
    the files whose name is on the list of template file names and only
    them: every template it resolves with is named after such a file, and
    every other file of the listing is reported with a warning. *)
Theorem email_templates_are_the_listed_names
    (K : constants) (fs : filesystem) (sched : schedule) (dirPath : string)
    (names : list string) :
  dirPath ≠ ""%string →
  basename dirPath = EMAIL_TEMPLATES_DIRECTORY K →
  readdir fs dirPath = inr names →
  forallb plain_name names = true →
  all_readable fs (templates_jobs (forEach names (templates_file K dirPath) []).2) = true →
  ∃ items,
    settled (getEmailTemplates K fs sched dirPath) = Resolved (VArr (VObj <$> items))
    ∧ (∀ item, item ∈ items →
               ∃ F, F ∈ names ∧ F ∈ EMAIL_TEMPLATE_FILENAMES K
                    ∧ get "name" item = VStr (name (path_parse F)))
    ∧ (∀ F, F ∈ names → F ∉ EMAIL_TEMPLATE_FILENAMES K →
            (warn, "Skipping file that is not an email template: " +:+ path_join dirPath F)
            ∈ logged (getEmailTemplates K fs sched dirPath)).
Proof.
  intros Hne Hbase Hlist Hplain Hreads.
  destruct (getEmailTemplates_loaded K fs sched dirPath names Hne Hlist Hplain Hbase Hreads)
    as (items & Hsettled & Horigin & _).
  exists items. split; [done|]. split; [done|].
  intros F HF Hout. unfold getEmailTemplates.
  apply (collector_logged fs dirPath names _ _ _ Hlist).
  cbn [logging logged]. apply elem_of_app. left.
  apply forEach_logged with (x := F); [done|].
  intros acc. unfold templates_file.
  destruct (forallb_plain _ _ Hplain HF) as [HFs _].
  rewrite isEmailTemplate_listed by done.
  destruct (0 <=? _)%Z eqn:Hi; [by apply indexOf_nonneg in Hi|].
  cbn [fst]. apply list_elem_of_singleton. done.
Qed.

(** X14. An email template is assembled as a page is: the listed body of
    its name gives the HTML, the listed [.json] file of its name gives the
    metadata, and without that file the template is flagged as having no
    metadata. *)
Theorem email_template_pairs_body_and_metadata
    (K : constants) (fs : filesystem) (sched : schedule) (dirPath : string)
    (names : list string) (F content : string) :
  dirPath ≠ ""%string →
  basename dirPath = EMAIL_TEMPLATES_DIRECTORY K →
  readdir fs dirPath = inr names →
  forallb plain_name names = true →
  all_readable fs (templates_jobs (forEach names (templates_file K dirPath) []).2) = true →
  F ∈ names → F ∈ EMAIL_TEMPLATE_FILENAMES K → ext (path_parse F) ≠ ".json"%string →
  (∀ F', F' ∈ names → F' ∈ EMAIL_TEMPLATE_FILENAMES K →
         name (path_parse F') = name (path_parse F) →
         ext (path_parse F') ≠ ".json"%string → F' = F) →
  readFile fs (path_join dirPath F) = inr content →
  ∃ items,
    settled (getEmailTemplates K fs sched dirPath) = Resolved (VArr (VObj <$> items))
    ∧ ∃ item,
        item ∈ items
        ∧ get "name" item = VStr (name (path_parse F))
        ∧ get "htmlFile" item = VStr content
        ∧ (∀ M c, M ∈ names → M ∈ EMAIL_TEMPLATE_FILENAMES K →
                  name (path_parse M) = name (path_parse F) →
                  ext (path_parse M) = ".json"%string →
                  readFile fs (path_join dirPath M) = inr c →
                  get "metadata" item = VBool true ∧ get "metadataFile" item = VStr c)
        ∧ ((∀ M, M ∈ names → M ∈ EMAIL_TEMPLATE_FILENAMES K →
                 name (path_parse M) = name (path_parse F) →
                 ext (path_parse M) ≠ ".json"%string) →
           get "metadata" item = VBool false ∧ has "metadataFile" item = false).
Proof.
  intros Hne Hbase Hlist Hplain Hreads HF Hw Hext Huniq Hc.
  destruct (getEmailTemplates_loaded K fs sched dirPath names Hne Hlist Hplain Hbase Hreads)
    as (items & Hsettled & _ & Hpair).
  exists items. split; [done|]. by apply Hpair.
Qed.

Lemma keys_singleton (k : string) (v : value) : keys [(k, v)] = [k].
Proof.
  unfold keys, index_key, is_index. cbn [map fst omap filter].
  destruct (array_index k) eqn:Hk; cbn; rewrite ?Hk; done.
Qed.

(** The scan of a directory in which one file name alone has a role. *)
Lemma scan_roles_single (role : string → option (string * string)) (dirPath F0 n a : string)
    (names : list string) :
  (∀ F, F ∈ names → role F = if String.eqb F F0 then Some (n, a) else None) →
  scan_roles role dirPath names []
  = if bool_decide (F0 ∈ names) then [(n, VObj [(a, VStr (path_join dirPath F0))])] else [].
Proof.
  set (one := [(n, VObj [(a, VStr (path_join dirPath F0))])]).
  assert (Hup : ∀ acc, acc = [] ∨ acc = one →
            upsert n a (VStr (path_join dirPath F0)) acc = one).
  { intros acc [-> | ->]; unfold upsert, set_in, one; cbn;
      rewrite ?String.eqb_refl; cbn; rewrite ?String.eqb_refl; cbn;
      rewrite ?String.eqb_refl; done. }
  assert (G : ∀ acc, acc = [] ∨ acc = one →
            (∀ F, F ∈ names → role F = if String.eqb F F0 then Some (n, a) else None) →
            scan_roles role dirPath names acc
            = if bool_decide (F0 ∈ names) then one else acc).
  { induction names as [|F names IH]; intros acc Hacc Hrole; simpl; [done|].
    rewrite (Hrole F) by constructor.
    destruct (String.eqb_spec F F0) as [->|Hne].
    - rewrite Hup by done. rewrite IH; [|by right|intros; apply Hrole; by constructor].
      rewrite (bool_decide_eq_true_2 (F0 ∈ F0 :: names)) by constructor.
      by destruct (bool_decide _).
    - rewrite IH; [|done|intros; apply Hrole; by constructor].
      destruct (bool_decide (F0 ∈ names)) eqn:Hd.
      + apply bool_decide_eq_true_1 in Hd.
        by rewrite (bool_decide_eq_true_2 (F0 ∈ F :: names)) by (by constructor).
      + apply bool_decide_eq_false_1 in Hd.
        rewrite (bool_decide_eq_false_2 (F0 ∈ F :: names)); [done|].
        intros [?|?]%elem_of_cons; done. }
  intros Hrole. rewrite G; [|by left|done]. by destruct (bool_decide _).
Qed.

(** X15. In the directory of the email providers [getEmailProviders] loads
    one file at most, the one called by the provider file name: it resolves
    with a single provider, named after that file and holding its content as
    configuration, when the file is listed, and with no provider otherwise;
    every other file of the listing is reported with a warning. *)
Theorem at_most_one_email_provider
    (K : constants) (fs : filesystem) (sched : schedule) (dirPath : string)
    (names : list string) :
  dirPath ≠ ""%string →
  basename dirPath = EMAIL_PROVIDERS_DIRECTORY K →
  readdir fs dirPath = inr names →
  forallb plain_name names = true →
  all_readable fs (providers_jobs (forEach names (providers_file K dirPath) []).2) = true →
  let file := EMAIL_PROVIDER_FILENAME K in
  (file ∉ names → settled (getEmailProviders K fs sched dirPath) = Resolved (VArr []))
  ∧ (file ∈ names →
     ∃ content,
       readFile fs (path_join dirPath file) = inr content
       ∧ settled (getEmailProviders K fs sched dirPath)
         = Resolved (VArr [VObj [("name", VStr (name (path_parse file)));
                                 ("configFile", VStr content)]]))
  ∧ (∀ F, F ∈ names → F ≠ file →
          (warn, "Skipping file that is not an email provider: " +:+ path_join dirPath F)
          ∈ logged (getEmailProviders K fs sched dirPath)).
Proof.
  intros Hne Hbase Hlist Hplain Hreads file.
  assert (Hscan : (forEach names (providers_file K dirPath) []).2
                  = if bool_decide (file ∈ names)
                    then [(name (path_parse file),
                           VObj [("fileName", VStr (path_join dirPath file))])]
                    else []).
  { rewrite providers_scan. apply scan_roles_single. intros F HF. unfold providers_role.
    destruct (forallb_plain _ _ Hplain HF) as [HFs _].
    rewrite isEmailProvider_listed by done. fold file.
    destruct (String.eqb_spec F file) as [->|]; done. }
  assert (Hsettled : settled (getEmailProviders K fs sched dirPath)
            = settled (Promise_map fs (reads_of sched dirPath)
                         (providers_jobs (forEach names (providers_file K dirPath) []).2) 2)).
  { destruct (Promise_map_resolves fs _ (reads_of sched dirPath) 2 Hreads)
      as (items & Hs & _).
    unfold getEmailProviders. rewrite (listing_done _ _ _ _ _ Hlist).
    unfold catch_, logging. cbn [settled]. by rewrite Hs. }
  rewrite Hsettled. rewrite Hscan in *. clear Hscan Hsettled.
  split; [|split].
  - intros Hout. by rewrite bool_decide_eq_false_2.
  - intros Hin. rewrite bool_decide_eq_true_2 in * by done.
    unfold providers_jobs in *. rewrite keys_singleton in *. cbn [map get] in *.
    rewrite ?String.eqb_refl in *.
    assert (Ht : truthy (VStr (path_join dirPath file)) = true).
    { cbn. destruct (String.eqb_spec (path_join dirPath file) "") as [He|]; [|done].
      by apply path_join_nonempty in He. }
    unfold processEmailProvider in *. cbn [member get String.eqb Ascii.eqb Bool.eqb] in *.
    rewrite Ht in *.
    destruct (Promise_map_resolves fs _ (reads_of sched dirPath) 2 Hreads)
      as (items & Hs & Hitems).
    inversion Hitems as [|j o js os (order & Horder & Ho) Hrest]; subst.
    inversion Hrest; subst. cbn [reads current to_string] in *.
    apply Permutation_sym, Permutation_length_1_inv in Horder as ->.
    unfold all_readable, readable in Hreads. cbn [forallb reads fst] in Hreads.
    destruct (readFile fs (path_join dirPath file)) as [e|content] eqn:Hc; [done|].
    exists content. split; [done|]. rewrite Hs.
    unfold loaded_in. cbn [fold_left fst snd]. by rewrite Hc.
  - intros F HF Hother. unfold getEmailProviders.
    apply (collector_logged fs dirPath names _ _ _ Hlist).
    cbn [logging logged]. apply elem_of_app. left.
    apply forEach_logged with (x := F); [done|].
    intros acc. unfold providers_file.
    destruct (forallb_plain _ _ Hplain HF) as [HFs _].
    rewrite isEmailProvider_listed by done. fold file.
    destruct (String.eqb_spec F file); [done|].
    cbn [fst]. apply list_elem_of_singleton. done.
Qed.

(** ** The configuration of a database connection *)

Lemma connection_files_configuration (K : constants) (dirPath database F0 : string)
    (files : list string) (entry : obj) :
  database_role K F0 = Some None →
  (∀ F, F ∈ files → database_role K F = Some None → F = F0) →
  F0 ∈ files
  ∨ get "configurationFileName" entry = VStr (path_join (path_join dirPath database) F0) →
  get "configurationFileName" (connection_files K dirPath database files entry)
  = VStr (path_join (path_join dirPath database) F0).
Proof.
  intros HF0. unfold connection_files. revert entry.
  induction files as [|F files IH]; intros entry Huniq Hin; simpl.
  - destruct Hin as [[]%elem_of_nil|]; done.
  - apply IH; [intros F' HF'; apply Huniq; by constructor|].
    unfold connection_file. destruct (database_role K F) as [[s|]|] eqn:HF.
    + rewrite push_other by done.
      destruct Hin as [[->|?]%elem_of_cons|?]; [congruence | by left | by right].
    + right. rewrite get_set. cbn. do 2 f_equal. apply Huniq; [constructor | done].
    + destruct Hin as [[->|?]%elem_of_cons|?]; [congruence | by left | by right].
Qed.

Lemma loaded_in_set (fs : filesystem) (k : string) (v : value) (order : list file_read)
    (o : obj) :
  Forall (fun r => (∀ o, get k (apply_read fs r o) = v)
                   ∨ (∀ o, get k (apply_read fs r o) = get k o)) order →
  Exists (fun r => ∀ o, get k (apply_read fs r o) = v) order ∨ get k o = v →
  get k (loaded_in fs order o) = v.
Proof.
  rewrite loaded_in_fold. revert o.
  induction order as [|r order IH]; intros o Hall Hex; simpl.
  - destruct Hex as [Hex|]; [by apply Exists_nil in Hex | done].
  - apply Forall_cons in Hall as [Hr Hall]. apply IH; [done|].
    destruct Hex as [Hex|Ho].
    + apply Exists_cons in Hex as [Hset|Hex]; [right; apply Hset | by left].
    + destruct Hr as [Hset|Hkeep]; right; [apply Hset | by rewrite Hkeep].
Qed.

Section Configuration.

Variable K : constants.
Variable fs : filesystem.
Variable sched : schedule.
Variable dirPath : string.
Variable dirs : list string.

Hypothesis dirPath_nonempty : dirPath ≠ ""%string.
Hypothesis dirPath_connections : basename dirPath = DATABASE_CONNECTIONS_DIRECTORY K.
Hypothesis listed : readdir fs dirPath = inr dirs.
Hypothesis dirs_distinct : NoDup dirs.
Hypothesis dirs_plain : forallb plain_name dirs = true.
Hypothesis dirs_listed : well_listed fs dirPath dirs = true.
Hypothesis reads_succeed :
  all_readable fs (database_jobs (scan_databases K fs sched dirPath dirs).2) = true.

(** The connection of a directory, as the mapper loads it. *)
Lemma getDatabases_connection (database : string) (files : list string) :
  database ∈ dirs →
  readdir fs (path_join dirPath database) = inr files →
  existsb (recognized K) files = true →
  ∃ connections order,
    settled (getDatabases K fs sched dirPath) = Resolved (VArr (VObj <$> connections))
    ∧ let j := readDatabaseFiles database
                 (VObj (connection_files K dirPath database files [("scripts", VArr [])])) in
      order ≡ₚ reads j
      ∧ loaded_in fs order (current j) ∈ connections
      ∧ Forall (fun r => readable fs r = true) (reads j).
Proof.
  intros Hd Hfiles Hrec.
  pose proof (scan_databases_spec K fs sched dirPath dirs dirPath_nonempty
                dirPath_connections dirs_distinct dirs_plain dirs_listed) as Hscan.
  cbn zeta in Hscan.
  destruct (proj2 (Hscan database) files Hd Hfiles Hrec) as [Hhas Hget].
  set (acc := (scan_databases K fs sched dirPath dirs).2) in *.
  destruct (Promise_map_resolves fs _ (reads_of sched dirPath) 2 reads_succeed)
    as (connections & Hsettled & Hconn).
  assert (Hin : readDatabaseFiles database (get database acc) ∈ database_jobs acc).
  { unfold database_jobs. apply list_elem_of_In, in_map_iff. exists database.
    split; [done|]. by apply list_elem_of_In, elem_of_keys. }
  destruct (Forall2_elem_of_l _ _ _ _ Hconn Hin) as (c & Hc & order & Horder & ->).
  rewrite Hget in *.
  exists connections, order. split.
  { unfold getDatabases. rewrite (listing_done _ _ _ _ _ listed).
    unfold catch_, logging. cbn [settled]. fold acc. by rewrite Hsettled. }
  cbn zeta. split; [done|]. split; [done|].
  apply Forall_forall. intros r Hr.
  destruct (all_readable_spec fs _ reads_succeed _ r Hin Hr) as [contents Hcontents].
  unfold readable. by rewrite Hcontents.
Qed.

End Configuration.


(** ** What the collectors log *)

(** X17. A collector whose directory cannot be listed logs one line at
    most: the informational line of its type when the directory does not
    exist, and nothing when it rejects. *)
Theorem absent_directory_is_logged
    (K : constants) (fs : filesystem) (sched : schedule) (fullPath : string) (t : resource)
    (e : js_error) :
  readdir fs (path_join fullPath (directory K t)) = inl e →
  collect K fs sched fullPath t
  = if is_ENOENT e
    then {| logged := [absent_line t]; settled := Resolved VUndefined |}
    else {| logged := []; settled := Rejected (Error (rejection_prefix t +:+ message e)) |}.
Proof.
  intros H.
  destruct t; unfold collect, getRules, getPages, getDatabases, getConfigurableConfigs,
    getEmailTemplates, getEmailProviders;
    rewrite (listing_failed _ _ _ _ _ H); by destruct (is_ENOENT e).
Qed.


(** ** The further properties at work on sample trees *)

(** An input path that does not exist. *)
Lemma unreachable_input_is_rejected_witness :
  init tools_constants (tree_fs repo_empty) in_order keyed_by_name connections_as_loaded
    (parse_documents []) resolve_absolute (new_Context "/nowhere" VUndefined) VUndefined
  = Promise_reject
      (Error "Can't process /nowhere because: ENOENT: no such file or directory, lstat '/nowhere'").
Proof.
  apply (unreachable_input_is_rejected tools_constants (tree_fs repo_empty) in_order
           keyed_by_name connections_as_loaded (parse_documents []) resolve_absolute
           (new_Context "/nowhere" VUndefined) VUndefined (ENOENT "lstat" "/nowhere")).
  by_evaluation.
Defined.

(** A descriptor file whose content cannot be parsed. *)
Lemma bad_descriptor_throws_witness :
  init tools_constants (tree_fs repo_descriptor) in_order keyed_by_name connections_as_loaded
    (parse_documents []) resolve_absolute (new_Context "/asFile.json" VUndefined) VUndefined
  = {| logged := []; settled := Thrown (Error "Unexpected token") |}.
Proof.
  apply (bad_descriptor_throws tools_constants (tree_fs repo_descriptor) in_order
           keyed_by_name connections_as_loaded (parse_documents []) resolve_absolute
           (new_Context "/asFile.json" VUndefined) VUndefined (Error "Unexpected token")).
  - by_evaluation.
  - right. exists descriptor_text. split; by_evaluation.
Defined.

(** A descriptor file whose document is an empty array. *)
Lemma descriptor_shape_is_not_checked_witness :
  ∃ ctx,
    init tools_constants (tree_fs repo_descriptor) in_order keyed_by_name
      connections_as_loaded (parse_documents [(descriptor_text, VArr [])]) resolve_absolute
      (new_Context "/asFile.json" VUndefined) VUndefined
    = Promise_resolve ctx
    ∧ ∀ t, field t ctx = empty_default t.
Proof.
  apply (descriptor_shape_is_not_checked tools_constants (tree_fs repo_descriptor) in_order
           keyed_by_name connections_as_loaded (parse_documents [(descriptor_text, VArr [])])
           resolve_absolute (new_Context "/asFile.json" VUndefined) VUndefined
           descriptor_text (VArr [])); by_evaluation.
Defined.

(** A repository whose [pages] is a file: the pages collector rejects and
    so does the build. *)
Lemma build_rejects_iff_a_collector_does_witness :
  ∃ e, settled (init tools_constants (tree_fs repo_pages_file) in_order keyed_by_name
                  connections_as_loaded (parse_documents []) resolve_absolute
                  (new_Context "/repo" VUndefined) VUndefined) = Rejected e.
Proof.
  destruct (build_rejects_iff_a_collector_does tools_constants (tree_fs repo_pages_file)
              in_order keyed_by_name connections_as_loaded (parse_documents [])
              resolve_absolute (new_Context "/repo" VUndefined) VUndefined) as ([_ H] & _).
  - by_evaluation.
  - apply H. exists Pages. eexists. by_evaluation.
Defined.






(** Two page files of one name and a file that is no page. *)
Lemma pages_are_the_listed_page_names_witness :
  ∃ items,
    settled (getPages tools_constants (tree_fs repo_pages) in_order "/repo/pages")
    = Resolved (VArr (VObj <$> items))
    ∧ (warn, "Skipping file that is not a page: /repo/pages/notes.txt"%string)
      ∈ logged (getPages tools_constants (tree_fs repo_pages) in_order "/repo/pages").
Proof.
  destruct (pages_are_the_listed_page_names tools_constants (tree_fs repo_pages) in_order
              "/repo/pages" ["login.html"; "login.json"; "notes.txt"])
    as (items & Hsettled & _ & Hlog).
  - discriminate.
  - by_evaluation.
  - by_evaluation.
  - by_evaluation.
  - by_evaluation.
  - exists items. split; [exact Hsettled|].
    apply (Hlog "notes.txt"); decided.
Defined.

Lemma page_pairs_body_and_metadata_witness :
  ∃ items,
    settled (getPages tools_constants (tree_fs repo_pages) in_order "/repo/pages")
    = Resolved (VArr (VObj <$> items))
    ∧ ∃ item,
        item ∈ items
        ∧ get "name" item = VStr "login"
        ∧ get "htmlFile" item = VStr "<html>login</html>"
        ∧ get "metadata" item = VBool true
        ∧ get "metadataFile" item = VStr "{ enabled }".
Proof.
  destruct (page_pairs_body_and_metadata tools_constants (tree_fs repo_pages) in_order
              "/repo/pages" ["login.html"; "login.json"; "notes.txt"] "login.html"
              "<html>login</html>")
    as (items & Hsettled & item & Hitem & Hname & Hhtml & Hmeta & _).
  - discriminate.
  - by_evaluation.
  - by_evaluation.
  - by_evaluation.
  - by_evaluation.
  - decided.
  - decided.
  - vm_compute. discriminate.
  - intros F' HF' Hw Hn He.
    apply elem_of_cons in HF' as [->|HF']; [reflexivity|].
    apply elem_of_cons in HF' as [->|HF']; [by vm_compute in He|].
    apply list_elem_of_singleton in HF' as ->. by vm_compute in Hn.
  - by_evaluation.
  - exists items. split; [exact Hsettled|]. exists item.
    split; [exact Hitem|]. split; [exact Hname|]. split; [exact Hhtml|].
    apply (Hmeta "login.json"); [decided | decided | by_evaluation..].
Defined.

(** Two template files of one name and a file that is no template. *)
Lemma email_templates_are_the_listed_names_witness :
  ∃ items,
    settled (getEmailTemplates tools_constants (tree_fs repo_templates) in_order
               "/repo/email-templates")
    = Resolved (VArr (VObj <$> items))
    ∧ (warn,
       "Skipping file that is not an email template: /repo/email-templates/junk.md"%string)
      ∈ logged (getEmailTemplates tools_constants (tree_fs repo_templates) in_order
                  "/repo/email-templates").
Proof.
  destruct (email_templates_are_the_listed_names tools_constants (tree_fs repo_templates)
              in_order "/repo/email-templates"
              ["verify_email.html"; "verify_email.json"; "junk.md"])
    as (items & Hsettled & _ & Hlog).
  - discriminate.
  - by_evaluation.
  - by_evaluation.
  - by_evaluation.
  - by_evaluation.
  - exists items. split; [exact Hsettled|].
    apply (Hlog "junk.md"); decided.
Defined.

Lemma email_template_pairs_body_and_metadata_witness :
  ∃ items,
    settled (getEmailTemplates tools_constants (tree_fs repo_templates) in_order
               "/repo/email-templates")
    = Resolved (VArr (VObj <$> items))
    ∧ ∃ item,
        item ∈ items
        ∧ get "name" item = VStr "verify_email"
        ∧ get "htmlFile" item = VStr "<html>verify</html>"
        ∧ get "metadata" item = VBool true
        ∧ get "metadataFile" item = VStr "{ enabled }".
Proof.
  destruct (email_template_pairs_body_and_metadata tools_constants (tree_fs repo_templates)
              in_order "/repo/email-templates"
              ["verify_email.html"; "verify_email.json"; "junk.md"] "verify_email.html"
              "<html>verify</html>")
    as (items & Hsettled & item & Hitem & Hname & Hhtml & Hmeta & _).
  - discriminate.
  - by_evaluation.
  - by_evaluation.
  - by_evaluation.
  - by_evaluation.
  - decided.
  - decided.
  - vm_compute. discriminate.
  - intros F' HF' Hw Hn He.
    apply elem_of_cons in HF' as [->|HF']; [reflexivity|].
    apply elem_of_cons in HF' as [->|HF']; [by vm_compute in He|].
    apply list_elem_of_singleton in HF' as ->. by vm_compute in Hn.
  - by_evaluation.
  - exists items. split; [exact Hsettled|]. exists item.
    split; [exact Hitem|]. split; [exact Hname|]. split; [exact Hhtml|].
    apply (Hmeta "verify_email.json"); [decided | decided | by_evaluation..].
Defined.

(** The provider file beside another JSON file. *)
Lemma at_most_one_email_provider_witness :
  settled (getEmailProviders tools_constants (tree_fs repo_providers) in_order
             "/repo/email-providers")
  = Resolved (VArr [VObj [("name", VStr "default"); ("configFile", VStr "{ smtp }")]])
  ∧ (warn,
     "Skipping file that is not an email provider: /repo/email-providers/other.json"%string)
    ∈ logged (getEmailProviders tools_constants (tree_fs repo_providers) in_order
                "/repo/email-providers").
Proof.
  destruct (at_most_one_email_provider tools_constants (tree_fs repo_providers) in_order
              "/repo/email-providers" ["default.json"; "other.json"])
    as (_ & Hone & Hlog).
  - discriminate.
  - by_evaluation.
  - by_evaluation.
  - by_evaluation.
  - by_evaluation.
  - split.
    + destruct Hone as (content & Hcontent & Hsettled); [decided|].
      vm_compute in Hcontent. injection Hcontent as <-. exact Hsettled.
    + apply (Hlog "other.json"); [decided | discriminate].
Defined.


(** A repository without a [rules] directory. *)
Lemma absent_directory_is_logged_witness :
  collect tools_constants (tree_fs repo_empty) in_order "/repo" Rules
  = {| logged := [(info, "No rules configured"%string)]; settled := Resolved VUndefined |}.
Proof.
  apply (absent_directory_is_logged tools_constants (tree_fs repo_empty) in_order "/repo"
           Rules (ENOENT "scandir" "/repo/rules")).
  by_evaluation.
Defined.


(** ** Files of a connection that are skipped *)

Lemma skipped_file_logged (K : constants) (dirPath database fileName : string) :
  dirPath ≠ ""%string →
  basename dirPath = DATABASE_CONNECTIONS_DIRECTORY K →
  contains "/" database = false → contains "/" fileName = false →
  recognized K fileName = false →
  skipped_line K (path_join dirPath database) fileName
  ∈ (getDatabaseFileDetails K (path_join (path_join dirPath database) fileName)).1.
Proof.
  intros Hne Hbase Hd HF. unfold recognized, getDatabaseFileDetails, database_role, skipped_line.
  rewrite basename_path_join, !dirname_path_join, basename_path_join
    by (done || apply path_join_nonempty).
  rewrite Hbase, String.eqb_refl. cbn [andb].
  destruct (test_suffix_i ".js" fileName) eqn:Hjs; cbn [orb].
  - destruct (_ <? _)%Z; [done|]. intros _. cbn [fst].
    apply elem_of_cons. right. apply list_elem_of_singleton.
    reflexivity.
  - destruct (test_suffix_i ".json" fileName).
    + destruct (String.eqb _ "configuration"); [done|]. intros _. cbn [fst].
      apply elem_of_cons. right. apply list_elem_of_singleton. reflexivity.
    + intros _. cbn [fst]. apply elem_of_cons. right. apply list_elem_of_singleton.
      reflexivity.
Qed.



(** ** Metadata without a configuration *)

Lemma upsert_present (k a0 n a : string) (v : value) (acc : obj) :
  objects_only acc →
  present a0 (get k (upsert n a v acc))
  = String.eqb k n && String.eqb a0 a || present a0 (get k acc).
Proof.
  intros Hacc. destruct (upsert_spec n a v acc Hacc) as (entry & Hentry & ->).
  rewrite get_set. destruct (String.eqb_spec k n) as [->|]; [|done].
  cbn [andb present]. rewrite has_set.
  destruct Hentry as [[-> ->]| ->]; done.
Qed.

Lemma scan_roles_absent (role : string → option (string * string)) (dirPath : string)
    (names : list string) (acc : obj) (n a : string) :
  objects_only acc →
  (∀ F, F ∈ names → role F ≠ Some (n, a)) →
  present a (get n (scan_roles role dirPath names acc)) = present a (get n acc).
Proof.
  revert acc; induction names as [|F names IH]; intros acc Hacc Hnone; simpl; [done|].
  rewrite IH.
  - destruct (role F) as [[n' a']|] eqn:HF; [|done]. rewrite upsert_present by done.
    destruct (String.eqb_spec n n') as [<-|]; [|done].
    destruct (String.eqb_spec a a') as [<-|]; [|done].
    exfalso. eapply Hnone; [constructor | done].
  - destruct (role F) as [[n' a']|]; [by apply upsert_objects_only | done].
  - intros F' HF'. apply Hnone. by constructor.
Qed.

Lemma processConfigurableConfig_unloaded (fs : filesystem) (n : string) (files : obj)
    (order : list file_read) :
  order ≡ₚ reads (processConfigurableConfig n (VObj files)) →
  has "configFileName" files = false →
  has "configFile" (loaded_in fs order (current (processConfigurableConfig n (VObj files))))
  = false.
Proof.
  unfold processConfigurableConfig. cbn [reads current map concat fst snd app].
  intros Hp Hc. rewrite Hc in Hp. cbn [app] in Hp.
  destruct (has "metadataFileName" files).
  - apply Permutation_sym, Permutation_length_1_inv in Hp as ->.
    unfold loaded_in; cbn [fold_left fst snd]. destruct (readFile fs _); by rewrite ?has_set.
  - by apply Permutation_sym, Permutation_nil in Hp as ->.
Qed.



